(** * IPO allotment service (src/unnamed/part_002, src/src/services/ipoAllotmentService.ts)

    A shallow embedding of the multi-registrar allotment subsystem:
    the identifier resolvers with their caches, the per-registrar checkers
    and the sequential dispatcher.

    Modelling conventions.
    - JavaScript strings are [String.string], the bytes of their UTF-8
      encoding (a lone surrogate code unit, which UTF-8 cannot encode, in
      its three-byte form ED A0..BF xx); [toLowerCase], [trim],
      [includes], the regular expressions of the source are written out on
      ASCII characters.
    - A JavaScript [Map] is an association list in insertion order;
      [set] on an existing key updates the value in place, as [Map.set] does.
    - Every outbound HTTP request is an effect of the monad [M] below: it is
      appended to a request log and its outcome (a response, or a transport
      error with its message) is read from an environment [Env] that stands
      for the upstream sites at the time of the call.  Markup that the source
      hands to cheerio is given in the environment already parsed into the
      few fields the source queries (selector results, cell texts).
    - [Date.now()] is the field [now] of the environment: one instant per
      call. *)

From Stdlib Require Import String Ascii List ZArith Lia Bool Permutation Sorted.
Import ListNotations.
Open Scope string_scope.
Open Scope Z_scope.

(* ------------------------------------------------------------------ *)
(** ** JavaScript string operations (ASCII) *)

Module JsString.

Definition is_space (c : ascii) : bool :=
  let n := nat_of_ascii c in
  (Nat.eqb n 32 || (Nat.leb 9 n && Nat.leb n 13))%bool.

Definition is_upper (c : ascii) : bool :=
  let n := nat_of_ascii c in (Nat.leb 65 n && Nat.leb n 90)%bool.

Definition is_lower (c : ascii) : bool :=
  let n := nat_of_ascii c in (Nat.leb 97 n && Nat.leb n 122)%bool.

Definition is_digit (c : ascii) : bool :=
  let n := nat_of_ascii c in (Nat.leb 48 n && Nat.leb n 57)%bool.

(** The [\w] class of regular expressions. *)
Definition is_word (c : ascii) : bool :=
  (is_upper c || is_lower c || is_digit c || Ascii.eqb c "_"%char)%bool.

Definition lower_char (c : ascii) : ascii :=
  if is_upper c then ascii_of_nat (nat_of_ascii c + 32) else c.

(** [s.toLowerCase()] *)
Definition toLowerCase (s : string) : string :=
  string_of_list_ascii (map lower_char (list_ascii_of_string s)).

Fixpoint drop_spaces (l : list ascii) : list ascii :=
  match l with
  | c :: r => if is_space c then drop_spaces r else l
  | [] => []
  end.

(** [s.trim()] *)
Definition trim (s : string) : string :=
  string_of_list_ascii
    (rev (drop_spaces (rev (drop_spaces (list_ascii_of_string s))))).

Fixpoint prefixb (p l : list ascii) : bool :=
  match p, l with
  | [], _ => true
  | a :: p', b :: l' => (Ascii.eqb a b && prefixb p' l')%bool
  | _ :: _, [] => false
  end.

Fixpoint includes_l (l p : list ascii) : bool :=
  match l with
  | [] => prefixb p []
  | _ :: r => (prefixb p l || includes_l r p)%bool
  end.

(** [s.includes(t)] *)
Definition includes (s t : string) : bool :=
  includes_l (list_ascii_of_string s) (list_ascii_of_string t).

(** [/^\d+$/.test(s)] *)
Definition is_numeric (s : string) : bool :=
  let l := list_ascii_of_string s in
  (negb (Nat.eqb (List.length l) 0) && forallb is_digit l)%bool.

(** [s.replace(/[^a-z0-9]/g, '')] *)
Definition keep_alnum (s : string) : string :=
  string_of_list_ascii
    (filter (fun c => (is_lower c || is_digit c)%bool) (list_ascii_of_string s)).

(** The corporate suffixes of the regular expression
    [/\b(limited|ltd|pvt|private|company|corp|corporation|inc|incorporated)\b/g],
    in the order of its alternation. *)
Definition stop_words : list string :=
  ["limited"; "ltd"; "pvt"; "private"; "company"; "corp"; "corporation";
   "inc"; "incorporated"].

(** [\b] at the end of a candidate match: the next character is not a word
    character (every alternative ends in a word character). *)
Definition boundary_after (rest : list ascii) : bool :=
  match rest with
  | [] => true
  | c :: _ => negb (is_word c)
  end.

(** The first alternative that matches at the head of [l] and is followed by
    a word boundary, returning the input after it. *)
Fixpoint match_alt (alts : list string) (l : list ascii) : option (list ascii) :=
  match alts with
  | [] => None
  | w :: alts' =>
      let wl := list_ascii_of_string w in
      if (prefixb wl l && boundary_after (skipn (List.length wl) l))%bool
      then Some (skipn (List.length wl) l)
      else match_alt alts' l
  end.

(** Global replacement by [''], scanning left to right; [prev_word] records
    whether the character before the current position (in the input) is a
    word character, which decides the leading [\b]. *)
Fixpoint strip_stop_l (fuel : nat) (prev_word : bool) (l : list ascii)
  : list ascii :=
  match fuel with
  | O => l
  | S fuel' =>
      match l with
      | [] => []
      | c :: r =>
          match (if prev_word then None else match_alt stop_words l) with
          | Some rest =>
              (* the match ends in a word character *)
              strip_stop_l fuel' true rest
          | None => c :: strip_stop_l fuel' (is_word c) r
          end
      end
  end.

Definition strip_stop_words (s : string) : string :=
  let l := list_ascii_of_string s in
  string_of_list_ascii (strip_stop_l (S (List.length l)) false l).

Fixpoint tokens_l (cur : list ascii) (l : list ascii) : list (list ascii) :=
  match l with
  | [] => [rev cur]
  | c :: r => if is_space c then rev cur :: tokens_l [] r else tokens_l (c :: cur) r
  end.

(** [s.split(/\s+/)]: the pieces between runs of white space (the empty
    pieces a run at either end produces have length 0). *)
Definition split_ws (s : string) : list string :=
  map string_of_list_ascii
    (filter (fun t => negb (Nat.eqb (List.length t) 0))
       (tokens_l [] (list_ascii_of_string s))).

End JsString.

Import JsString.

(* ------------------------------------------------------------------ *)
(** ** The company-id caches: [Map<string, { id: string | null; timestamp: number }>] *)

Module IdCache.

Record CacheEntry := mkEntry { id : option string; timestamp : Z }.

(** A [Map] in insertion order. *)
Definition Cache := list (string * CacheEntry).

Definition CACHE_DURATION : Z := 24 * 60 * 60 * 1000.
Definition MAX_CACHE_SIZE : nat := 1000.

(** [cache.get(key)] *)
Fixpoint get (c : Cache) (k : string) : option CacheEntry :=
  match c with
  | [] => None
  | (k', v) :: r => if String.eqb k k' then Some v else get r k
  end.

(** [cache.set(key, value)]: an existing key keeps its position. *)
Fixpoint set (c : Cache) (k : string) (v : CacheEntry) : Cache :=
  match c with
  | [] => [(k, v)]
  | (k', v') :: r =>
      if String.eqb k k' then (k', v) :: r else (k', v') :: set r k v
  end.

(** [cache.delete(key)] *)
Definition delete (c : Cache) (k : string) : Cache :=
  filter (fun p => negb (String.eqb (fst p) k)) c.

Definition expired (now : Z) (e : CacheEntry) : bool :=
  now - timestamp e >? CACHE_DURATION.

(** The comparator [(a, b) => a[1].timestamp - b[1].timestamp] used with the
    (stable) [Array.prototype.sort]: insertion sort that puts an element
    after every element with a timestamp not greater than its own. *)
Fixpoint insert_ts (x : string * CacheEntry) (l : Cache) : Cache :=
  match l with
  | [] => [x]
  | y :: r =>
      if timestamp (snd x) <? timestamp (snd y) then x :: y :: r
      else y :: insert_ts x r
  end.

Fixpoint sort_ts_acc (acc : Cache) (l : Cache) : Cache :=
  match l with
  | [] => acc
  | x :: r => sort_ts_acc (insert_ts x acc) r
  end.

Definition sort_ts (l : Cache) : Cache := sort_ts_acc [] l.

(** The body of [cleanupCache] / [cleanupMufgCache] / [cleanupPurvaCache]
    (the three are the same code on their own map). *)
Definition cleanup (now : Z) (c : Cache) : Cache :=
  (* Remove expired entries *)
  let c1 := fold_left
              (fun m '(k, v) => if expired now v then delete m k else m) c c in
  (* Enforce size limit by removing oldest entries *)
  if Nat.ltb MAX_CACHE_SIZE (List.length c1) then
    let entries := sort_ts c1 in
    let entriesToRemove := firstn (List.length c1 - MAX_CACHE_SIZE) entries in
    fold_left (fun m '(k, _) => delete m k) entriesToRemove c1
  else c1.

End IdCache.

Import IdCache.

(* ------------------------------------------------------------------ *)
(** ** The effects: module state, request log, exceptions *)

(** An outbound request: its URL and the form or body fields it sends. *)
Record Request := mkRequest { req_url : string; req_fields : list (string * string) }.

(** Process-wide mutable state of the module: the three caches, and a log of
    the outbound requests issued. *)
Record St := mkSt {
  bigshareCompanyIdCache : Cache;
  mufgCompanyIdCache : Cache;
  purvaCompanyIdCache : Cache;
  requests : list Request
}.

(** A thrown error: its [message] and, for a rejected HTTP request, the
    status of the response ([error.response?.status]). *)
Record Exn := mkExn { message : string; response_status : option Z }.

(** A computation threads the state and may throw an exception. *)
Definition M (A : Type) : Type := St -> (Exn + A) * St.

Definition ret {A} (a : A) : M A := fun s => (inr a, s).
Definition bind {A B} (m : M A) (k : A -> M B) : M B :=
  fun s => match m s with
           | (inr a, s') => k a s'
           | (inl e, s') => (inl e, s')
           end.
Definition throw {A} (e : Exn) : M A := fun s => (inl e, s).
(** [try { m } catch (error) { h(error) }] *)
Definition try_catch {A} (m : M A) (h : Exn -> M A) : M A :=
  fun s => match m s with
           | (inl e, s') => h e s'
           | r => r
           end.
Definition get_st : M St := fun s => (inr s, s).
Definition put_st (s : St) : M unit := fun _ => (inr tt, s).

Notation "x <- m ;; k" := (bind m (fun x => k))
  (at level 61, m at next level, right associativity).
Notation "m ;;; k" := (bind m (fun _ => k))
  (at level 61, right associativity).

(** An outbound request to [url] sending [fields], whose outcome is [r]: a
    transport error (thrown, with its message) or a response. *)
Definition http_with {A} (url : string) (fields : list (string * string))
  (r : Exn + A) : M A :=
  fun s =>
    (r, mkSt (bigshareCompanyIdCache s) (mufgCompanyIdCache s)
             (purvaCompanyIdCache s) (requests s ++ [mkRequest url fields])%list).

Definition http {A} (url : string) (r : Exn + A) : M A := http_with url [] r.

Definition upd_big (f : Cache -> Cache) : M unit :=
  fun s => (inr tt, mkSt (f (bigshareCompanyIdCache s)) (mufgCompanyIdCache s)
                         (purvaCompanyIdCache s) (requests s)).
Definition upd_mufg (f : Cache -> Cache) : M unit :=
  fun s => (inr tt, mkSt (bigshareCompanyIdCache s) (f (mufgCompanyIdCache s))
                         (purvaCompanyIdCache s) (requests s)).
Definition upd_purva (f : Cache -> Cache) : M unit :=
  fun s => (inr tt, mkSt (bigshareCompanyIdCache s) (mufgCompanyIdCache s)
                         (f (purvaCompanyIdCache s)) (requests s)).

(* ------------------------------------------------------------------ *)
(** ** Upstream responses *)

(** An [<option>] element: its text and its [value] attribute ([None] when
    the attribute is absent). *)
Record SelectOption := mkOption { opt_text : string; opt_value : option string }.

(** The body of the MUFG [GetDetails] response: no [data.d]; a [d] that is
    not a string (so [xmlData.replace] throws); or the [<Table>] elements of
    the decoded XML, each as its [companyname] and [company_id] texts. *)
Inductive MufgListing :=
| MLNoD
| MLNotString
| MLXml (tables : list (string * string)).

(** [parsed.d] of the BigShare [FetchIpodetails] response. *)
Record BigshareD := mkBigshareD {
  APPLICATION_NO : option string;
  DPID : option string;
  ALLOTED : option string
}.

(** KFintech: [response.data]. *)
Record KfinRecord := mkKfinRecord { k_allotted : option Z; k_status : option string }.
Inductive KfinData :=
| KNotObject
| KObject (top_status : option string) (top_allotted : option Z)
          (inner : option KfinRecord) (err : option string).

(** MUFG [SearchOnPan]: no [parsed.d], or the [ALLOT] texts of the [<Table>]
    elements of [d] together with the [Msg] text of its [<Table1>] elements
    ([None] when there is no [<Table1>]). *)
Inductive MufgSearch :=
| SNoD
| SD (allot_texts : list string) (table1_msg : option string).

(** Cameo: the form page, and the answer to a submission.  A table row is
    given by the texts of its [th, td] cells and of its [td] cells; a
    document by the rows of its tables and the trimmed text of the
    [#divgrid1, .table-responsive, .result] elements. *)
Record CameoPage := mkCameoPage {
  viewState : option string;
  viewStateGenerator : option string;
  eventValidation : option string;
  drpCompany : list SelectOption
}.
Record CameoRow := mkCameoRow { th_td_texts : list string; td_texts : list string }.
Record CameoDom := mkCameoDom { tables : list (list CameoRow); result_div : string }.
Inductive CameoAnswer :=
| CNotString
| CHtml (raw : string) (dom : CameoDom).

(** The upstream sites as seen by one request: for every outbound request,
    the error it is rejected with ([inl]) or the response ([inr]).  The
    random captcha guess of each Cameo endpoint is part of it. *)
Record Env := mkEnv {
  now : Z;
  random_captcha : string -> string;
  bigshare_listing : string -> Exn + list (list SelectOption);
  mufg_listing : Exn + MufgListing;
  purva_listing : Exn + list SelectOption;
  bigshare_post : Exn + option BigshareD;
  kfintech_get : Exn + KfinData;
  mufg_token : Exn + option string;
  mufg_search : Exn + MufgSearch;
  purva_form : Exn + option string;
  purva_post : Exn + option (list (list string));
  cameo_get : string -> Exn + CameoPage;
  cameo_post : string -> list (string * string) -> Exn + CameoAnswer;
  html_get : string -> Exn + string;
  legacy_post : string -> Exn + option string
}.

(* ------------------------------------------------------------------ *)
(** ** Identifier resolvers *)

Module Resolver.

(** The matching ladder of the BigShare dropdown scan. *)
Definition exact_match (optionText searchName : string) : bool :=
  String.eqb optionText searchName.

Definition partial_match (optionText searchName : string) : bool :=
  (includes optionText searchName || includes searchName optionText)%bool.

Definition fuzzy_match (optionText searchName : string) : bool :=
  let cleanOptionText := trim (strip_stop_words optionText) in
  let cleanSearchName := trim (strip_stop_words searchName) in
  (includes cleanOptionText cleanSearchName
   || includes cleanSearchName cleanOptionText)%bool.

Definition long_words (s : string) : list string :=
  filter (fun w => Nat.ltb 2 (String.length w)) (split_ws s).

Definition word_match (optionText searchName : string) : bool :=
  let optionWords := long_words (trim (strip_stop_words optionText)) in
  let searchWords := long_words (trim (strip_stop_words searchName)) in
  let matchingWords :=
    List.length (filter (fun sw => existsb (fun ow =>
                   (includes ow sw || includes sw ow)%bool) optionWords)
                 searchWords) in
  (* searchWords.length > 0 && matchingWords / searchWords.length >= 0.5 *)
  (Nat.ltb 0 (List.length searchWords)
   && Nat.leb (List.length searchWords) (2 * matchingWords))%bool.

Definition ladder (optionText searchName : string) : bool :=
  (exact_match optionText searchName || partial_match optionText searchName
   || fuzzy_match optionText searchName || word_match optionText searchName)%bool.

(** One call of the [companyOptions.each] callback: [true] breaks the loop
    with a match. *)
Definition bigshare_option_matches (searchName : string) (o : SelectOption) : bool :=
  let optionText := toLowerCase (trim (opt_text o)) in
  match opt_value o with
  | None => false
  | Some optionValue =>
      if (String.eqb optionValue "" || String.eqb optionValue "0"
          || includes optionText "select")%bool
      then false
      else ladder optionText searchName
  end.

Fixpoint find_value (p : SelectOption -> bool) (opts : list SelectOption)
  : option string :=
  match opts with
  | [] => None
  | o :: r => if p o then opt_value o else find_value p r
  end.

(** The loop over the five selectors: the first non-empty selector result
    with a matching option decides. *)
Fixpoint scan_selectors (searchName : string) (sels : list (list SelectOption))
  : option string :=
  match sels with
  | [] => None
  | [] :: r => scan_selectors searchName r
  | opts :: r =>
      match find_value (bigshare_option_matches searchName) opts with
      | Some v => Some v
      | None => scan_selectors searchName r
      end
  end.

Definition bigshare_urls : list string :=
  ["https://ipo.bigshareonline.com/"; "https://ipo.bigshareonline.com/Default.aspx"].

(** The [for (const url of urlsToTry)] loop and the negative caching after
    it.  (The second [if (companyId)] block after the selector loop is
    unreachable: a match returns inside the loop.) *)
Fixpoint bigshare_try (env : Env) (ipoName cacheKey : string) (urls : list string)
  : M (option string) :=
  match urls with
  | [] =>
      upd_big (fun c => set c cacheKey (mkEntry None (now env))) ;;;
      upd_big (cleanup (now env)) ;;;
      ret None
  | url :: rest =>
      r <- try_catch
             (page <- http url (bigshare_listing env url) ;;
              match scan_selectors (trim (toLowerCase ipoName)) page with
              | Some companyId =>
                  upd_big (fun c => set c cacheKey (mkEntry (Some companyId) (now env))) ;;;
                  upd_big (cleanup (now env)) ;;;
                  ret (Some companyId)
              | None => ret None
              end)
             (fun _ => ret None) ;;
      match r with
      | Some companyId => ret (Some companyId)
      | None => bigshare_try env ipoName cacheKey rest
      end
  end.

(** [cached && (Date.now() - cached.timestamp) < CACHE_DURATION] *)
Definition fresh (env : Env) (e : option CacheEntry) : option CacheEntry :=
  match e with
  | Some cached => if now env - timestamp cached <? CACHE_DURATION then Some cached else None
  | None => None
  end.

Definition getBigshareCompanyId (env : Env) (ipoName : string) : M (option string) :=
  let cacheKey := trim (toLowerCase ipoName) in
  s <- get_st ;;
  match fresh env (get (bigshareCompanyIdCache s) cacheKey) with
  | Some cached => ret (id cached)
  | None => bigshare_try env ipoName cacheKey bigshare_urls
  end.

Definition mufg_companies_url : string :=
  "https://in.mpms.mufg.com/Initial_Offer/IPO.aspx/GetDetails".

Definition mufg_company_matches (searchName : string) (t : string * string) : bool :=
  let (companyName, companyIdText) := t in
  let companyNameLower := trim (toLowerCase companyName) in
  (* Skip empty entries *)
  if (String.eqb companyName "" || String.eqb companyIdText "")%bool then false
  else
    let normalizedSearch := keep_alnum searchName in
    let normalizedCompany := keep_alnum companyNameLower in
    (includes companyNameLower searchName || includes searchName companyNameLower
     || includes normalizedCompany normalizedSearch
     || includes normalizedSearch normalizedCompany
     || includes (toLowerCase companyName) searchName)%bool.

Definition getMufgCompanyId (env : Env) (ipoName : string) : M (option string) :=
  let cacheKey := trim (toLowerCase ipoName) in
  s <- get_st ;;
  match fresh env (get (mufgCompanyIdCache s) cacheKey) with
  | Some cached => ret (id cached)
  | None =>
      r <- try_catch
             (resp <- http mufg_companies_url (mufg_listing env) ;;
              match resp with
              | MLNoD => ret None
              | MLNotString => throw (mkExn "xmlData.replace is not a function" None)
              | MLXml tables =>
                  match find (mufg_company_matches (trim (toLowerCase ipoName))) tables with
                  | Some (_, companyId) =>
                      upd_mufg (fun c => set c cacheKey (mkEntry (Some companyId) (now env))) ;;;
                      upd_mufg (cleanup (now env)) ;;;
                      ret (Some companyId)
                  | None => ret None
                  end
              end)
             (fun _ => ret None) ;;
      match r with
      | Some companyId => ret (Some companyId)
      | None =>
          upd_mufg (fun c => set c cacheKey (mkEntry None (now env))) ;;;
          upd_mufg (cleanup (now env)) ;;;
          ret None
      end
  end.

Definition purva_url : string := "https://www.purvashare.com/investor-service/ipo-query".

(** [optionValue && optionText.toLowerCase().includes(ipoName.toLowerCase())] *)
Definition purva_option_matches (ipoName : string) (o : SelectOption) : bool :=
  match opt_value o with
  | None => false
  | Some optionValue =>
      (negb (String.eqb optionValue "")
       && includes (toLowerCase (trim (opt_text o))) (toLowerCase ipoName))%bool
  end.

Definition getPurvaCompanyId (env : Env) (ipoName : string) : M (option string) :=
  let cacheKey := trim (toLowerCase ipoName) in
  s <- get_st ;;
  match fresh env (get (purvaCompanyIdCache s) cacheKey) with
  | Some cached => ret (id cached)
  | None =>
      r <- try_catch
             (companyOptions <- http purva_url (purva_listing env) ;;
              match find_value (purva_option_matches ipoName) companyOptions with
              | Some optionValue =>
                  upd_purva (fun c => set c cacheKey (mkEntry (Some optionValue) (now env))) ;;;
                  upd_purva (cleanup (now env)) ;;;
                  ret (Some optionValue)
              | None => ret None
              end)
             (fun _ => ret None) ;;
      match r with
      | Some v => ret (Some v)
      | None =>
          upd_purva (fun c => set c cacheKey (mkEntry None (now env))) ;;;
          upd_purva (cleanup (now env)) ;;;
          ret None
      end
  end.

End Resolver.

(* ------------------------------------------------------------------ *)
(** ** [parseInt] without a radix *)

Module JsNumber.

Definition digit_value (c : ascii) : option Z :=
  let n := Z.of_nat (nat_of_ascii c) in
  if is_digit c then Some (n - 48)
  else if (Nat.leb 97 (nat_of_ascii c) && Nat.leb (nat_of_ascii c) 122)%bool then Some (n - 87)
  else if is_upper c then Some (n - 55)
  else None.

(** The longest prefix of digits below [radix], read in that radix. *)
Fixpoint read_digits (radix : Z) (acc : option Z) (l : list ascii) : option Z :=
  match l with
  | [] => acc
  | c :: r =>
      match digit_value c with
      | Some d =>
          if d <? radix
          then read_digits radix (Some (match acc with Some a => a | None => 0 end * radix + d)) r
          else acc
      | None => acc
      end
  end.

(** [parseInt(s)]; [None] is [NaN]. *)
Definition parseInt (s : string) : option Z :=
  let l := drop_spaces (list_ascii_of_string s) in
  let '(sign, l1) :=
    match l with
    | "-"%char :: r => (-1, r)
    | "+"%char :: r => (1, r)
    | _ => (1, l)
    end in
  let '(radix, l2) :=
    match l1 with
    | "0"%char :: x :: r =>
        if (Ascii.eqb x "x"%char || Ascii.eqb x "X"%char)%bool then (16, r) else (10, l1)
    | _ => (10, l1)
    end in
  match read_digits radix None l2 with
  | Some v => Some (sign * v)
  | None => None
  end.

(** [parseInt(s) > 0] *)
Definition parseInt_positive (s : string) : bool :=
  match parseInt s with Some v => 0 <? v | None => false end.

(** [parseInt(s) || 0] *)
Definition parseInt_or_zero (s : string) : Z :=
  match parseInt s with Some v => v | None => 0 end.

End JsNumber.

Import JsNumber.

(* ------------------------------------------------------------------ *)
(** ** Results and requests *)

(** [IPOAllotmentResponse] ([raw] and [allotmentDetails] are not modelled). *)
Record Response := mkResp {
  success : bool;
  registrar : string;
  status : string;
  error : option string;
  details : option string
}.

(** [IPOAllotmentRequest] *)
Record AllotmentRequest := mkReq { panNo : string; ipoName : string }.

(** JavaScript truthiness of an optional string. *)
Definition truthy (o : option string) : bool :=
  match o with Some v => negb (String.eqb v "") | None => false end.

Module Checkers.
Import Resolver.

(** *** Bigshare *)

Definition bigshare_status (parsed : option BigshareD) : string :=
  match parsed with
  | None => "unknown"
  | Some data =>
      if (truthy (APPLICATION_NO data)
          && negb (match DPID data with Some d => String.eqb d "No data found" | None => false end))%bool
      then
        let allotedValue := match ALLOTED data with Some a => a | None => "" end in
        if (includes (toLowerCase allotedValue) "allot"
            && negb (includes (toLowerCase allotedValue) "non"))%bool then "Allotted"
        else if (includes (toLowerCase allotedValue) "non-allot"
                 || includes (toLowerCase allotedValue) "not allot")%bool then "Not Allotted"
        else "Pending"
      else "No Record Found"
  end.

Definition bigshare_url : string := "https://ipo.bigshareonline.com/Data.aspx/FetchIpodetails".

Definition checkBigshare (env : Env) (req : AllotmentRequest) : M Response :=
  companyCode <-
    (if negb (is_numeric (ipoName req)) then
       scrapedCompanyId <- getBigshareCompanyId env (ipoName req) ;;
       ret (match scrapedCompanyId with
            | Some c => if truthy (Some c) then c else ipoName req
            | None => ipoName req
            end)
     else ret (ipoName req)) ;;
  try_catch
    (parsed <- http_with bigshare_url
                 [("Company", companyCode); ("SelectionType", "PN"); ("PanNo", panNo req)]
                 (bigshare_post env) ;;
     ret (mkResp true "bigshare" (bigshare_status parsed) None
            (if String.eqb companyCode (ipoName req) then None
             else Some ("Used company ID: " ++ companyCode))))
    (fun e => ret (mkResp false "bigshare" "error" (Some (message e)) None)).

(** *** KFintech *)

Definition kfintech_status (data : KfinData) : string :=
  match data with
  | KNotObject => "No Record Found"
  | KObject top_status top_allotted inner _ =>
      if (match top_status with Some st => String.eqb st "success" | None => false end
          || match inner with Some _ => true | None => false end)%bool
      then
        let d := match inner with Some r => r | None => mkKfinRecord top_allotted top_status end in
        if match k_allotted d with Some n => 0 <? n | None => false end then "Allotted"
        else if (match k_allotted d with Some n => n =? 0 | None => false end
                 || match k_status d with Some st => String.eqb st "not_allotted" | None => false end)%bool
        then "Not Allotted"
        else "No Record Found"
      else
        (* the [error] branch assigns 'No Record Found', the value it has *)
        "No Record Found"
  end.

Definition kfintech_url : string :=
  "https://0uz601ms56.execute-api.ap-south-1.amazonaws.com/prod/api/query".

Definition checkKfintech (env : Env) (req : AllotmentRequest) : M Response :=
  try_catch
    (data <- http_with kfintech_url [("type", "pan"); ("reqparam", panNo req)] (kfintech_get env) ;;
     ret (mkResp true "kfintech" (kfintech_status data) None None))
    (fun e =>
       match response_status e with
       | Some 404 =>
           ret (mkResp true "kfintech" "No Record Found" None
                  (Some "No IPO allotment record found for the provided PAN number."))
       | _ => ret (mkResp false "kfintech" "Error" (Some (message e)) None)
       end).

(** *** Link Intime and MUFG (the same code, with their own registrar name and [details] text) *)

Definition mufg_status (parsed : MufgSearch) : string :=
  match parsed with
  | SNoD => "unknown"
  | SD (allotted :: _) _ =>
      if (negb (String.eqb allotted "") && parseInt_positive allotted)%bool then "Allotted"
      else if (String.eqb allotted "0" || String.eqb allotted "")%bool then "Not Allotted"
      else "Pending"
  | SD [] (Some errorMsg) => if negb (String.eqb errorMsg "") then "No Record Found" else "unknown"
  | SD [] None => "No Record Found"
  end.

Definition mufg_base : string := "https://in.mpms.mufg.com".

(** The [details] of an answered search: [checkLinkIntime] and [checkMufg]
    differ in this text. *)
Definition mufg_like_details (name companyId ipoName : string) : option string :=
  if String.eqb name "linkintime" then
    Some (if String.eqb companyId ipoName then "Using MUFG system"
          else "Used company ID: " ++ companyId ++ " (via MUFG system)")
  else if String.eqb companyId ipoName then None
  else Some ("Used company ID: " ++ companyId).

Definition checkMufgLike (name : string) (env : Env) (req : AllotmentRequest) : M Response :=
  try_catch
    (companyId0 <- getMufgCompanyId env (ipoName req) ;;
     (* If no company ID found and ipoName is numeric, use it directly *)
     let companyId :=
       if negb (truthy companyId0) && is_numeric (ipoName req) then Some (ipoName req)
       else companyId0 in
     match companyId with
     | Some cid =>
       if negb (truthy (Some cid)) then
         ret (mkResp false name "error" (Some ("No company found for IPO name: " ++ ipoName req)) None)
       else
       token <- try_catch
                  (t <- http (mufg_base ++ "/Initial_Offer/IPO.aspx/generateToken") (mufg_token env) ;;
                   ret (match t with Some x => x | None => "" end))
                  (fun _ => ret "") ;;
       parsed <- http_with (mufg_base ++ "/Initial_Offer/IPO.aspx/SearchOnPan")
                   [("clientid", cid); ("PAN", panNo req); ("IFSC", ""); ("CHKVAL", "1");
                    ("token", token)]
                   (mufg_search env) ;;
       ret (mkResp true name (mufg_status parsed) None (mufg_like_details name cid (ipoName req)))
     | None =>
         ret (mkResp false name "error" (Some ("No company found for IPO name: " ++ ipoName req)) None)
     end)
    (fun e => ret (mkResp false name "error" (Some (message e)) None)).

Definition checkLinkIntime : Env -> AllotmentRequest -> M Response := checkMufgLike "linkintime".
Definition checkMufg : Env -> AllotmentRequest -> M Response := checkMufgLike "mufg".

(** *** Purva *)

(** The classification of the first [<table>] of the answer, given by the
    [td] texts of its rows ([None]: no table). *)
Definition purva_classify (table : option (list (list string))) : string :=
  match table with
  | None => "No Record Found"
  | Some rows =>
      if Nat.leb (List.length rows) 1 then "No Record Found"
      else
        let dataRows := tl rows in
        let '(hasAllottedShares, totalAllottedShares) :=
          fold_left
            (fun '(has, total) cells =>
               if Nat.leb 6 (List.length cells) then
                 let sharesAllotted := parseInt_or_zero (trim (nth 5 cells "")) in
                 if 0 <? sharesAllotted then (true, total + sharesAllotted) else (has, total)
               else (has, total))
            dataRows (false, 0) in
        if (hasAllottedShares && (0 <? totalAllottedShares))%bool then "Allotted"
        else "Not Allotted"
  end.

Definition checkPurva (env : Env) (req : AllotmentRequest) : M Response :=
  try_catch
    (csrfToken <- http purva_url (purva_form env) ;;
     if negb (truthy csrfToken) then
       ret (mkResp false "purva" "error"
              (Some "Could not extract CSRF token from Purva website") None)
     else
       companyId <-
         (if negb (is_numeric (ipoName req)) then
            scrapedCompanyId <- getPurvaCompanyId env (ipoName req) ;;
            ret (match scrapedCompanyId with
                 | Some c => if truthy (Some c) then c else "78"
                 | None => "78"  (* Default fallback *)
                 end)
          else ret (ipoName req)) ;;
       table <- http_with purva_url
                  [("csrfmiddlewaretoken", match csrfToken with Some t => t | None => "" end);
                   ("company_id", companyId); ("applicationNumber", "");
                   ("panNumber", panNo req); ("submit", "Search")]
                  (purva_post env) ;;
       ret (mkResp true "purva" (purva_classify table) None None))
    (fun e => ret (mkResp false "purva" "error" (Some (message e)) None)).

(** *** Cameo *)

(** A plain JavaScript object used as a dictionary: its own properties in
    insertion order. *)
Definition JsObject := list (string * string).

(** Array-index keys: the canonical decimal form of an integer below
    [2^32 - 1]. *)
Definition is_array_index (k : string) : bool :=
  match list_ascii_of_string k with
  | [] => false
  | ["0"%char] => true
  | c :: _ =>
      (negb (Ascii.eqb c "0"%char) && is_numeric k
       && (match parseInt k with Some v => v <? 4294967295 | None => false end))%bool
  end.

Fixpoint insert_index (x : string * string) (l : JsObject) : JsObject :=
  match l with
  | [] => [x]
  | y :: r =>
      if parseInt_or_zero (fst x) <? parseInt_or_zero (fst y) then x :: l
      else y :: insert_index x r
  end.

(** [Object.entries(o)]: array-index keys in increasing order, then the
    other keys in insertion order. *)
Definition obj_entries (o : JsObject) : JsObject :=
  (fold_right insert_index [] (filter (fun p => is_array_index (fst p)) o)
   ++ filter (fun p => negb (is_array_index (fst p))) o)%list.

(** [o[k] = v]: a new key is appended, an existing one keeps its place;
    assigning a string to [__proto__] does not create a property. *)
Fixpoint obj_assign (o : JsObject) (k v : string) : JsObject :=
  if String.eqb k "__proto__" then o else
  match o with
  | [] => [(k, v)]
  | (k', v') :: r => if String.eqb k k' then (k', v) :: r else (k', v') :: obj_assign r k v
  end.

Definition object_prototype_methods : list string :=
  ["constructor"; "__defineGetter__"; "__defineSetter__"; "hasOwnProperty";
   "__lookupGetter__"; "__lookupSetter__"; "isPrototypeOf";
   "propertyIsEnumerable"; "toString"; "valueOf"; "toLocaleString"].

(** [o[k]], as the string it becomes when appended to a form: an own
    property, else an inherited one of [Object.prototype]. *)
Definition obj_lookup (o : JsObject) (k : string) : option string :=
  match find (fun p => String.eqb (fst p) k) o with
  | Some (_, v) => Some v
  | None =>
      if String.eqb k "__proto__" then Some "[object Object]"
      else if String.eqb k "constructor" then Some "function Object() { [native code] }"
      else if existsb (String.eqb k) object_prototype_methods
      then Some ("function " ++ k ++ "() { [native code] }")
      else None
  end.

(** The [drpCompany] options as the [companies] object. *)
Definition build_companies (opts : list SelectOption) : JsObject :=
  fold_left
    (fun companies o =>
       let text := trim (opt_text o) in
       match opt_value o with
       | Some value =>
           if (negb (String.eqb value "") && negb (String.eqb value "0")
               && negb (String.eqb text ""))%bool
           then obj_assign companies (toLowerCase text) value
           else companies
       | None => companies
       end)
    opts [].

(** The company code chosen before the fallback: exact key, then the first
    entry whose key and the lower-cased name contain one another; [""]
    when none. *)
Definition cameo_company_code (companies : JsObject) (ipoName : string) : string :=
  let ipoNameLower := toLowerCase ipoName in
  match obj_lookup companies ipoNameLower with
  | Some code => if truthy (Some code) then code else ""
  | None =>
      match find (fun '(companyName, _) =>
                    (includes companyName ipoNameLower
                     || includes ipoNameLower companyName)%bool)
                 (obj_entries companies) with
      | Some (_, code) => code
      | None => ""
      end
  end.

(** [Object.values(companies)[0]] *)
Definition first_company (companies : JsObject) : option string :=
  match obj_entries companies with
  | (_, v) :: _ => Some v
  | [] => None
  end.

Definition cameo_endpoint_urls : list string :=
  ["https://ipostatus1.cameoindia.com/"; "https://ipostatus2.cameoindia.com/";
   "https://ipostatus3.cameoindia.com/"].

Definition captchaStrategies (env : Env) (endpoint : string) : list string :=
  ["596407"; "123456"; "000000"; random_captcha env endpoint; ""].

Definition captcha_marker : string := "showpop6('Oops!..Please enter the Captcha')".

Definition or_undefined (o : option string) : string :=
  match o with Some v => v | None => "undefined" end.

Definition cameo_form (page : CameoPage) (companyCode panNo captchaValue : string)
  : list (string * string) :=
  [("ScriptManager1", "OrdersPanel|btngenerate"); ("__EVENTTARGET", "");
   ("__EVENTARGUMENT", ""); ("drpCompany", companyCode); ("ddlUserTypes", "PAN NO");
   ("txtfolio", panNo); ("txt_phy_captcha", captchaValue);
   ("__VIEWSTATE", or_undefined (viewState page));
   ("__VIEWSTATEGENERATOR", or_undefined (viewStateGenerator page));
   ("__EVENTVALIDATION", or_undefined (eventValidation page));
   ("__ASYNCPOST", "true"); ("btngenerate", "Submit")].

Definition expected_header (h : string) : bool :=
  (includes h "HOLD_ID" || includes h "ALLOTTED_SHARES" || includes h "REFUND_AMOUNT"
   || includes h "REFUND_MODE" || includes h "PAN_NO")%bool.

Definition cameo_row_status (allotmentStatus : string) (row : CameoRow) : string :=
  let cellTexts := td_texts row in
  if Nat.ltb 0 (List.length cellTexts) then
    if existsb (fun text => (includes text "NO DATA FOUND" || includes text "NO RECORD FOUND"
                             || includes text "NO DATA FOUND FOR THIS SEARCH")%bool) cellTexts
    then "No Record Found"
    else if (Nat.leb 4 (List.length cellTexts) && truthy (Some (nth 0 cellTexts "")))%bool
    then
      let c1 := nth 1 cellTexts "" in
      if (truthy (Some c1) && negb (String.eqb c1 "0"))%bool then "Allotted" else "Not Allotted"
    else allotmentStatus
  else allotmentStatus.

Definition cameo_table_status (allotmentStatus : string) (rows : list CameoRow) : string :=
  match rows with
  | [] => allotmentStatus
  | headerRow :: dataRows =>
      let headers := th_td_texts headerRow in
      if (existsb expected_header headers || Nat.leb 4 (List.length headers))%bool
      then fold_left cameo_row_status dataRows allotmentStatus
      else allotmentStatus
  end.

(** The status read from an answer (the test of the content for
    'NO DATA FOUND' assigns 'No Record Found', the value it already has). *)
Definition cameo_status (dom : CameoDom) : string :=
  let s1 := fold_left cameo_table_status (tables dom) "No Record Found" in
  let resultText := result_div dom in
  if negb (String.eqb resultText "") then
    if (includes (toLowerCase resultText) "no data found"
        || includes (toLowerCase resultText) "no record found")%bool then "No Record Found"
    else if includes (toLowerCase resultText) "allot" then
      (if includes resultText "not" then "Not Allotted" else "Allotted")
    else s1
  else s1.

(** The [for (const captchaValue of captchaStrategies)] loop. *)
Fixpoint cameo_submit (env : Env) (req : AllotmentRequest) (endpoint : string)
  (page : CameoPage) (companyCode : string) (captchas : list string) : M Response :=
  match captchas with
  | [] =>
      ret (mkResp false "cameo" "captcha_required"
             (Some "All captcha strategies failed. Captcha verification is required for Cameo IPO allotment checking.")
             None)
  | captchaValue :: rest =>
      let formData := cameo_form page companyCode (panNo req) captchaValue in
      r <- try_catch
             (answer <- http_with endpoint formData (cameo_post env endpoint formData) ;;
              match answer with
              | CNotString => throw (mkExn "responseHtml.substring is not a function" None)
              | CHtml responseHtml dom =>
                  if includes responseHtml captcha_marker then ret None
                  else ret (Some (mkResp true "cameo" (cameo_status dom) None
                                    (Some ("Used company code: " ++ companyCode ++ ", captcha: "
                                           ++ (if String.eqb captchaValue "" then "empty"
                                               else captchaValue)))))
              end)
             (fun _ => ret None) ;;
      match r with
      | Some resp => ret resp
      | None => cameo_submit env req endpoint page companyCode rest
      end
  end.

(** One iteration of [for (const endpoint of endpoints)]; [None] continues
    with the next endpoint. *)
Definition cameo_endpoint (env : Env) (req : AllotmentRequest) (endpoint : string)
  : M (option Response) :=
  page <- http endpoint (cameo_get env endpoint) ;;
  if negb (truthy (viewState page)) then ret None
  else
    let companies := build_companies (drpCompany page) in
    let companyCode := cameo_company_code companies (ipoName req) in
    let chosen :=
      if truthy (Some companyCode) then Some companyCode
      else match first_company companies with
           | Some firstCompany => if truthy (Some firstCompany) then Some firstCompany else None
           | None => None
           end in
    match chosen with
    | None => ret None
    | Some code =>
        resp <- cameo_submit env req endpoint page code (captchaStrategies env endpoint) ;;
        ret (Some resp)
    end.

Fixpoint cameo_loop (env : Env) (req : AllotmentRequest) (endpoints : list string)
  : M Response :=
  match endpoints with
  | [] => ret (mkResp false "cameo" "error" (Some "All Cameo endpoints are unavailable") None)
  | endpoint :: rest =>
      r <- try_catch (cameo_endpoint env req endpoint) (fun _ => ret None) ;;
      match r with
      | Some resp => ret resp
      | None => cameo_loop env req rest
      end
  end.

Definition checkCameo (env : Env) (req : AllotmentRequest) : M Response :=
  cameo_loop env req cameo_endpoint_urls.

End Checkers.

(* ------------------------------------------------------------------ *)
(** ** Registrars and the dispatcher *)

Module Dispatcher.
Import Checkers.

Inductive RegistrarType :=
| bigshare | kfintech | linkintime | skyline | cameo
| mas | maashitla | beetal | purva | mufg.

Definition registrar_name (r : RegistrarType) : string :=
  match r with
  | bigshare => "bigshare" | kfintech => "kfintech" | linkintime => "linkintime"
  | skyline => "skyline" | cameo => "cameo" | mas => "mas"
  | maashitla => "maashitla" | beetal => "beetal" | purva => "purva" | mufg => "mufg"
  end.

Record RegistrarConfig := mkConfig {
  cfg_name : string;
  baseUrl : string;
  cfg_method : string;
  endpoint : string;
  requiresCompanyCode : bool;
  responseType : string
}.

Definition registrarConfigs (r : RegistrarType) : RegistrarConfig :=
  match r with
  | bigshare => mkConfig "Bigshare Services" "https://ipo.bigshareonline.com" "POST" "/Data.aspx/FetchIpodetails" true "json"
  | kfintech => mkConfig "KFintech" "https://ipostatus.kfintech.com" "GET" "/api/query" false "json"
  | linkintime => mkConfig "Link Intime (now MUFG Intime India Private Limited)" "https://in.mpms.mufg.com" "POST" "/Initial_Offer/IPO.aspx/SearchOnPan" true "json"
  | skyline => mkConfig "Skyline Financial Services" "https://www.skylinerta.com" "GET" "/ipo.php" false "html"
  | cameo => mkConfig "Cameo Corporate Services" "https://ipo.cameoindia.com" "POST" "/" false "html"
  | mas => mkConfig "MAS Services" "https://maservices.biz" "GET" "/ApplicationStatus.aspx" false "html"
  | maashitla => mkConfig "Maashitla Securities" "https://www.maashitla.com" "GET" "/PublicIssues/Search" false "html"
  | beetal => mkConfig "Beetal Financial & Computer Services" "https://www.beetalfinancial.com" "GET" "/" false "html"
  | purva => mkConfig "Purva Sharegistry" "https://www.purvashare.com" "POST" "/investor-service/ipo-query" false "html"
  | mufg => mkConfig "MUFG Intime India Private Limited" "https://in.mpms.mufg.com" "POST" "/Initial_Offer/IPO.aspx/SearchOnPan" true "json"
  end.

Definition hex_digit (n : nat) : string :=
  String (ascii_of_nat (if Nat.ltb n 10 then 48 + n else 55 + n)) EmptyString.

(** The percent-encoding of [encodeURIComponent]: the unreserved
    characters are kept, every other byte of the UTF-8 encoding becomes
    [%XX]. *)
Definition encode_bytes (s : string) : string :=
  fold_right
    (fun c acc =>
       if (is_word c && negb (Ascii.eqb c "_"%char))%bool
          || existsb (Ascii.eqb c) ["-"; "_"; "."; "!"; "~"; "*"; "'"; "("; ")"]%char
       then String c acc
       else "%" ++ hex_digit (Nat.div (nat_of_ascii c) 16)
                ++ hex_digit (Nat.modulo (nat_of_ascii c) 16) ++ acc)
    "" (list_ascii_of_string s).

(** A lone surrogate: a lead byte ED followed by a byte of A0..BF. *)
Fixpoint has_lone_surrogate (l : list ascii) : bool :=
  match l with
  | a :: ((b :: _) as r) =>
      ((Nat.eqb (nat_of_ascii a) 237 && Nat.leb 160 (nat_of_ascii b)
        && Nat.leb (nat_of_ascii b) 191)
       || has_lone_surrogate r)%bool
  | _ => false
  end.

Definition uri_malformed : Exn := mkExn "URI malformed" None.

(** [encodeURIComponent(s)]: throws [URIError: URI malformed] on a lone
    surrogate. *)
Definition encodeURIComponent (s : string) : Exn + string :=
  if has_lone_surrogate (list_ascii_of_string s) then inl uri_malformed
  else inr (encode_bytes s).

(** Generic HTML-based checker for other registrars. *)
Definition checkHtmlRegistrar (registrar : RegistrarType) (env : Env) (req : AllotmentRequest)
  : M Response :=
  let config := registrarConfigs registrar in
  let url0 := baseUrl config ++ endpoint config in
  (* the query string is built before the [try] *)
  url <- match registrar with
         | maashitla =>
             match encodeURIComponent (ipoName req) with
             | inl e => throw e
             | inr company =>
                 match encodeURIComponent (panNo req) with
                 | inl e => throw e
                 | inr search => ret (url0 ++ "?company=" ++ company ++ "&search=" ++ search)
                 end
             end
         | _ => ret url0
         end ;;
  try_catch
    (html <- http url (html_get env url) ;;
     ret (mkResp true (registrar_name registrar) "parse_needed" None None))
    (fun e => ret (mkResp false (registrar_name registrar) "error" (Some (message e)) None)).

Definition Checker := Env -> AllotmentRequest -> M Response.

(** [registrarCheckers], in the order of its keys. *)
Definition registrarCheckers : list (RegistrarType * Checker) :=
  [(bigshare, checkBigshare); (kfintech, checkKfintech); (linkintime, checkLinkIntime);
   (skyline, checkHtmlRegistrar skyline); (cameo, checkCameo);
   (mas, checkHtmlRegistrar mas); (maashitla, checkHtmlRegistrar maashitla);
   (beetal, checkHtmlRegistrar beetal); (purva, checkPurva); (mufg, checkMufg)].

Definition registrar_eqb (a b : RegistrarType) : bool :=
  String.eqb (registrar_name a) (registrar_name b).

(** [IPOAllotmentService.checkRegistrar] *)
Definition checkRegistrar (registrar : RegistrarType) (env : Env) (req : AllotmentRequest)
  : M Response :=
  match find (fun p => registrar_eqb (fst p) registrar) registrarCheckers with
  | Some (_, checker) => checker env req
  | None =>
      ret (mkResp false (registrar_name registrar) "error"
             (Some ("Unknown registrar: " ++ registrar_name registrar)) None)
  end.

(** The loop of [checkAllRegistrars] over a checker table. *)
Fixpoint check_all_loop (table : list (RegistrarType * Checker)) (env : Env)
  (req : AllotmentRequest) : M (list Response) :=
  match table with
  | [] => ret []
  | (registrar, checker) :: rest =>
      result <- try_catch (checker env req)
                  (fun e => ret (mkResp false (registrar_name registrar) "error"
                                  (Some (message e)) None)) ;;
      results <- check_all_loop rest env req ;;
      ret (result :: results)
  end.

(** [IPOAllotmentService.checkAllRegistrars] *)
Definition checkAllRegistrars (env : Env) (req : AllotmentRequest) : M (list Response) :=
  check_all_loop registrarCheckers env req.

End Dispatcher.

(** The KFintech checker of src/src/services/ipoAllotmentService.ts, which
    reports [parsed?.status || 'check_raw'].  The environment gives the
    [status] field of the parsed body ([None]: absent or falsy). *)
Module LegacyService.

Definition legacy_kfintech_url : string :=
  "https://ris.kfintech.com/ipostatus/api/ipoapplicationstatus".

Definition checkKfintech (env : Env) (req : AllotmentRequest) : M Response :=
  try_catch
    (parsedStatus <- http_with legacy_kfintech_url
                       [("PAN", panNo req); ("IPOName", ipoName req)]
                       (legacy_post env legacy_kfintech_url) ;;
     ret (mkResp true "kfintech"
            (match parsedStatus with
             | Some st => if String.eqb st "" then "check_raw" else st
             | None => "check_raw"
             end) None None))
    (fun e => ret (mkResp false "kfintech" "error" (Some (message e)) None)).

End LegacyService.

(* ------------------------------------------------------------------ *)
(** ** The dispatcher of src/src/services/ipoAllotmentService.ts

    The controller imports this file.  Its [cleanupCache], resolvers,
    [checkBigshare], [checkMufg] and [checkHtmlRegistrar] are the text of
    part_002; its configuration table, its [checkKfintech] (above),
    [checkLinkIntime] and its checker table differ. *)

Module ServiceFile.
Import Dispatcher.

Definition registrarConfigs (r : RegistrarType) : RegistrarConfig :=
  match r with
  | bigshare => mkConfig "Bigshare Services" "https://ipo.bigshareonline.com" "POST" "/Data.aspx/FetchIpodetails" true "json"
  | kfintech => mkConfig "KFintech" "https://ris.kfintech.com" "POST" "/ipostatus/api/ipoapplicationstatus" false "json"
  | linkintime => mkConfig "Link Intime" "https://ipoallotment.linkintime.co.in" "POST" "/public-issues/ipostatus" false "json"
  | skyline => mkConfig "Skyline Financial Services" "https://www.skylinerta.com" "GET" "/ipo.php" false "html"
  | cameo => mkConfig "Cameo Corporate Services" "https://www.cameoindia.com" "GET" "/iporesult.html" false "html"
  | mas => mkConfig "MAS Services" "https://maservices.biz" "GET" "/ApplicationStatus.aspx" false "html"
  | maashitla => mkConfig "Maashitla Securities" "https://www.maashitla.com" "GET" "/PublicIssues/Search" false "html"
  | beetal => mkConfig "Beetal Financial & Computer Services" "https://www.beetalfinancial.com" "GET" "/" false "html"
  | purva => mkConfig "Purva Sharegistry" "https://www.purvashare.com" "GET" "/results.html" false "html"
  | mufg => mkConfig "MUFG Intime India Private Limited" "https://in.mpms.mufg.com" "POST" "/Initial_Offer/IPO.aspx/SearchOnPan" true "json"
  end.

Definition linkintime_url : string :=
  "https://ipoallotment.linkintime.co.in/public-issues/ipostatus".

(** [checkLinkIntime]: [parsed?.status || 'check_raw'], the environment
    giving the [status] field of the body as for [checkKfintech]. *)
Definition checkLinkIntime (env : Env) (req : AllotmentRequest) : M Response :=
  try_catch
    (parsedStatus <- http_with linkintime_url
                       [("pan", panNo req); ("issueName", ipoName req)]
                       (legacy_post env linkintime_url) ;;
     ret (mkResp true "linkintime"
            (match parsedStatus with
             | Some st => if String.eqb st "" then "check_raw" else st
             | None => "check_raw"
             end) None None))
    (fun e => ret (mkResp false "linkintime" "error" (Some (message e)) None)).

(** [checkHtmlRegistrar], over this file's configurations. *)
Definition checkHtmlRegistrar (registrar : RegistrarType) (env : Env) (req : AllotmentRequest)
  : M Response :=
  let config := registrarConfigs registrar in
  let url0 := baseUrl config ++ endpoint config in
  (* the query string is built before the [try] *)
  url <- match registrar with
         | maashitla =>
             match encodeURIComponent (ipoName req) with
             | inl e => throw e
             | inr company =>
                 match encodeURIComponent (panNo req) with
                 | inl e => throw e
                 | inr search => ret (url0 ++ "?company=" ++ company ++ "&search=" ++ search)
                 end
             end
         | _ => ret url0
         end ;;
  try_catch
    (html <- http url (html_get env url) ;;
     ret (mkResp true (registrar_name registrar) "parse_needed" None None))
    (fun e => ret (mkResp false (registrar_name registrar) "error" (Some (message e)) None)).

Definition registrarCheckers : list (RegistrarType * Checker) :=
  [(bigshare, Checkers.checkBigshare); (kfintech, LegacyService.checkKfintech);
   (linkintime, checkLinkIntime);
   (skyline, checkHtmlRegistrar skyline); (cameo, checkHtmlRegistrar cameo);
   (mas, checkHtmlRegistrar mas); (maashitla, checkHtmlRegistrar maashitla);
   (beetal, checkHtmlRegistrar beetal); (purva, checkHtmlRegistrar purva);
   (mufg, Checkers.checkMufg)].

(** [IPOAllotmentService.checkRegistrar] *)
Definition checkRegistrar (registrar : RegistrarType) (env : Env) (req : AllotmentRequest)
  : M Response :=
  match find (fun p => registrar_eqb (fst p) registrar) registrarCheckers with
  | Some (_, checker) => checker env req
  | None =>
      ret (mkResp false (registrar_name registrar) "error"
             (Some ("Unknown registrar: " ++ registrar_name registrar)) None)
  end.

(** [IPOAllotmentService.checkAllRegistrars]: the same loop as part_002. *)
Definition checkAllRegistrars (env : Env) (req : AllotmentRequest) : M (list Response) :=
  check_all_loop registrarCheckers env req.

End ServiceFile.

(* ------------------------------------------------------------------ *)
(** ** The cache maintenance methods of [IPOAllotmentService] *)

Module CacheAdmin.
Import IdCache.

(** One element of [entries] of [getBigshareCache()] and its siblings. *)
Record CacheStatEntry := mkStat { stat_ipoName : string; companyId : option string; age : Z }.
Record CacheStats := mkStats { size : nat; entries : list CacheStatEntry }.

(** [{ size: cache.size, entries: Array.from(cache.entries()).map(...) }] *)
Definition cache_stats (now : Z) (c : Cache) : CacheStats :=
  mkStats (List.length c)
          (map (fun '(key, value) => mkStat key (id value) (now - timestamp value)) c).

(** [clearBigshareCache] *)
Definition clearBigshareCache : M unit := upd_big (fun _ => []).
(** [cleanupBigshareCache]: [cleanupCache()] *)
Definition cleanupBigshareCache (env : Env) : M unit := upd_big (cleanup (now env)).
(** [getBigshareCache] *)
Definition getBigshareCache (env : Env) : M CacheStats :=
  s <- get_st ;; ret (cache_stats (now env) (bigshareCompanyIdCache s)).

Definition clearMufgCache : M unit := upd_mufg (fun _ => []).
Definition cleanupMufgCache (env : Env) : M unit := upd_mufg (cleanup (now env)).
Definition getMufgCache (env : Env) : M CacheStats :=
  s <- get_st ;; ret (cache_stats (now env) (mufgCompanyIdCache s)).

Definition clearPurvaCache : M unit := upd_purva (fun _ => []).
Definition cleanupPurvaCache (env : Env) : M unit := upd_purva (cleanup (now env)).
Definition getPurvaCache (env : Env) : M CacheStats :=
  s <- get_st ;; ret (cache_stats (now env) (purvaCompanyIdCache s)).

(** Entries whose [companyId] is not the empty string. *)
Definition id_nonempty (p : string * CacheEntry) : Prop := id (snd p) <> Some "".

End CacheAdmin.

(* ------------------------------------------------------------------ *)
(** ** The controller: [checkAllotmentStatus] of src/src/controllers/ipoController.ts *)

Module Controller.
Import Dispatcher.

(** [/^[A-Z]{5}[0-9]{4}[A-Z]{1}$/.test(panNo)] *)
Definition panRegex_test (panNo : string) : bool :=
  match list_ascii_of_string panNo with
  | [a1; a2; a3; a4; a5; d1; d2; d3; d4; z] =>
      (forallb is_upper [a1; a2; a3; a4; a5] && forallb is_digit [d1; d2; d3; d4]
       && is_upper z)%bool
  | _ => false
  end.

(** [panNo.substring(0, 3) + "XXXXX" + panNo.substring(8)] *)
Definition mask_pan (panNo : string) : string :=
  substring 0 3 panNo ++ "XXXXX" ++ substring 8 (String.length panNo - 8) panNo.

Definition validRegistrars : list string :=
  ["bigshare"; "kfintech"; "linkintime"; "skyline"; "cameo"; "mas"; "maashitla";
   "beetal"; "purva"; "mufg"].

Definition all_registrars : list RegistrarType :=
  [bigshare; kfintech; linkintime; skyline; cameo; mas; maashitla; beetal; purva; mufg].

(** The cast [registrar as RegistrarType] of a name of [validRegistrars]. *)
Definition as_registrar (s : string) : RegistrarType :=
  match find (fun r => String.eqb (registrar_name r) s) all_registrars with
  | Some r => r
  | None => bigshare
  end.

(** The JSON body of the reply ([checkedAt] is not modelled). *)
Inductive Body :=
| ErrorBody (error message : string)
| OneBody (data : Response) (maskedPan ipoName registrar : string)
| AllBody (data : list Response) (maskedPan ipoName : string) (totalRegistrarsChecked : nat)
| FailureBody (error message details : string).

Record Reply := mkReply { http_status : Z; body : Body }.

(** The handler, on the fields [panNo], [ipoName] and [registrar] of the
    request body, read as strings ([None]: absent, null or undefined).
    [req.body] is untyped; a field of another type (an array, a number) is
    outside this model. *)
Definition checkAllotmentStatus (env : Env) (panNo ipoName registrar : option string)
  : M Reply :=
  try_catch
    (match panNo, ipoName with
     | Some pan, Some ipo =>
         if (String.eqb pan "" || String.eqb ipo "")%bool then
           ret (mkReply 400 (ErrorBody "Missing required fields" "panNo and ipoName are required"))
         else if negb (panRegex_test pan) then
           ret (mkReply 400 (ErrorBody "Invalid PAN format" "PAN should be in format: ABCDE1234F"))
         else
           let checkAll :=
             results <- ServiceFile.checkAllRegistrars env (mkReq pan ipo) ;;
             ret (mkReply 200 (AllBody results (mask_pan pan) ipo (List.length results))) in
           match registrar with
           | Some reg =>
               if String.eqb reg "" then checkAll
               else if negb (existsb (String.eqb reg) validRegistrars) then
                 ret (mkReply 400 (ErrorBody "Invalid registrar"
                        ("Registrar must be one of: " ++ String.concat ", " validRegistrars)))
               else
                 result <- ServiceFile.checkRegistrar (as_registrar reg) env (mkReq pan ipo) ;;
                 ret (mkReply 200 (OneBody result (mask_pan pan) ipo reg))
           | None => checkAll
           end
     | _, _ =>
         ret (mkReply 400 (ErrorBody "Missing required fields" "panNo and ipoName are required"))
     end)
    (fun e => ret (mkReply 500 (FailureBody "Failed to check allotment status"
                   "An error occurred while checking IPO allotment status" (message e)))).

End Controller.

(** The characters that delimit the parts of a URL or its query string. *)
Definition url_delimiters : list ascii := ["&"; "="; "?"; "#"; " "; "/"; "+"]%char.


(* ------------------------------------------------------------------ *)
(** ** The status taxonomy *)

(** The closed set of status kinds of the specification. *)
Inductive StatusKind :=
| Allotted | NotAllotted | NoRecordFound | Pending | CaptchaRequired | Error | Unknown.

(** The status strings the checkers of part_002 write, with the kind each
    one spells; ['parse_needed'] spells none. *)
Definition status_kind (st : string) : option StatusKind :=
  if String.eqb st "Allotted" then Some Allotted
  else if String.eqb st "Not Allotted" then Some NotAllotted
  else if String.eqb st "No Record Found" then Some NoRecordFound
  else if String.eqb st "Pending" then Some Pending
  else if String.eqb st "captcha_required" then Some CaptchaRequired
  else if (String.eqb st "error" || String.eqb st "Error")%bool then Some Error
  else if String.eqb st "unknown" then Some Unknown
  else None.

Definition code_statuses : list string :=
  ["Allotted"; "Not Allotted"; "Pending"; "No Record Found"; "unknown";
   "error"; "Error"; "captcha_required"; "parse_needed"].

(** A response of registrar [name] whose status is one of the strings the
    code writes. *)
Definition tagged (name : string) (r : Response) : Prop :=
  registrar r = name /\ In (status r) code_statuses.

(* ------------------------------------------------------------------ *)
(** ** Properties of a cache *)

Module CacheProps.
Import IdCache.

(** The keys of a [Map] are distinct. *)
Fixpoint keys_distinct (c : Cache) : bool :=
  match c with
  | [] => true
  | (k, _) :: r => (negb (existsb (String.eqb k) (map fst r)) && keys_distinct r)%bool
  end.

(** No entry carries a timestamp later than [now]. *)
Definition not_future (now : Z) (c : Cache) : bool :=
  forallb (fun p => timestamp (snd p) <=? now) c.

(** No entry has expired at [now]. *)
Definition none_expired (now : Z) (c : Cache) : bool :=
  forallb (fun p => negb (expired now (snd p))) c.

(** What every cache of the service satisfies at time [now]: distinct keys,
    at most [MAX_CACHE_SIZE] entries, no timestamp in the future. *)
Definition cache_ok (now : Z) (c : Cache) : bool :=
  (keys_distinct c && Nat.leb (List.length c) MAX_CACHE_SIZE && not_future now c)%bool.

(** The order of the comparator of [cleanupCache]. *)
Definition ts_le (a b : string * CacheEntry) : Prop :=
  (timestamp (snd a) <= timestamp (snd b))%Z.

End CacheProps.

(** [m] throws from every state. *)
Definition always_throws {A} (m : M A) : Prop :=
  forall s, exists e s', m s = (inl e, s').

(* ------------------------------------------------------------------ *)
(** ** Concrete scenarios *)

Module Scenarios.
Import Checkers Dispatcher.

Definition refused : Exn := mkExn "connect ECONNREFUSED" None.

(** Every upstream site unreachable, at time [t]. *)
Definition env_down (t : Z) : Env :=
  mkEnv t (fun _ => "123456") (fun _ => inl refused) (inl refused) (inl refused)
        (inl refused) (inl refused) (inl refused) (inl refused) (inl refused)
        (inl refused) (fun _ => inl refused) (fun _ _ => inl refused)
        (fun _ => inl refused) (fun _ => inl refused).

(** As [env_down], except that the generic HTML pages answer. *)
Definition env_html_ok : Env :=
  mkEnv 0 (fun _ => "123456") (fun _ => inl refused) (inl refused) (inl refused)
        (inl refused) (inl refused) (inl refused) (inl refused) (inl refused)
        (inl refused) (fun _ => inl refused) (fun _ _ => inl refused)
        (fun _ => inr "<html></html>") (fun _ => inl refused).

(** As [env_down], except that the services-file KFintech endpoint answers
    with a status string of its own. *)
Definition env_legacy : Env :=
  mkEnv 0 (fun _ => "123456") (fun _ => inl refused) (inl refused) (inl refused)
        (inl refused) (inl refused) (inl refused) (inl refused) (inl refused)
        (inl refused) (fun _ => inl refused) (fun _ _ => inl refused)
        (fun _ => inl refused) (fun _ => inr (Some "Refund Processed")).

Definition st0 : St := mkSt [] [] [] [].

Definition req0 : AllotmentRequest := mkReq "ABCDE1234F" "Midwest Limited".

(** A KFintech checker whose request times out, in place of the real one. *)
Definition timeout_checker : Checker :=
  fun _ _ => throw (mkExn "timeout of 30000ms exceeded" None).

Definition timeout_table : list (RegistrarType * Checker) :=
  map (fun p => if registrar_eqb (fst p) kfintech then (kfintech, timeout_checker) else p)
      registrarCheckers.

(** [n] in decimal. *)
Fixpoint decimal (fuel n : nat) : string :=
  match fuel with
  | O => ""
  | S f =>
      (if Nat.ltb n 10 then "" else decimal f (Nat.div n 10))
      ++ String (ascii_of_nat (48 + Nat.modulo n 10)) ""
  end.

Definition key_of (n : nat) : string := "ipo " ++ decimal 4 n.

(** A full cache: 1000 names resolved at times 0, 1, ..., 999. *)
Definition full_cache : IdCache.Cache :=
  map (fun n => (key_of n, IdCache.mkEntry (Some (decimal 4 n)) (Z.of_nat n)))
      (seq 0 1000).

Definition state_full_purva : St := mkSt [] [] full_cache [].

(** Two milliseconds after the first two entries of [full_cache] turned a
    day old, Purva lists the company "New Vision Limited". *)
Definition env_purva_new : Env :=
  mkEnv (IdCache.CACHE_DURATION + 2) (fun _ => "123456") (fun _ => inl refused)
        (inl refused) (inr [mkOption "New Vision Limited" (Some "42")])
        (inl refused) (inl refused) (inl refused) (inl refused) (inl refused)
        (inl refused) (fun _ => inl refused) (fun _ _ => inl refused)
        (fun _ => inl refused) (fun _ => inl refused).

(** Every registrar lists "ABC Industries Ltd" under the code "42". *)
Definition env_abc : Env :=
  mkEnv 0 (fun _ => "123456")
        (fun _ => inr [[mkOption "ABC Industries Ltd" (Some "42")]])
        (inr (MLXml [("ABC Industries Ltd", "42")]))
        (inr [mkOption "ABC Industries Ltd" (Some "42")])
        (inl refused) (inl refused) (inl refused) (inl refused) (inl refused)
        (inl refused) (fun _ => inl refused) (fun _ _ => inl refused)
        (fun _ => inl refused) (fun _ => inl refused).

(** The MUFG list has "Foo 123 Ltd" under the client id "77"; the token and
    the search answer. *)
Definition env_mufg_123 : Env :=
  mkEnv 0 (fun _ => "123456") (fun _ => inl refused)
        (inr (MLXml [("Foo 123 Ltd", "77")])) (inl refused)
        (inl refused) (inl refused) (inr (Some "tok")) (inr SNoD) (inl refused)
        (inl refused) (fun _ => inl refused) (fun _ _ => inl refused)
        (fun _ => inl refused) (fun _ => inl refused).

Definition req_123 : AllotmentRequest := mkReq "ABCDE1234F" "123".

(** A Purva result table: a header row and one data row whose sixth cell
    (shares allotted) is [shares]. *)
Definition purva_header : list string :=
  ["Sr No"; "Application No"; "Name"; "PAN"; "Shares Applied"; "Shares Allotted"].

Definition purva_row (shares : string) : list string :=
  ["1"; "1234567"; "A B C"; "ABCDE1234F"; "100"; shares].

Definition env_purva_table (shares : string) : Env :=
  mkEnv 0 (fun _ => "123456") (fun _ => inl refused) (inl refused) (inl refused)
        (inl refused) (inl refused) (inl refused) (inl refused) (inr (Some "csrf"))
        (inr (Some [purva_header; purva_row shares])) (fun _ => inl refused)
        (fun _ _ => inl refused) (fun _ => inl refused) (fun _ => inl refused).

Definition req_purva_78 : AllotmentRequest := mkReq "ABCDE1234F" "78".

(** A Cameo page whose dropdown lists [opts]. *)
Definition cameo_page (opts : list SelectOption) : CameoPage :=
  mkCameoPage (Some "vs") (Some "gen") (Some "ev")
              (mkOption "--Select--" (Some "0") :: opts).

Definition captcha_answer : CameoAnswer :=
  CHtml ("<script>" ++ captcha_marker ++ "</script>") (mkCameoDom [] "").

(** Every Cameo endpoint serves the page and rejects every captcha. *)
Definition env_cameo_captcha : Env :=
  mkEnv 0 (fun _ => "654321") (fun _ => inl refused) (inl refused) (inl refused)
        (inl refused) (inl refused) (inl refused) (inl refused) (inl refused)
        (inl refused)
        (fun _ => inr (cameo_page [mkOption "Alpha Ltd" (Some "11")]))
        (fun _ _ => inr captcha_answer)
        (fun _ => inl refused) (fun _ => inl refused).

(** The dropdown lists "Alpha Ltd" (code 11) and then "2024" (code 12); the
    answer shows an allotment. *)
Definition env_cameo_2024 : Env :=
  mkEnv 0 (fun _ => "654321") (fun _ => inl refused) (inl refused) (inl refused)
        (inl refused) (inl refused) (inl refused) (inl refused) (inl refused)
        (inl refused)
        (fun _ => inr (cameo_page [mkOption "Alpha Ltd" (Some "11");
                                   mkOption "2024" (Some "12")]))
        (fun _ _ => inr (CHtml "<div id='lblResult'>Allotted</div>"
                               (mkCameoDom [] "Allotted")))
        (fun _ => inl refused) (fun _ => inl refused).

Definition req_zeta : AllotmentRequest := mkReq "ABCDE1234F" "Zeta Fintech".

Definition captcha_required_response : Response :=
  mkResp false "cameo" "captcha_required"
         (Some "All captcha strategies failed. Captcha verification is required for Cameo IPO allotment checking.")
         None.

End Scenarios.

(** Further concrete environments and states. *)
Module MoreScenarios.
Import IdCache Scenarios.

(** As [env_down], except that the Purva form page answers without a CSRF
    token. *)
Definition env_purva_no_csrf : Env :=
  mkEnv 0 (fun _ => "123456") (fun _ => inl refused) (inl refused) (inl refused)
        (inl refused) (inl refused) (inl refused) (inl refused) (inr None)
        (inl refused) (fun _ => inl refused) (fun _ _ => inl refused)
        (fun _ => inl refused) (fun _ => inl refused).

(** One entry resolved at time 0, one negative entry from time 5. *)
Definition cache_two : Cache :=
  [("old ipo", mkEntry (Some "1") 0); ("new ipo", mkEntry None 5)].

(** A lone surrogate code unit (U+D800), in its three-byte form. *)
Definition lone_surrogate : string :=
  String (ascii_of_nat 237) (String (ascii_of_nat 160) (String (ascii_of_nat 128) EmptyString)).

(** A request whose IPO name ends in a lone surrogate. *)
Definition req_surrogate : AllotmentRequest := mkReq "ABCDE1234F" ("Midwest " ++ lone_surrogate).

(** The MUFG cache knows "123" under the client id "77". *)
Definition st_mufg_77 : St := mkSt [] [("123", mkEntry (Some "77") 0)] [] [].

End MoreScenarios.

(* ================================================================== *)
(** * Reasoning about computations *)

Module Reasoning.

(** [m] never throws and its result satisfies [P]. *)
Definition Safe {A} (m : M A) (P : A -> Prop) : Prop :=
  forall s, match fst (m s) with inr a => P a | inl _ => False end.

(** If [m] returns, its result satisfies [P]. *)
Definition Post {A} (m : M A) (P : A -> Prop) : Prop :=
  forall s, match fst (m s) with inr a => P a | inl _ => True end.

(** [m] only appends to the request log. *)
Definition Appends {A} (m : M A) : Prop :=
  forall s, exists rest, requests (snd (m s)) = (requests s ++ rest)%list.

Lemma safe_ret {A} (a : A) (P : A -> Prop) : P a -> Safe (ret a) P.
Proof. intros H s. exact H. Qed.

Lemma safe_bind_true {A B} (m : M A) (k : A -> M B) (P : B -> Prop) :
  Safe m (fun _ => True) -> (forall a, Safe (k a) P) -> Safe (bind m k) P.
Proof.
  intros Hm Hk s. unfold bind. specialize (Hm s).
  destruct (m s) as [[e|a] s']; simpl in *; [contradiction | apply Hk].
Qed.

Lemma safe_bind {A B} (m : M A) (k : A -> M B) (Q : A -> Prop) (P : B -> Prop) :
  Safe m Q -> (forall a, Q a -> Safe (k a) P) -> Safe (bind m k) P.
Proof.
  intros Hm Hk s. unfold bind. specialize (Hm s).
  destruct (m s) as [[e|a] s']; simpl in *; [contradiction | now apply Hk].
Qed.

Lemma safe_try {A} (m : M A) (h : Exn -> M A) (P : A -> Prop) :
  Post m P -> (forall e, Safe (h e) P) -> Safe (try_catch m h) P.
Proof.
  intros Hm Hh s. unfold try_catch. specialize (Hm s).
  destruct (m s) as [[e|a] s']; simpl in *; [apply Hh | exact Hm].
Qed.

Lemma safe_get_st : Safe get_st (fun _ => True).
Proof. intros s. exact I. Qed.

Lemma safe_upd_big f : Safe (upd_big f) (fun _ => True).
Proof. intros s. exact I. Qed.
Lemma safe_upd_mufg f : Safe (upd_mufg f) (fun _ => True).
Proof. intros s. exact I. Qed.
Lemma safe_upd_purva f : Safe (upd_purva f) (fun _ => True).
Proof. intros s. exact I. Qed.

Lemma safe_weaken {A} (m : M A) (P Q : A -> Prop) :
  Safe m P -> (forall a, P a -> Q a) -> Safe m Q.
Proof.
  intros Hm H s. specialize (Hm s). destruct (fst (m s)); [contradiction | now apply H].
Qed.

Lemma post_of_safe {A} (m : M A) (P : A -> Prop) : Safe m P -> Post m P.
Proof. intros Hm s. specialize (Hm s). destruct (fst (m s)); tauto. Qed.

Lemma post_ret {A} (a : A) (P : A -> Prop) : P a -> Post (ret a) P.
Proof. intros H s. exact H. Qed.

Lemma post_throw {A} (e : Exn) (P : A -> Prop) : Post (throw e) P.
Proof. intros s. exact I. Qed.

Lemma post_bind_any {A B} (m : M A) (k : A -> M B) (P : B -> Prop) :
  (forall a, Post (k a) P) -> Post (bind m k) P.
Proof.
  intros Hk s. unfold bind.
  destruct (m s) as [[e|a] s']; simpl; [exact I | apply Hk].
Qed.

Lemma post_bind {A B} (m : M A) (k : A -> M B) (Q : A -> Prop) (P : B -> Prop) :
  Post m Q -> (forall a, Q a -> Post (k a) P) -> Post (bind m k) P.
Proof.
  intros Hm Hk s. unfold bind. specialize (Hm s).
  destruct (m s) as [[e|a] s']; simpl in *; [exact I | now apply Hk].
Qed.

Lemma appends_ret {A} (a : A) : Appends (ret a).
Proof. intros s. exists []. rewrite app_nil_r. reflexivity. Qed.

Lemma appends_throw {A} (e : Exn) : Appends (A := A) (throw e).
Proof. intros s. exists []. rewrite app_nil_r. reflexivity. Qed.

Lemma appends_http_with {A} url fields (r : Exn + A) : Appends (http_with url fields r).
Proof. intros s. exists [mkRequest url fields]. reflexivity. Qed.

Lemma appends_bind {A B} (m : M A) (k : A -> M B) :
  Appends m -> (forall a, Appends (k a)) -> Appends (bind m k).
Proof.
  intros Hm Hk s. unfold bind. destruct (Hm s) as (r1 & H1).
  destruct (m s) as [[e|a] s'] eqn:E; simpl in *; [exists r1; exact H1|].
  destruct (Hk a s') as (r2 & H2). exists (r1 ++ r2)%list.
  rewrite H2, H1, app_assoc. reflexivity.
Qed.

Lemma appends_try {A} (m : M A) (h : Exn -> M A) :
  Appends m -> (forall e, Appends (h e)) -> Appends (try_catch m h).
Proof.
  intros Hm Hh s. unfold try_catch. destruct (Hm s) as (r1 & H1).
  destruct (m s) as [[e|a] s'] eqn:E; simpl in *; [|exists r1; exact H1].
  destruct (Hh e s') as (r2 & H2). exists (r1 ++ r2)%list.
  rewrite H2, H1, app_assoc. reflexivity.
Qed.

Lemma bind_prefix {A B} (m : M A) (k : A -> M B) s :
  (forall a, Appends (k a)) ->
  exists rest, requests (snd (bind m k s)) = (requests (snd (m s)) ++ rest)%list.
Proof.
  intros Hk. unfold bind. destruct (m s) as [[e|a] s']; cbn [snd].
  - exists []. rewrite app_nil_r. reflexivity.
  - apply Hk.
Qed.

Lemma try_prefix {A} (m : M A) (h : Exn -> M A) s :
  (forall e, Appends (h e)) ->
  exists rest, requests (snd (try_catch m h s)) = (requests (snd (m s)) ++ rest)%list.
Proof.
  intros Hh. unfold try_catch. destruct (m s) as [[e|a] s']; cbn [snd].
  - apply Hh.
  - exists []. rewrite app_nil_r. reflexivity.
Qed.

End Reasoning.

Import Reasoning.

(** Reduces the projections and boolean connectives left by unfolding a run. *)
Ltac mred := cbn [negb andb orb fst snd requests bigshareCompanyIdCache mufgCompanyIdCache
                  purvaCompanyIdCache].

Create HintDb safe.
#[export] Hint Resolve safe_get_st safe_upd_big safe_upd_mufg safe_upd_purva : safe.

(** One step of a [Safe]/[Post] proof, following the shape of the code. *)
Ltac safe_step :=
  match goal with
  | |- Safe (bind _ _) _ => apply safe_bind_true; [ try solve [auto with safe] | intros ? ]
  | |- Safe (try_catch _ _) _ => apply safe_try; [ | intros ? ]
  | |- Safe (ret _) _ => apply safe_ret
  | |- Post (bind _ _) _ => apply post_bind_any; intros ?
  | |- Post (ret _) _ => apply post_ret
  | |- Post (throw _) _ => apply post_throw
  | |- context [match ?x with _ => _ end] => destruct x
  | |- Post _ _ => apply post_of_safe
  end.

(* ------------------------------------------------------------------ *)
(** ** The resolvers never throw *)

Lemma bigshare_try_safe env ipoName cacheKey urls :
  Safe (Resolver.bigshare_try env ipoName cacheKey urls) (fun _ => True).
Proof.
  induction urls as [|url rest IH]; simpl.
  - repeat safe_step; exact I.
  - repeat safe_step; auto; exact I.
Qed.

Lemma getBigshareCompanyId_safe env ipoName :
  Safe (Resolver.getBigshareCompanyId env ipoName) (fun _ => True).
Proof.
  unfold Resolver.getBigshareCompanyId. repeat safe_step; auto using bigshare_try_safe.
Qed.

Lemma getMufgCompanyId_safe env ipoName :
  Safe (Resolver.getMufgCompanyId env ipoName) (fun _ => True).
Proof. unfold Resolver.getMufgCompanyId. repeat safe_step; exact I. Qed.

Lemma getPurvaCompanyId_safe env ipoName :
  Safe (Resolver.getPurvaCompanyId env ipoName) (fun _ => True).
Proof. unfold Resolver.getPurvaCompanyId. repeat safe_step; exact I. Qed.

#[export] Hint Resolve getBigshareCompanyId_safe getMufgCompanyId_safe getPurvaCompanyId_safe : safe.

(* ------------------------------------------------------------------ *)
(** ** Every checker returns a response of its own registrar *)

Section CheckerSafety.
Import Checkers Dispatcher.

Ltac in_statuses := unfold code_statuses; simpl; tauto.

Lemma bigshare_status_in p : In (bigshare_status p) code_statuses.
Proof.
  unfold bigshare_status.
  destruct p; [|in_statuses]. repeat (destruct (_ && _)%bool || destruct (_ || _)%bool); in_statuses.
Qed.

Lemma kfintech_status_in d : In (kfintech_status d) code_statuses.
Proof.
  unfold kfintech_status. destruct d; [in_statuses|].
  repeat match goal with |- context [if ?b then _ else _] => destruct b end; in_statuses.
Qed.

Lemma mufg_status_in p : In (mufg_status p) code_statuses.
Proof.
  unfold mufg_status.
  repeat match goal with
         | |- context [if ?b then _ else _] => destruct b
         | |- context [match ?x with _ => _ end] => destruct x
         end; in_statuses.
Qed.

Lemma purva_classify_in t : In (purva_classify t) code_statuses.
Proof.
  unfold purva_classify. destruct t as [rows|]; [|in_statuses].
  destruct (Nat.leb _ 1); [in_statuses|].
  destruct (fold_left _ _ _) as [h tot].
  destruct (h && _)%bool; in_statuses.
Qed.

Lemma cameo_row_status_in st row :
  In st code_statuses -> In (cameo_row_status st row) code_statuses.
Proof.
  intros H. unfold cameo_row_status.
  repeat match goal with |- context [if ?b then _ else _] => destruct b end;
    auto; in_statuses.
Qed.

Lemma cameo_table_status_in st rows :
  In st code_statuses -> In (cameo_table_status st rows) code_statuses.
Proof.
  intros H. unfold cameo_table_status. destruct rows as [|hdr data]; auto.
  destruct (_ || _)%bool; auto.
  revert st H. induction data as [|row rest IH]; intros st H; simpl; auto.
  apply IH, cameo_row_status_in, H.
Qed.

Lemma cameo_status_in dom : In (cameo_status dom) code_statuses.
Proof.
  unfold cameo_status.
  assert (H : forall ts st, In st code_statuses ->
            In (fold_left cameo_table_status ts st) code_statuses).
  { induction ts as [|t ts IH]; intros st Hst; simpl; auto.
    apply IH, cameo_table_status_in, Hst. }
  repeat match goal with |- context [if ?b then _ else _] => destruct b end;
    try in_statuses; apply H; in_statuses.
Qed.

Ltac tagged_done :=
  first [ exact I
        | split; [reflexivity | first [ in_statuses
                                      | apply bigshare_status_in | apply kfintech_status_in
                                      | apply mufg_status_in | apply purva_classify_in
                                      | apply cameo_status_in ] ] ].

Lemma checkBigshare_tagged env req : Safe (checkBigshare env req) (tagged "bigshare").
Proof. unfold checkBigshare. repeat safe_step; tagged_done. Qed.

Lemma checkKfintech_tagged env req : Safe (checkKfintech env req) (tagged "kfintech").
Proof. unfold checkKfintech. repeat safe_step; tagged_done. Qed.

Lemma checkMufgLike_tagged name env req : Safe (checkMufgLike name env req) (tagged name).
Proof. unfold checkMufgLike. repeat safe_step; tagged_done. Qed.

Lemma checkPurva_tagged env req : Safe (checkPurva env req) (tagged "purva").
Proof. unfold checkPurva. repeat safe_step; tagged_done. Qed.

Lemma cameo_submit_tagged env req ep page code cs :
  Safe (cameo_submit env req ep page code cs) (tagged "cameo").
Proof.
  induction cs as [|c cs IH]; simpl; [repeat safe_step; tagged_done|].
  apply safe_bind with (Q := fun o => match o with Some r => tagged "cameo" r | None => True end).
  - apply safe_try; [|intros; repeat safe_step; exact I].
    repeat safe_step; try exact I; tagged_done.
  - intros [r|] Hr; [apply safe_ret; exact Hr | exact IH].
Qed.

Lemma checkCameo_tagged env req : Safe (checkCameo env req) (tagged "cameo").
Proof.
  unfold checkCameo. induction cameo_endpoint_urls as [|ep eps IH]; simpl.
  - repeat safe_step; tagged_done.
  - apply safe_bind with (Q := fun o => match o with Some r => tagged "cameo" r | None => True end).
    + apply safe_try; [|intros; repeat safe_step; exact I].
      unfold cameo_endpoint.
      repeat first [ apply post_bind with (Q := tagged "cameo");
                       [apply post_of_safe, cameo_submit_tagged | intros ? ?]
                   | safe_step ];
        first [exact I | assumption].
    + intros [r|] Hr; [apply safe_ret; exact Hr | exact IH].
Qed.

Lemma checkHtmlRegistrar_post r env req :
  Post (checkHtmlRegistrar r env req) (tagged (registrar_name r)).
Proof.
  unfold checkHtmlRegistrar. apply post_bind_any. intros url.
  apply post_of_safe. repeat safe_step; tagged_done.
Qed.

Lemma checkHtmlRegistrar_tagged r env req :
  r <> maashitla -> Safe (checkHtmlRegistrar r env req) (tagged (registrar_name r)).
Proof.
  intros Hr. unfold checkHtmlRegistrar.
  destruct r; try (exfalso; apply Hr; reflexivity); repeat safe_step; tagged_done.
Qed.

End CheckerSafety.

(* ------------------------------------------------------------------ *)
(** ** The dispatcher *)

Section DispatcherProofs.
Import Checkers Dispatcher.

Lemma check_all_loop_run table env req s :
  exists results s',
    check_all_loop table env req s = (inr results, s') /\
    List.length results = List.length table /\
    (forall i r chk, nth_error table i = Some (r, chk) ->
       (* the entry of a checker is its response, or the error entry when it threw *)
       (exists s0, fst (chk env req s0) = inr (nth i results (mkResp false "" "" None None))) \/
       (exists s0 e, fst (chk env req s0) = inl e /\
          nth_error results i = Some (mkResp false (registrar_name r) "error" (Some (message e)) None))).
Proof.
  revert s. induction table as [|[r chk] rest IH]; intros s; simpl.
  - exists [], s. split; [reflexivity|]. split; [reflexivity|].
    intros [|i]; discriminate.
  - unfold bind, try_catch, ret.
    destruct (chk env req s) as [[e|a] s1] eqn:E.
    + destruct (IH s1) as (results & s' & Hrun & Hlen & Hent).
      cbn beta iota. rewrite Hrun.
      exists (mkResp false (registrar_name r) "error" (Some (message e)) None :: results), s'.
      split; [reflexivity|]. split; [simpl; lia|].
      intros [|i] r' chk' Hi; simpl in Hi.
      * injection Hi as <- <-. right. exists s, e. rewrite E. split; reflexivity.
      * apply (Hent i r' chk' Hi).
    + destruct (IH s1) as (results & s' & Hrun & Hlen & Hent).
      cbn beta iota. rewrite Hrun.
      exists (a :: results), s'.
      split; [reflexivity|]. split; [simpl; lia|].
      intros [|i] r' chk' Hi; simpl in Hi.
      * injection Hi as <- <-. left. exists s. rewrite E. reflexivity.
      * apply (Hent i r' chk' Hi).
Qed.

Lemma check_all_loop_registrars table env req :
  (forall r chk, In (r, chk) table -> Post (chk env req) (tagged (registrar_name r))) ->
  Safe (check_all_loop table env req)
       (fun results => map registrar results = map (fun p => registrar_name (fst p)) table).
Proof.
  induction table as [|[r chk] rest IH]; intros Htab; simpl.
  - apply safe_ret. reflexivity.
  - apply safe_bind with (Q := fun res => registrar res = registrar_name r).
    + apply safe_try; [|intros; apply safe_ret; reflexivity].
      intros s0. specialize (Htab r chk (or_introl eq_refl) s0).
      destruct (chk env req s0) as [[e|a] s1]; [exact I | exact (proj1 Htab)].
    + intros res Hres.
      apply safe_bind with (Q := fun results =>
        map registrar results = map (fun p => registrar_name (fst p)) rest).
      * apply IH. intros r' chk' Hin. apply Htab. right. exact Hin.
      * intros results Hr. apply safe_ret. simpl. rewrite Hres, Hr. reflexivity.
Qed.

Lemma registrarCheckers_tagged env req r chk :
  In (r, chk) registrarCheckers -> Post (chk env req) (tagged (registrar_name r)).
Proof.
  simpl. intros H.
  repeat destruct H as [H|H]; try injection H as <- <-; try contradiction.
  - apply post_of_safe, checkBigshare_tagged.
  - apply post_of_safe, checkKfintech_tagged.
  - apply post_of_safe, checkMufgLike_tagged.
  - apply checkHtmlRegistrar_post.
  - apply post_of_safe, checkCameo_tagged.
  - apply checkHtmlRegistrar_post.
  - apply checkHtmlRegistrar_post.
  - apply checkHtmlRegistrar_post.
  - apply post_of_safe, checkPurva_tagged.
  - apply post_of_safe, checkMufgLike_tagged.
Qed.

Lemma check_all_loop_statuses table env req :
  (forall r chk, In (r, chk) table -> Post (chk env req) (tagged (registrar_name r))) ->
  Safe (check_all_loop table env req)
       (fun results => Forall (fun r => In (status r) code_statuses) results).
Proof.
  induction table as [|[r chk] rest IH]; intros Htab; simpl.
  - apply safe_ret. constructor.
  - apply safe_bind with (Q := fun res => In (status res) code_statuses).
    + apply safe_try; [|intros; apply safe_ret; unfold code_statuses; simpl; tauto].
      intros s0. specialize (Htab r chk (or_introl eq_refl) s0).
      destruct (chk env req s0) as [[e|a] s1]; [exact I | exact (proj2 Htab)].
    + intros res Hres.
      apply safe_bind with (Q := Forall (fun r => In (status r) code_statuses)).
      * apply IH. intros r' chk' Hin. apply Htab. right. exact Hin.
      * intros results Hr. apply safe_ret. constructor; assumption.
Qed.

End DispatcherProofs.

Lemma code_statuses_kind st :
  In st code_statuses -> status_kind st <> None \/ st = "parse_needed".
Proof.
  unfold code_statuses. simpl.
  intros H; repeat destruct H as [<-|H]; try contradiction;
    first [right; reflexivity | left; discriminate].
Qed.

(* ------------------------------------------------------------------ *)
(** ** Cache lemmas *)

Section CacheLemmas.
Import CacheProps.

Lemma filter_filter_eq {A} (f g : A -> bool) l :
  filter f (filter g l) = filter (fun x => (g x && f x)%bool) l.
Proof.
  induction l as [|x l IH]; simpl; [reflexivity|].
  destruct (g x); simpl; [destruct (f x); simpl; rewrite IH; reflexivity | exact IH].
Qed.

Lemma filter_all_true {A} (f : A -> bool) l :
  (forall x, In x l -> f x = true) -> filter f l = l.
Proof.
  induction l as [|x l IH]; intros H; simpl; [reflexivity|].
  rewrite (H x (or_introl eq_refl)), IH; [reflexivity|].
  intros y Hy; apply H; right; exact Hy.
Qed.

Lemma delete_keys l c :
  fold_left (fun m '(k, _) => delete m k) l c =
  filter (fun p : string * CacheEntry => negb (existsb (fun q : string * CacheEntry => String.eqb (fst p) (fst q)) l)) c.
Proof.
  revert c. induction l as [|[k v] l IH]; intros c; simpl.
  - symmetry. apply filter_all_true. reflexivity.
  - rewrite IH. unfold delete. rewrite filter_filter_eq.
    apply filter_ext. intros [k' v']; simpl.
    rewrite negb_orb. reflexivity.
Qed.

Lemma expire_fold now l c :
  fold_left (fun m '(k, v) => if expired now v then delete m k else m) l c =
  filter (fun p : string * CacheEntry => negb (existsb (fun q : string * CacheEntry => (String.eqb (fst p) (fst q) && expired now (snd q))%bool) l)) c.
Proof.
  revert c. induction l as [|[k v] l IH]; intros c; simpl.
  - symmetry. apply filter_all_true. reflexivity.
  - rewrite IH. destruct (expired now v) eqn:Ev.
    + unfold delete. rewrite filter_filter_eq.
      apply filter_ext. intros [k' v']; simpl.
      rewrite andb_true_r, negb_orb. reflexivity.
    + apply filter_ext. intros [k' v']; simpl.
      rewrite andb_false_r. reflexivity.
Qed.

Lemma insert_ts_perm x l : Permutation (insert_ts x l) (x :: l).
Proof.
  induction l as [|y l IH]; simpl; [reflexivity|].
  destruct (timestamp (snd x) <? timestamp (snd y)); [reflexivity|].
  rewrite IH. apply perm_swap.
Qed.

Lemma sort_ts_acc_perm acc l : Permutation (sort_ts_acc acc l) (l ++ acc).
Proof.
  revert acc. induction l as [|x l IH]; intros acc; simpl.
  - reflexivity.
  - rewrite IH, insert_ts_perm. apply Permutation_sym, Permutation_middle.
Qed.

Lemma sort_ts_perm l : Permutation (sort_ts l) l.
Proof. unfold sort_ts. rewrite sort_ts_acc_perm, app_nil_r. reflexivity. Qed.

Lemma insert_ts_sorted x l : Sorted ts_le l -> Sorted ts_le (insert_ts x l).
Proof.
  induction 1 as [|y l Hs IH Hhd]; simpl.
  - repeat constructor.
  - destruct (timestamp (snd x) <? timestamp (snd y)) eqn:E.
    + constructor; [constructor; [exact Hs | exact Hhd] |].
      constructor. unfold ts_le. apply Z.ltb_lt in E. lia.
    + constructor; [exact IH|].
      apply Z.ltb_ge in E.
      destruct l as [|z l]; simpl.
      * constructor. unfold ts_le. lia.
      * destruct (timestamp (snd x) <? timestamp (snd z)); constructor;
          unfold ts_le; [lia|]. inversion Hhd; assumption.
Qed.

Lemma sort_ts_acc_sorted acc l : Sorted ts_le acc -> Sorted ts_le (sort_ts_acc acc l).
Proof.
  revert acc. induction l as [|x l IH]; intros acc H; simpl; [exact H|].
  apply IH, insert_ts_sorted, H.
Qed.

Lemma sort_ts_sorted l : Sorted ts_le (sort_ts l).
Proof. apply sort_ts_acc_sorted. constructor. Qed.

Lemma sort_ts_head_min x r l :
  sort_ts l = x :: r -> forall p, In p l -> ts_le x p.
Proof.
  intros E p Hp.
  assert (Hs : StronglySorted ts_le (x :: r)).
  { rewrite <- E. apply Sorted_StronglySorted; [|apply sort_ts_sorted].
    intros a b c; unfold ts_le; lia. }
  apply (Permutation_in p (Permutation_sym (sort_ts_perm l))) in Hp.
  rewrite E in Hp. destruct Hp as [<-|Hp]; [unfold ts_le; lia|].
  inversion Hs as [|? ? _ Hall]. rewrite Forall_forall in Hall. apply Hall, Hp.
Qed.

Lemma perm_filter {A} (f : A -> bool) l l' :
  Permutation l l' -> Permutation (filter f l) (filter f l').
Proof.
  induction 1 as [|x l l' _ IH|x y l|l l' l'' _ IH1 _ IH2]; simpl.
  - constructor.
  - destruct (f x); [apply perm_skip|]; exact IH.
  - destruct (f x), (f y); try apply perm_swap; reflexivity.
  - etransitivity; eassumption.
Qed.

Lemma filter_length_le {A} (f : A -> bool) l : (List.length (filter f l) <= List.length l)%nat.
Proof.
  induction l as [|x l IH]; simpl; [lia|]. destruct (f x); simpl; lia.
Qed.

Lemma filter_covered_nil (l l' : Cache) :
  (forall x, In x l -> In x l') ->
  filter (fun p => negb (existsb (fun q => String.eqb (fst p) (fst q)) l')) l = [].
Proof.
  induction l as [|x l IH]; intros H; simpl; [reflexivity|].
  assert (Hx : existsb (fun q => String.eqb (fst x) (fst q)) l' = true).
  { apply existsb_exists. exists x. split; [apply H; left; reflexivity | apply String.eqb_refl]. }
  rewrite Hx. simpl. apply IH. intros y Hy; apply H; right; exact Hy.
Qed.

Lemma cleanup_length now c : (List.length (cleanup now c) <= MAX_CACHE_SIZE)%nat.
Proof.
  unfold cleanup.
  set (c1 := fold_left _ c c).
  destruct (Nat.ltb MAX_CACHE_SIZE (List.length c1)) eqn:Hlt; [|apply Nat.ltb_ge in Hlt; exact Hlt].
  apply Nat.ltb_lt in Hlt.
  rewrite delete_keys.
  set (n := (List.length c1 - MAX_CACHE_SIZE)%nat).
  set (E := sort_ts c1).
  set (P := fun p : string * CacheEntry =>
              negb (existsb (fun q => String.eqb (fst p) (fst q)) (firstn n E))).
  rewrite (Permutation_length (perm_filter P _ _ (Permutation_sym (sort_ts_perm c1)))).
  fold E. rewrite <- (firstn_skipn n E) at 1.
  rewrite filter_app. unfold P at 1. rewrite filter_covered_nil by (intros; assumption). simpl.
  etransitivity; [apply filter_length_le|].
  rewrite length_skipn.
  unfold E. rewrite (Permutation_length (sort_ts_perm c1)). unfold n. lia.
Qed.


Lemma keys_distinct_NoDup c : keys_distinct c = true -> NoDup (map fst c).
Proof.
  induction c as [|[k v] c IH]; simpl; intros H; [constructor|].
  apply andb_true_iff in H as [H1 H2]. constructor; [|apply IH, H2].
  intros Hin. apply negb_true_iff in H1.
  assert (existsb (String.eqb k) (map fst c) = true) as H3
    by (apply existsb_exists; exists k; split; [exact Hin | apply String.eqb_refl]).
  congruence.
Qed.

Lemma NoDup_keys_distinct c : NoDup (map fst c) -> keys_distinct c = true.
Proof.
  induction c as [|[k v] c IH]; simpl; intros H; [reflexivity|].
  inversion H as [|? ? Hnin Hnd]; subst. rewrite IH by assumption.
  destruct (existsb (String.eqb k) (map fst c)) eqn:E; [|reflexivity].
  apply existsb_exists in E as (k' & Hin & Heq). apply String.eqb_eq in Heq; subst.
  contradiction.
Qed.

Lemma NoDup_map_filter (P : string * CacheEntry -> bool) c :
  NoDup (map fst c) -> NoDup (map fst (filter P c)).
Proof.
  induction c as [|x c IH]; simpl; intros H; [constructor|].
  inversion H as [|? ? Hnin Hnd]; subst.
  destruct (P x); simpl; [|apply IH, Hnd].
  constructor; [|apply IH, Hnd].
  intros Hin. apply Hnin. apply in_map_iff in Hin as (y & Hy & Hin).
  apply filter_In in Hin as [Hin _]. rewrite <- Hy. apply in_map, Hin.
Qed.

Lemma forallb_filter {A} (f P : A -> bool) l :
  forallb f l = true -> forallb f (filter P l) = true.
Proof.
  induction l as [|x l IH]; simpl; [reflexivity|].
  intros H. apply andb_true_iff in H as [H1 H2].
  destruct (P x); simpl; [rewrite H1|]; apply IH, H2.
Qed.

Lemma filter_length_eq {A} (f : A -> bool) l :
  List.length (filter f l) = List.length l -> filter f l = l.
Proof.
  induction l as [|x l IH]; simpl; intros H; [reflexivity|].
  destruct (f x); simpl in *.
  - rewrite IH; [reflexivity | lia].
  - pose proof (filter_length_le f l). lia.
Qed.

Lemma get_filter c k (P : string * CacheEntry -> bool) :
  (forall v, P (k, v) = true) -> get (filter P c) k = get c k.
Proof.
  intros H. induction c as [|[k' v'] c IH]; simpl; [reflexivity|].
  destruct (String.eqb_spec k k').
  - subst. rewrite H. simpl. rewrite String.eqb_refl. reflexivity.
  - destruct (P (k', v')); simpl; [|exact IH].
    destruct (String.eqb_spec k k'); [contradiction | exact IH].
Qed.

Lemma get_in c k w : NoDup (map fst c) -> In (k, w) c -> get c k = Some w.
Proof.
  induction c as [|[k' v'] c IH]; simpl; intros Hnd Hin; [contradiction|].
  inversion Hnd as [|? ? Hnin Hnd']; subst.
  destruct Hin as [Heq|Hin].
  - injection Heq as <- <-. rewrite String.eqb_refl. reflexivity.
  - destruct (String.eqb_spec k k'); [|apply IH; assumption].
    subst. exfalso. apply Hnin. apply (in_map fst) in Hin. exact Hin.
Qed.

Lemma set_new c k v : ~ In k (map fst c) -> set c k v = (c ++ [(k, v)])%list.
Proof.
  induction c as [|[k' v'] c IH]; simpl; intros H; [reflexivity|].
  destruct (String.eqb_spec k k'); [subst; exfalso; apply H; left; reflexivity|].
  rewrite IH; [reflexivity|]. intros Hin; apply H; right; exact Hin.
Qed.

Lemma set_keys c k v : In k (map fst c) -> map fst (set c k v) = map fst c.
Proof.
  induction c as [|[k' v'] c IH]; simpl; intros H; [contradiction|].
  destruct (String.eqb_spec k k'); simpl; [reflexivity|].
  f_equal. apply IH. destruct H as [H|H]; [congruence | exact H].
Qed.

Lemma set_in c k v p : In p (set c k v) -> p = (k, v) \/ In p c.
Proof.
  induction c as [|[k' v'] c IH]; simpl.
  - intros [H|[]]. left; symmetry; exact H.
  - destruct (String.eqb_spec k k'); simpl.
    + subst. intros [H|H]; [left; symmetry; exact H | right; right; exact H].
    + intros [H|H]; [right; left; exact H|]. destruct (IH H); [left | right; right]; assumption.
Qed.

Lemma set_has c k v : In (k, v) (set c k v).
Proof.
  induction c as [|[k' v'] c IH]; simpl; [left; reflexivity|].
  destruct (String.eqb_spec k k'); simpl; [subst; left; reflexivity | right; exact IH].
Qed.

Lemma set_NoDup c k v : NoDup (map fst c) -> NoDup (map fst (set c k v)).
Proof.
  intros H. destruct (List.in_dec String.string_dec k (map fst c)) as [Hin|Hin].
  - rewrite set_keys; assumption.
  - rewrite set_new, map_app by assumption. simpl.
    apply NoDup_app; [exact H | repeat constructor; simpl; tauto |].
    intros x Hx [<-|[]]. contradiction.
Qed.

Lemma set_length c k v :
  List.length (set c k v) = if existsb (String.eqb k) (map fst c) then List.length c
                            else S (List.length c).
Proof.
  induction c as [|[k' v'] c IH]; simpl; [reflexivity|].
  destruct (String.eqb_spec k k'); simpl; [reflexivity|].
  rewrite IH. destruct (existsb _ _); reflexivity.
Qed.

Lemma existsb_eqb_in k l : existsb (String.eqb k) l = true <-> In k l.
Proof.
  rewrite existsb_exists. split.
  - intros (x & Hx & E). apply String.eqb_eq in E. subst. exact Hx.
  - intros H. exists k. split; [exact H | apply String.eqb_refl].
Qed.

Lemma sort_ts_acc_snoc acc l x :
  sort_ts_acc acc (l ++ [x])%list = insert_ts x (sort_ts_acc acc l).
Proof. revert acc. induction l as [|y l IH]; intros acc; simpl; [reflexivity | apply IH]. Qed.

(** The cleanup of a cache is a filtered copy of it. *)
Lemma cleanup_filter now c : exists P, cleanup now c = filter P c.
Proof.
  unfold cleanup. rewrite expire_fold.
  destruct (Nat.ltb _ _).
  - rewrite delete_keys, filter_filter_eq. eexists. reflexivity.
  - eexists. reflexivity.
Qed.

Lemma delete_length c k w :
  NoDup (map fst c) -> In (k, w) c -> List.length (delete c k) = pred (List.length c).
Proof.
  unfold delete.
  induction c as [|[k' v'] c IH]; simpl; intros Hnd Hin; [contradiction|].
  inversion Hnd as [|? ? Hnin Hnd']; subst.
  destruct Hin as [Heq|Hin].
  - injection Heq as <- <-. rewrite String.eqb_refl. simpl.
    rewrite filter_all_true; [reflexivity|].
    intros [k'' v''] Hp. simpl. apply negb_true_iff.
    destruct (String.eqb_spec k'' k'); [|reflexivity].
    subst. exfalso. apply Hnin. apply (in_map fst) in Hp. exact Hp.
  - destruct (String.eqb_spec k' k).
    + subst. exfalso. apply Hnin. apply (in_map fst) in Hin. exact Hin.
    + simpl. rewrite (IH Hnd' Hin). destruct c; [contradiction | reflexivity].
Qed.

(** The head of the sort of a cache with all timestamps at most [now] keeps
    its place when an entry stamped [now] is added at the end. *)
Lemma sort_ts_snoc_head c x :
  c <> [] -> not_future (timestamp (snd x)) c = true ->
  exists y r, sort_ts (c ++ [x])%list = y :: insert_ts x r /\ sort_ts c = y :: r /\ In y c.
Proof.
  intros Hne Hnf. unfold sort_ts. rewrite sort_ts_acc_snoc. fold (sort_ts c).
  destruct (sort_ts c) as [|y r] eqn:E.
  - pose proof (Permutation_length (sort_ts_perm c)) as Hl. rewrite E in Hl.
    destruct c; [contradiction | discriminate].
  - assert (Hy : In y c).
    { apply (Permutation_in y (sort_ts_perm c)). rewrite E. left. reflexivity. }
    exists y, r. split; [|split; [reflexivity | exact Hy]].
    simpl. unfold not_future in Hnf. rewrite forallb_forall in Hnf.
    specialize (Hnf y Hy). apply Z.leb_le in Hnf.
    destruct (timestamp (snd x) <? timestamp (snd y)) eqn:Ex; [apply Z.ltb_lt in Ex; lia | reflexivity].
Qed.

Lemma not_expired_now now v : expired now (mkEntry v now) = false.
Proof. unfold expired. simpl. rewrite Z.sub_diag. reflexivity. Qed.

(** A write stamped [now] into a cache satisfying [cache_ok now] survives
    the cleanup that follows it. *)
Lemma cleanup_keeps_fresh_write now c k v :
  cache_ok now c = true ->
  get (cleanup now (set c k (mkEntry v now))) k = Some (mkEntry v now).
Proof.
  intros Hok. unfold cache_ok in Hok.
  apply andb_true_iff in Hok as [Hok Hnf]. apply andb_true_iff in Hok as [Hkd Hlen].
  apply keys_distinct_NoDup in Hkd. apply Nat.leb_le in Hlen.
  set (e := mkEntry v now). set (c' := set c k e).
  assert (Hnd' : NoDup (map fst c')) by (apply set_NoDup, Hkd).
  assert (Hget' : get c' k = Some e) by (apply get_in; [exact Hnd' | apply set_has]).
  unfold cleanup. rewrite expire_fold.
  set (P1 := fun p : string * CacheEntry => negb (existsb _ c')).
  assert (HP1 : forall w, P1 (k, w) = true).
  { intros w. unfold P1. apply negb_true_iff.
    apply not_true_iff_false. intros Hex. apply existsb_exists in Hex as ([kq wq] & Hq & Hb).
    simpl in Hb. apply andb_true_iff in Hb as [Hk Hexp]. apply String.eqb_eq in Hk. subst kq.
    rewrite (get_in c' k wq Hnd' Hq) in Hget'. injection Hget' as ->.
    unfold e in Hexp. rewrite not_expired_now in Hexp. discriminate. }
  assert (Hget1 : get (filter P1 c') k = Some e) by (rewrite get_filter by exact HP1; exact Hget').
  destruct (Nat.ltb MAX_CACHE_SIZE (List.length (filter P1 c'))) eqn:Hlt; [|exact Hget1].
  apply Nat.ltb_lt in Hlt.
  pose proof (filter_length_le P1 c') as Hle.
  pose proof (set_length c k e) as Hsl. fold c' in Hsl.
  destruct (existsb (String.eqb k) (map fst c)) eqn:Hk; [lia|].
  assert (Hfull : filter P1 c' = c') by (apply filter_length_eq; lia).
  assert (Hnin : ~ In k (map fst c)).
  { intros H. apply existsb_eqb_in in H. congruence. }
  rewrite Hfull in *.
  assert (Hc' : c' = (c ++ [(k, e)])%list) by (apply set_new, Hnin).
  destruct (sort_ts_snoc_head c (k, e)) as (y & r & Hs & _ & Hy).
  { intros ->. unfold MAX_CACHE_SIZE in Hlt. rewrite Hc' in Hlt. simpl in Hlt. lia. }
  { exact Hnf. }
  rewrite delete_keys, get_filter; [exact Hget'|].
  intros w.
  replace (List.length c' - MAX_CACHE_SIZE)%nat with 1%nat
    by (rewrite Hsl; unfold MAX_CACHE_SIZE in *; lia).
  rewrite Hc', Hs. simpl. rewrite orb_false_r. apply negb_true_iff.
  destruct (String.eqb_spec k (fst y)); [|reflexivity].
  exfalso. apply Hnin. rewrite e0. apply in_map, Hy.
Qed.

(** A write stamped [now] followed by its cleanup keeps [cache_ok], at [now]
    and any later time. *)
Lemma cleanup_write_ok now now' c k v :
  cache_ok now c = true -> now <= now' ->
  cache_ok now' (cleanup now (set c k (mkEntry v now))) = true.
Proof.
  intros Hok Hnow. unfold cache_ok in *.
  apply andb_true_iff in Hok as [Hok Hnf]. apply andb_true_iff in Hok as [Hkd _].
  destruct (cleanup_filter now (set c k (mkEntry v now))) as [P HP].
  rewrite andb_true_iff, andb_true_iff. split; [split|].
  - rewrite HP. apply NoDup_keys_distinct, NoDup_map_filter, set_NoDup, keys_distinct_NoDup, Hkd.
  - apply Nat.leb_le, cleanup_length.
  - rewrite HP. apply forallb_filter. unfold not_future in *.
    apply forallb_forall. intros p Hp. apply set_in in Hp as [->|Hp].
    + simpl. apply Z.leb_le. exact Hnow.
    + rewrite forallb_forall in Hnf. specialize (Hnf p Hp). apply Z.leb_le in Hnf.
      apply Z.leb_le. lia.
Qed.

(** With [MAX_CACHE_SIZE] unexpired entries and a new key, the cleanup after
    the write removes one entry of least timestamp, an old one, and nothing
    else. *)
Lemma cleanup_evicts_oldest now c k v :
  keys_distinct c = true -> List.length c = MAX_CACHE_SIZE ->
  none_expired now c = true -> not_future now c = true ->
  existsb (String.eqb k) (map fst c) = false ->
  exists k0 e0,
    In (k0, e0) c /\
    (forall p, In p (set c k (mkEntry v now)) -> timestamp e0 <= timestamp (snd p)) /\
    cleanup now (set c k (mkEntry v now)) = delete (set c k (mkEntry v now)) k0 /\
    List.length (cleanup now (set c k (mkEntry v now))) = MAX_CACHE_SIZE.
Proof.
  intros Hkd Hlen Hne Hnf Hk.
  assert (Hnin : ~ In k (map fst c)).
  { intros H. apply existsb_eqb_in in H. congruence. }
  set (e := mkEntry v now).
  assert (Hc' : set c k e = (c ++ [(k, e)])%list) by (apply set_new, Hnin).
  assert (Hnd' : NoDup (map fst (set c k e))) by (apply set_NoDup, keys_distinct_NoDup, Hkd).
  destruct (sort_ts_snoc_head c (k, e)) as (y & r & Hs & Hsc & Hy).
  { intros ->. unfold MAX_CACHE_SIZE in Hlen. discriminate. }
  { exact Hnf. }
  destruct y as [k0 e0].
  exists k0, e0.
  assert (Hcl : cleanup now (set c k e) = delete (set c k e) k0).
  { unfold cleanup. rewrite expire_fold.
    rewrite filter_all_true.
    2:{ intros p _. apply negb_true_iff, not_true_iff_false. intros Hex.
        apply existsb_exists in Hex as (q & Hq & Hb). apply andb_true_iff in Hb as [_ Hexp].
        rewrite Hc' in Hq. apply in_app_or in Hq as [Hq|[<-|[]]].
        - unfold none_expired in Hne. rewrite forallb_forall in Hne.
          specialize (Hne q Hq). rewrite Hexp in Hne. discriminate.
        - unfold e in Hexp. simpl in Hexp. rewrite not_expired_now in Hexp. discriminate. }
    rewrite Hc', length_app, Hlen. simpl.
    rewrite Hs. reflexivity. }
  split; [exact Hy|]. split; [|split; [exact Hcl|]].
  - intros p Hp. rewrite Hc' in Hp. apply in_app_or in Hp as [Hp|[<-|[]]].
    + apply (sort_ts_head_min (k0, e0) r c Hsc p Hp).
    + simpl. unfold not_future in Hnf. rewrite forallb_forall in Hnf.
      specialize (Hnf _ Hy). apply Z.leb_le in Hnf. exact Hnf.
  - rewrite Hcl. rewrite (delete_length (set c k e) k0 e0 Hnd').
    + rewrite Hc', length_app, Hlen. reflexivity.
    + rewrite Hc'. apply in_or_app. left. exact Hy.
Qed.

End CacheLemmas.

(* ------------------------------------------------------------------ *)
(** ** Runs of the resolvers *)

Section ResolverRuns.
Import Resolver.

Ltac run_out :=
  repeat (cbn beta iota zeta;
          match goal with
          | |- context [match ?x with _ => _ end] => destruct x
          end).

Lemma getMufgCompanyId_miss env ipoName s :
  fresh env (get (mufgCompanyIdCache s) (trim (toLowerCase ipoName))) = None ->
  exists v, getMufgCompanyId env ipoName s =
    (inr v, mkSt (bigshareCompanyIdCache s)
                 (cleanup (now env) (set (mufgCompanyIdCache s) (trim (toLowerCase ipoName))
                                         (mkEntry v (now env))))
                 (purvaCompanyIdCache s)
                 (requests s ++ [mkRequest mufg_companies_url []])%list).
Proof.
  intros Hmiss.
  unfold getMufgCompanyId, bind, get_st, try_catch, http, http_with,
    upd_mufg, ret, throw.
  cbn beta iota zeta. rewrite Hmiss.
  destruct (mufg_listing env) as [e|[| |tables]]; cbn beta iota zeta.
  all: try (eexists; reflexivity).
  destruct (find _ _) as [[n cid]|]; cbn beta iota zeta; eexists; reflexivity.
Qed.

Lemma getPurvaCompanyId_miss env ipoName s :
  fresh env (get (purvaCompanyIdCache s) (trim (toLowerCase ipoName))) = None ->
  exists v, getPurvaCompanyId env ipoName s =
    (inr v, mkSt (bigshareCompanyIdCache s) (mufgCompanyIdCache s)
                 (cleanup (now env) (set (purvaCompanyIdCache s) (trim (toLowerCase ipoName))
                                         (mkEntry v (now env))))
                 (requests s ++ [mkRequest purva_url []])%list).
Proof.
  intros Hmiss.
  unfold getPurvaCompanyId, bind, get_st, try_catch, http, http_with,
    upd_purva, ret, throw.
  cbn beta iota zeta. rewrite Hmiss.
  destruct (purva_listing env) as [e|opts]; cbn beta iota zeta; [eexists; reflexivity|].
  destruct (find_value _ _); cbn beta iota zeta; eexists; reflexivity.
Qed.

Lemma getBigshareCompanyId_miss env ipoName s :
  fresh env (get (bigshareCompanyIdCache s) (trim (toLowerCase ipoName))) = None ->
  exists v rs, getBigshareCompanyId env ipoName s =
    (inr v, mkSt (cleanup (now env) (set (bigshareCompanyIdCache s) (trim (toLowerCase ipoName))
                                         (mkEntry v (now env))))
                 (mufgCompanyIdCache s) (purvaCompanyIdCache s)
                 (requests s ++ rs)%list) /\
    (1 <= List.length rs <= 2)%nat.
Proof.
  intros Hmiss.
  unfold getBigshareCompanyId, bigshare_try, bigshare_urls, bind, get_st, try_catch,
    http, http_with, upd_big, ret, throw.
  cbn beta iota zeta. rewrite Hmiss.
  repeat (match goal with
          | |- context [bigshare_listing env ?u] => destruct (bigshare_listing env u)
          | |- context [scan_selectors ?a ?b] => destruct (scan_selectors a b)
          end; cbn beta iota zeta).
  all: cbn [bigshareCompanyIdCache mufgCompanyIdCache purvaCompanyIdCache requests].
  all: repeat rewrite <- app_assoc; cbn [app].
  all: eexists _, _; split; [reflexivity | simpl; lia].
Qed.

(** A fresh entry answers without any request or change of state. *)
Lemma getBigshareCompanyId_hit env ipoName s e :
  fresh env (get (bigshareCompanyIdCache s) (trim (toLowerCase ipoName))) = Some e ->
  getBigshareCompanyId env ipoName s = (inr (id e), s).
Proof. intros H. unfold getBigshareCompanyId, bind, get_st. cbn beta iota zeta. rewrite H. reflexivity. Qed.

Lemma getMufgCompanyId_hit env ipoName s e :
  fresh env (get (mufgCompanyIdCache s) (trim (toLowerCase ipoName))) = Some e ->
  getMufgCompanyId env ipoName s = (inr (id e), s).
Proof. intros H. unfold getMufgCompanyId, bind, get_st. cbn beta iota zeta. rewrite H. reflexivity. Qed.

Lemma getPurvaCompanyId_hit env ipoName s e :
  fresh env (get (purvaCompanyIdCache s) (trim (toLowerCase ipoName))) = Some e ->
  getPurvaCompanyId env ipoName s = (inr (id e), s).
Proof. intros H. unfold getPurvaCompanyId, bind, get_st. cbn beta iota zeta. rewrite H. reflexivity. Qed.

(** The entry written at [now] by a miss is fresh at any time less than a
    day later. *)
Lemma fresh_after_write env' t c k v :
  CacheProps.cache_ok t c = true -> now env' - t < CACHE_DURATION ->
  fresh env' (get (cleanup t (set c k (mkEntry v t))) k) = Some (mkEntry v t).
Proof.
  intros Hok Hlt. rewrite cleanup_keeps_fresh_write by exact Hok.
  unfold fresh. simpl. apply Z.ltb_lt in Hlt. rewrite Hlt. reflexivity.
Qed.

End ResolverRuns.

(** ** Runs of the Cameo checker *)

Section CameoRuns.
Import Checkers Scenarios.

Lemma cameo_submit_all_captcha env req ep page code captchas s :
  (forall form, exists raw dom,
     cameo_post env ep form = inr (CHtml raw dom) /\ includes raw captcha_marker = true) ->
  exists s', cameo_submit env req ep page code captchas s = (inr captcha_required_response, s').
Proof.
  intros Hpost. revert s. induction captchas as [|c rest IH]; intros s.
  - exists s. reflexivity.
  - destruct (Hpost (cameo_form page code (panNo req) c)) as (raw & dom & Hp & Hm).
    cbn [cameo_submit]. unfold bind at 1, try_catch, http_with.
    rewrite Hp. mred. unfold bind. rewrite Hm. mred. apply IH.
Qed.

Lemma cameo_submit_appends env req ep page code captchas :
  Appends (cameo_submit env req ep page code captchas).
Proof.
  induction captchas as [|c cs IH]; cbn [cameo_submit]; [apply appends_ret|].
  apply appends_bind; [|intros [r|]; [apply appends_ret | exact IH]].
  apply appends_try; [|intros; apply appends_ret].
  apply appends_bind; [apply appends_http_with|].
  intros [|raw dom]; [apply appends_throw|].
  destruct (includes raw captcha_marker); apply appends_ret.
Qed.

Lemma cameo_endpoint_appends env req ep : Appends (cameo_endpoint env req ep).
Proof.
  unfold cameo_endpoint, http. apply appends_bind; [apply appends_http_with|].
  intros page. destruct (negb _); [apply appends_ret|]. cbv zeta.
  destruct (if truthy _ then _ else _) as [code|]; [|apply appends_ret].
  apply appends_bind; [apply cameo_submit_appends | intros; apply appends_ret].
Qed.

Lemma cameo_loop_appends env req eps : Appends (cameo_loop env req eps).
Proof.
  induction eps as [|ep eps IH]; cbn [cameo_loop]; [apply appends_ret|].
  apply appends_bind; [|intros [r|]; [apply appends_ret | exact IH]].
  apply appends_try; [apply cameo_endpoint_appends | intros; apply appends_ret].
Qed.

End CameoRuns.

(* ================================================================== *)
(** * The claims *)

Section DispatcherClaims.
Import Checkers Dispatcher Scenarios.

(** C1: for every environment, request and state, [checkAllRegistrars]
    returns (never throws) a list with one response per entry of
    [registrarCheckers], whose registrars are, in order, bigshare, kfintech,
    linkintime, skyline, cameo, mas, maashitla, beetal, purva, mufg.  For any
    table of checkers, the loop returns one entry per table entry, and a
    checker that throws from every state contributes at its index the entry
    [success = false], its registrar's name, status ["error"] and the
    exception's message. *)
Theorem checkAllRegistrars_one_result_per_registrar :
  (forall env req s, exists results s',
     checkAllRegistrars env req s = (inr results, s') /\
     map registrar results =
       ["bigshare"; "kfintech"; "linkintime"; "skyline"; "cameo"; "mas";
        "maashitla"; "beetal"; "purva"; "mufg"]) /\
  (forall table env req s, exists results s',
     check_all_loop table env req s = (inr results, s') /\
     List.length results = List.length table /\
     (forall i r chk, nth_error table i = Some (r, chk) -> always_throws (chk env req) ->
        exists msg, nth_error results i =
                      Some (mkResp false (registrar_name r) "error" (Some msg) None))).
Proof.
  split.
  - intros env req s.
    destruct (check_all_loop_run registrarCheckers env req s) as (results & s' & Hrun & _ & _).
    exists results, s'. split; [exact Hrun|].
    pose proof (check_all_loop_registrars registrarCheckers env req
                  (registrarCheckers_tagged env req) s) as H.
    rewrite Hrun in H. exact H.
  - intros table env req s.
    destruct (check_all_loop_run table env req s) as (results & s' & Hrun & Hlen & Hent).
    exists results, s'. split; [exact Hrun|]. split; [exact Hlen|].
    intros i r chk Hi Hthrow.
    destruct (Hent i r chk Hi) as [(s0 & Hs0) | (s0 & e & _ & He)].
    + destruct (Hthrow s0) as (e & s1 & Hs1). rewrite Hs1 in Hs0. discriminate.
    + exists (message e). exact He.
Qed.

(** C1, at a concrete input: with the KFintech checker replaced by one whose
    request times out, the loop still returns ten entries, the second being
    KFintech's error entry. *)
Lemma checkAllRegistrars_timeout_witness :
  always_throws (timeout_checker (env_down 0) req0) /\
  exists results s',
    check_all_loop timeout_table (env_down 0) req0 st0 = (inr results, s') /\
    List.length results = 10%nat /\
    exists msg, nth_error results 1%nat = Some (mkResp false "kfintech" "error" (Some msg) None).
Proof.
  split; [intros s; exists (mkExn "timeout of 30000ms exceeded" None), s; reflexivity|].
  destruct (proj2 checkAllRegistrars_one_result_per_registrar timeout_table (env_down 0) req0 st0)
    as (results & s' & Hrun & Hlen & Hthrow).
  exists results, s'. split; [exact Hrun|]. split; [exact Hlen|].
  apply (Hthrow 1%nat kfintech timeout_checker); [reflexivity|].
  intros s; exists (mkExn "timeout of 30000ms exceeded" None), s; reflexivity.
Defined.

(** C2 (as the code has it): every status of a [checkAllRegistrars] entry is
    one of the nine strings of [code_statuses]; each of them spells a
    [StatusKind] except ["parse_needed"], written by the generic HTML
    checker.  The services-file KFintech checker reports a non-empty upstream
    status string as it is, whatever it says. *)
Theorem checkAllRegistrars_status_strings :
  (forall env req s,
     match fst (checkAllRegistrars env req s) with
     | inr results =>
         Forall (fun r => In (status r) code_statuses /\
                          (status_kind (status r) <> None \/ status r = "parse_needed")) results
     | inl _ => False
     end) /\
  (forall env req s st,
     st <> "" ->
     legacy_post env LegacyService.legacy_kfintech_url = inr (Some st) ->
     exists r, fst (LegacyService.checkKfintech env req s) = inr r /\ status r = st).
Proof.
  split.
  - intros env req s.
    pose proof (check_all_loop_statuses registrarCheckers env req
                  (registrarCheckers_tagged env req) s) as H.
    unfold checkAllRegistrars.
    destruct (fst (check_all_loop registrarCheckers env req s)) as [e|results]; [exact H|].
    eapply Forall_impl; [|exact H].
    intros r Hr. split; [exact Hr | apply code_statuses_kind, Hr].
  - intros env req s st Hne Hpost.
    unfold LegacyService.checkKfintech, try_catch, bind, http_with, ret.
    rewrite Hpost. cbn.
    eexists. split; [reflexivity|]. cbn.
    destruct (String.eqb_spec st ""); [contradiction | reflexivity].
Qed.

(** C2, the services-file side at a concrete input. *)
Lemma checkAllRegistrars_status_strings_witness :
  "Refund Processed" <> "" /\
  legacy_post env_legacy LegacyService.legacy_kfintech_url = inr (Some "Refund Processed") /\
  exists r, fst (LegacyService.checkKfintech env_legacy req0 st0) = inr r /\
            status r = "Refund Processed".
Proof.
  split; [discriminate|]. split; [reflexivity|].
  apply (proj2 checkAllRegistrars_status_strings env_legacy req0 st0 "Refund Processed");
    [discriminate | reflexivity].
Defined.

(** C2 fails: when the Skyline page answers, the Skyline entry of the batch
    has status ["parse_needed"], which is none of the seven kinds (as do
    MAS, Maashitla and Beetal). *)
Lemma checkAllRegistrars_parse_needed :
  match fst (checkAllRegistrars env_html_ok req0 st0) with
  | inr results =>
      map status results =
        ["error"; "Error"; "error"; "parse_needed"; "error"; "parse_needed";
         "parse_needed"; "parse_needed"; "error"; "error"] /\
      nth_error (map registrar results) 3%nat = Some "skyline" /\
      status_kind "parse_needed" = None
  | inl _ => False
  end.
Proof. vm_compute. split; [reflexivity | split; reflexivity]. Qed.

End DispatcherClaims.

Section ResolverClaims.
Import Resolver Scenarios.

(** C9: the three resolvers never throw, whatever the environment and the
    state; when the key has no fresh cache entry and every listing fetch
    fails, each returns [None] and its cache becomes the cleanup of the old
    one with the negative entry [(key, None, now)] written. *)
Theorem resolvers_never_throw_and_cache_null :
  (forall env ipoName,
     Safe (getBigshareCompanyId env ipoName) (fun _ => True) /\
     Safe (getMufgCompanyId env ipoName) (fun _ => True) /\
     Safe (getPurvaCompanyId env ipoName) (fun _ => True)) /\
  (forall env ipoName s e1 e2 e3 e4,
     fresh env (get (bigshareCompanyIdCache s) (trim (toLowerCase ipoName))) = None ->
     fresh env (get (mufgCompanyIdCache s) (trim (toLowerCase ipoName))) = None ->
     fresh env (get (purvaCompanyIdCache s) (trim (toLowerCase ipoName))) = None ->
     bigshare_listing env "https://ipo.bigshareonline.com/" = inl e1 ->
     bigshare_listing env "https://ipo.bigshareonline.com/Default.aspx" = inl e2 ->
     mufg_listing env = inl e3 ->
     purva_listing env = inl e4 ->
     fst (getBigshareCompanyId env ipoName s) = inr None /\
     bigshareCompanyIdCache (snd (getBigshareCompanyId env ipoName s)) =
       cleanup (now env) (set (bigshareCompanyIdCache s) (trim (toLowerCase ipoName))
                              (mkEntry None (now env))) /\
     fst (getMufgCompanyId env ipoName s) = inr None /\
     mufgCompanyIdCache (snd (getMufgCompanyId env ipoName s)) =
       cleanup (now env) (set (mufgCompanyIdCache s) (trim (toLowerCase ipoName))
                              (mkEntry None (now env))) /\
     fst (getPurvaCompanyId env ipoName s) = inr None /\
     purvaCompanyIdCache (snd (getPurvaCompanyId env ipoName s)) =
       cleanup (now env) (set (purvaCompanyIdCache s) (trim (toLowerCase ipoName))
                              (mkEntry None (now env)))).
Proof.
  split.
  - intros env ipoName.
    split; [apply getBigshareCompanyId_safe|].
    split; [apply getMufgCompanyId_safe | apply getPurvaCompanyId_safe].
  - intros env ipoName s e1 e2 e3 e4 Hb Hm Hp H1 H2 H3 H4.
    unfold getBigshareCompanyId, getMufgCompanyId, getPurvaCompanyId,
      bigshare_try, bigshare_urls, bind, get_st, try_catch, http, http_with,
      upd_big, upd_mufg, upd_purva, ret.
    cbn beta iota zeta.
    rewrite Hb, Hm, Hp. cbn beta iota.
    rewrite H1. cbn beta iota. rewrite H2. cbn beta iota.
    rewrite H3, H4. cbn.
    repeat split.
Qed.

(** C9, at a concrete input: everything unreachable, empty caches. *)
Lemma resolvers_all_down_witness :
  fresh (env_down 0) (get [] "midwest limited") = None /\
  bigshare_listing (env_down 0) "https://ipo.bigshareonline.com/" = inl refused /\
  fst (getBigshareCompanyId (env_down 0) "Midwest Limited" st0) = inr None /\
  bigshareCompanyIdCache (snd (getBigshareCompanyId (env_down 0) "Midwest Limited" st0)) =
    cleanup 0 (set [] "midwest limited" (mkEntry None 0)) /\
  fst (getMufgCompanyId (env_down 0) "Midwest Limited" st0) = inr None /\
  fst (getPurvaCompanyId (env_down 0) "Midwest Limited" st0) = inr None.
Proof.
  split; [reflexivity|]. split; [reflexivity|].
  destruct (proj2 resolvers_never_throw_and_cache_null (env_down 0) "Midwest Limited" st0
              refused refused refused refused)
    as (Hb & Hbc & Hm & _ & Hp & _); try reflexivity.
  split; [exact Hb|]. split; [exact Hbc|]. split; [exact Hm | exact Hp].
Defined.

End ResolverClaims.

Section CacheClaims.
Import Resolver CacheProps Scenarios.

(** C3 (as the code has it): let a resolver find no fresh entry for a name,
    in a cache with distinct keys, at most 1000 entries and no timestamp
    after [now].  The call fetches the listing (MUFG and Purva: one request;
    BigShare: one request per page tried, at most two) and caches its
    result, positive or negative.  A second call for the same name less than
    24 hours later then makes no request, returns the same value and leaves
    the state unchanged. *)
Theorem resolver_second_call_cached :
  (forall env env' ipoName s,
     cache_ok (now env) (bigshareCompanyIdCache s) = true ->
     fresh env (get (bigshareCompanyIdCache s) (trim (toLowerCase ipoName))) = None ->
     now env' - now env < CACHE_DURATION ->
     getBigshareCompanyId env' ipoName (snd (getBigshareCompanyId env ipoName s)) =
       getBigshareCompanyId env ipoName s /\
     (List.length (requests (snd (getBigshareCompanyId env ipoName s)))
        <= List.length (requests s) + 2)%nat) /\
  (forall env env' ipoName s,
     cache_ok (now env) (mufgCompanyIdCache s) = true ->
     fresh env (get (mufgCompanyIdCache s) (trim (toLowerCase ipoName))) = None ->
     now env' - now env < CACHE_DURATION ->
     getMufgCompanyId env' ipoName (snd (getMufgCompanyId env ipoName s)) =
       getMufgCompanyId env ipoName s /\
     List.length (requests (snd (getMufgCompanyId env ipoName s)))
       = S (List.length (requests s))) /\
  (forall env env' ipoName s,
     cache_ok (now env) (purvaCompanyIdCache s) = true ->
     fresh env (get (purvaCompanyIdCache s) (trim (toLowerCase ipoName))) = None ->
     now env' - now env < CACHE_DURATION ->
     getPurvaCompanyId env' ipoName (snd (getPurvaCompanyId env ipoName s)) =
       getPurvaCompanyId env ipoName s /\
     List.length (requests (snd (getPurvaCompanyId env ipoName s)))
       = S (List.length (requests s))).
Proof.
  split; [|split].
  - intros env env' ipoName s Hok Hmiss Hlt.
    destruct (getBigshareCompanyId_miss env ipoName s Hmiss) as (v & rs & Hrun & Hrs).
    rewrite Hrun. cbn [snd requests]. split.
    + apply (getBigshareCompanyId_hit env' ipoName _ (mkEntry v (now env))).
      apply fresh_after_write; assumption.
    + rewrite length_app. lia.
  - intros env env' ipoName s Hok Hmiss Hlt.
    destruct (getMufgCompanyId_miss env ipoName s Hmiss) as (v & Hrun).
    rewrite Hrun. cbn [snd requests]. split.
    + apply (getMufgCompanyId_hit env' ipoName _ (mkEntry v (now env))).
      apply fresh_after_write; assumption.
    + rewrite length_app. simpl. lia.
  - intros env env' ipoName s Hok Hmiss Hlt.
    destruct (getPurvaCompanyId_miss env ipoName s Hmiss) as (v & Hrun).
    rewrite Hrun. cbn [snd requests]. split.
    + apply (getPurvaCompanyId_hit env' ipoName _ (mkEntry v (now env))).
      apply fresh_after_write; assumption.
    + rewrite length_app. simpl. lia.
Qed.

(** C3, at a concrete input: with every site down, a MUFG lookup and a
    second one a second later. *)
Lemma resolver_second_call_cached_witness :
  cache_ok 0 [] = true /\
  fresh (env_down 0) (get [] "midwest limited") = None /\
  1000 - 0 < CACHE_DURATION /\
  getMufgCompanyId (env_down 1000) "Midwest Limited"
    (snd (getMufgCompanyId (env_down 0) "Midwest Limited" st0)) =
    getMufgCompanyId (env_down 0) "Midwest Limited" st0.
Proof.
  split; [reflexivity|]. split; [reflexivity|]. split; [reflexivity|].
  apply (proj1 (proj2 resolver_second_call_cached) (env_down 0) (env_down 1000)
           "Midwest Limited" st0); reflexivity.
Defined.

(** C3 fails for BigShare: two lookups of a name that neither BigShare page
    lists make two listing requests (one per page, both in the first call). *)
Lemma bigshare_two_listing_fetches :
  map req_url (requests (snd (getBigshareCompanyId (env_down 0) "Midwest Limited"
                   (snd (getBigshareCompanyId (env_down 0) "Midwest Limited" st0))))) =
    ["https://ipo.bigshareonline.com/"; "https://ipo.bigshareonline.com/Default.aspx"].
Proof. vm_compute. reflexivity. Qed.

(** C4 (as the code has it): a cleanup leaves at most 1000 entries, so every
    resolver leaves its cache with at most 1000 entries when it had at most
    1000; a write stamped [now] and its cleanup keep the cache invariant; and
    when a new key is written into a cache of 1000 distinct, unexpired
    entries, the cleanup removes exactly one entry, one of least timestamp
    among the old ones, leaving 1000. *)
Theorem cleanup_capacity :
  (forall now c, (List.length (cleanup now c) <= MAX_CACHE_SIZE)%nat) /\
  (forall env ipoName s,
     (List.length (purvaCompanyIdCache s) <= MAX_CACHE_SIZE)%nat ->
     (List.length (mufgCompanyIdCache s) <= MAX_CACHE_SIZE)%nat ->
     (List.length (bigshareCompanyIdCache s) <= MAX_CACHE_SIZE)%nat ->
     (List.length (purvaCompanyIdCache (snd (getPurvaCompanyId env ipoName s)))
        <= MAX_CACHE_SIZE)%nat /\
     (List.length (mufgCompanyIdCache (snd (getMufgCompanyId env ipoName s)))
        <= MAX_CACHE_SIZE)%nat /\
     (List.length (bigshareCompanyIdCache (snd (getBigshareCompanyId env ipoName s)))
        <= MAX_CACHE_SIZE)%nat) /\
  (forall now now' c k v,
     cache_ok now c = true -> now <= now' ->
     cache_ok now' (cleanup now (set c k (mkEntry v now))) = true) /\
  (forall now c k v,
     keys_distinct c = true -> List.length c = MAX_CACHE_SIZE ->
     none_expired now c = true -> not_future now c = true ->
     existsb (String.eqb k) (map fst c) = false ->
     exists k0 e0,
       In (k0, e0) c /\
       (forall p, In p (set c k (mkEntry v now)) -> timestamp e0 <= timestamp (snd p)) /\
       cleanup now (set c k (mkEntry v now)) = delete (set c k (mkEntry v now)) k0 /\
       List.length (cleanup now (set c k (mkEntry v now))) = MAX_CACHE_SIZE).
Proof.
  split; [exact cleanup_length|]. split; [|split; [exact cleanup_write_ok | exact cleanup_evicts_oldest]].
  intros env ipoName s Hp Hm Hb. split; [|split].
  - destruct (fresh env (get (purvaCompanyIdCache s) (trim (toLowerCase ipoName)))) as [e|] eqn:H.
    + rewrite (getPurvaCompanyId_hit env ipoName s e H). exact Hp.
    + destruct (getPurvaCompanyId_miss env ipoName s H) as (v & ->). apply cleanup_length.
  - destruct (fresh env (get (mufgCompanyIdCache s) (trim (toLowerCase ipoName)))) as [e|] eqn:H.
    + rewrite (getMufgCompanyId_hit env ipoName s e H). exact Hm.
    + destruct (getMufgCompanyId_miss env ipoName s H) as (v & ->). apply cleanup_length.
  - destruct (fresh env (get (bigshareCompanyIdCache s) (trim (toLowerCase ipoName)))) as [e|] eqn:H.
    + rewrite (getBigshareCompanyId_hit env ipoName s e H). exact Hb.
    + destruct (getBigshareCompanyId_miss env ipoName s H) as (v & rs & -> & _). apply cleanup_length.
Qed.

(** C4, at a concrete input: the 1000 entries of [full_cache] at time 1000
    and the new name "new vision limited". *)
Lemma cleanup_capacity_witness :
  keys_distinct full_cache = true /\ List.length full_cache = MAX_CACHE_SIZE /\
  none_expired 1000 full_cache = true /\ not_future 1000 full_cache = true /\
  existsb (String.eqb "new vision limited") (map fst full_cache) = false /\
  List.length (cleanup 1000 (set full_cache "new vision limited" (mkEntry (Some "42") 1000)))
    = MAX_CACHE_SIZE.
Proof.
  split; [vm_compute; reflexivity|]. split; [vm_compute; reflexivity|].
  split; [vm_compute; reflexivity|]. split; [vm_compute; reflexivity|].
  split; [vm_compute; reflexivity|].
  destruct (proj2 (proj2 (proj2 cleanup_capacity)) 1000 full_cache "new vision limited" (Some "42"))
    as (k0 & e0 & _ & _ & _ & Hlen);
    first [exact Hlen | vm_compute; reflexivity].
Defined.

(** C4 fails: a Purva lookup that resolves a new name while its cache holds
    1000 entries, two of them more than a day old, leaves 999 entries, not
    1000: the expired entries go, and no entry is evicted by age. *)
Lemma purva_write_leaves_999 :
  List.length (purvaCompanyIdCache state_full_purva) = 1000%nat /\
  fst (getPurvaCompanyId env_purva_new "New Vision Limited" state_full_purva) = inr (Some "42") /\
  List.length (purvaCompanyIdCache
                 (snd (getPurvaCompanyId env_purva_new "New Vision Limited" state_full_purva)))
    = 999%nat.
Proof. vm_compute. split; [reflexivity | split; reflexivity]. Qed.

End CacheClaims.

Section MatchingClaims.
Import Resolver Scenarios.

(** C5: on a cache miss each resolver decides with its own rule.  BigShare
    returns the first option found by [scan_selectors], which runs the
    ladder of exact equality, containment either way, containment after
    stripping corporate suffixes, and token overlap.  MUFG returns the
    company id of the first XML table satisfying [mufg_company_matches]
    (raw or alphanumeric-normalised containment either way), and Purva
    returns the value of the first option satisfying [purva_option_matches]
    (the option text contains the query).  Neither of the last two has
    the suffix-stripping or token-overlap steps. *)
Theorem resolver_matching_rules :
  (forall env ipoName s page companyId,
     fresh env (get (bigshareCompanyIdCache s) (trim (toLowerCase ipoName))) = None ->
     bigshare_listing env "https://ipo.bigshareonline.com/" = inr page ->
     scan_selectors (trim (toLowerCase ipoName)) page = Some companyId ->
     fst (getBigshareCompanyId env ipoName s) = inr (Some companyId)) /\
  (forall env ipoName s tables,
     fresh env (get (mufgCompanyIdCache s) (trim (toLowerCase ipoName))) = None ->
     mufg_listing env = inr (MLXml tables) ->
     fst (getMufgCompanyId env ipoName s) =
       inr (option_map snd (find (mufg_company_matches (trim (toLowerCase ipoName))) tables))) /\
  (forall env ipoName s opts,
     fresh env (get (purvaCompanyIdCache s) (trim (toLowerCase ipoName))) = None ->
     purva_listing env = inr opts ->
     fst (getPurvaCompanyId env ipoName s) =
       inr (find_value (purva_option_matches ipoName) opts)).
Proof.
  split; [|split].
  - intros env ipoName s page companyId Hmiss Hl Hscan.
    unfold getBigshareCompanyId, bigshare_try, bigshare_urls, bind, get_st, try_catch,
      http, http_with, upd_big, ret.
    cbn beta iota zeta. rewrite Hmiss, Hl. cbn beta iota zeta. rewrite Hscan. reflexivity.
  - intros env ipoName s tables Hmiss Hl.
    unfold getMufgCompanyId, bind, get_st, try_catch, http, http_with, upd_mufg, ret.
    cbn beta iota zeta. rewrite Hmiss, Hl. cbn beta iota zeta.
    destruct (find _ tables) as [[n cid]|]; reflexivity.
  - intros env ipoName s opts Hmiss Hl.
    unfold getPurvaCompanyId, bind, get_st, try_catch, http, http_with, upd_purva, ret.
    cbn beta iota zeta. rewrite Hmiss, Hl. cbn beta iota zeta.
    destruct (find_value _ opts); reflexivity.
Qed.

(** The three rules applied to a listing that names "ABC Industries Ltd". *)
Lemma resolver_matching_rules_witness :
  scan_selectors "abc industries limited" [[mkOption "ABC Industries Ltd" (Some "42")]] = Some "42" /\
  fst (getBigshareCompanyId env_abc "ABC Industries Limited" st0) = inr (Some "42") /\
  fst (getMufgCompanyId env_abc "ABC Industries Limited" st0) =
    inr (option_map snd (find (mufg_company_matches "abc industries limited")
                              [("ABC Industries Ltd", "42")])).
Proof.
  split; [vm_compute; reflexivity|]. split.
  - apply (proj1 resolver_matching_rules env_abc "ABC Industries Limited" st0
             [[mkOption "ABC Industries Ltd" (Some "42")]] "42");
      vm_compute; reflexivity.
  - apply (proj1 (proj2 resolver_matching_rules) env_abc "ABC Industries Limited" st0
             [("ABC Industries Ltd", "42")]); vm_compute; reflexivity.
Defined.

(** The same query and listing: BigShare matches after stripping
    "Limited"/"Ltd", MUFG and Purva match nothing. *)
Lemma resolvers_disagree_on_ltd :
  fst (getBigshareCompanyId env_abc "ABC Industries Limited" st0) = inr (Some "42") /\
  fst (getMufgCompanyId env_abc "ABC Industries Limited" st0) = inr None /\
  fst (getPurvaCompanyId env_abc "ABC Industries Limited" st0) = inr None.
Proof. vm_compute. split; [reflexivity | split; reflexivity]. Qed.

End MatchingClaims.

Section CheckerClaims.
Import Resolver Checkers Scenarios.

(** C6: the MUFG-style checkers ([checkMufgLike], used for mufg and
    linkintime) call [getMufgCompanyId] first, whatever the identifier:
    on a cache miss the first request is the company listing.  A resolved
    non-empty id is sent as [clientid]; the identifier itself is sent only
    when resolution yields null and the identifier is numeric; when
    resolution yields null and the identifier is not numeric, the check
    answers "No company found for IPO name: ..." and sends nothing after
    the resolution. *)
Theorem mufg_like_resolves_first :
  forall name env req s,
    fresh env (get (mufgCompanyIdCache s) (trim (toLowerCase (ipoName req)))) = None ->
    (exists rest, requests (snd (checkMufgLike name env req s)) =
                  (requests s ++ mkRequest mufg_companies_url [] :: rest)%list) /\
    (forall cid, fst (getMufgCompanyId env (ipoName req) s) = inr (Some cid) -> cid <> "" ->
       exists pre token, requests (snd (checkMufgLike name env req s)) =
         (pre ++ [mkRequest (mufg_base ++ "/Initial_Offer/IPO.aspx/SearchOnPan")
                   [("clientid", cid); ("PAN", panNo req); ("IFSC", ""); ("CHKVAL", "1");
                    ("token", token)]])%list) /\
    (fst (getMufgCompanyId env (ipoName req) s) = inr None -> is_numeric (ipoName req) = true ->
       exists pre token, requests (snd (checkMufgLike name env req s)) =
         (pre ++ [mkRequest (mufg_base ++ "/Initial_Offer/IPO.aspx/SearchOnPan")
                   [("clientid", ipoName req); ("PAN", panNo req); ("IFSC", ""); ("CHKVAL", "1");
                    ("token", token)]])%list) /\
    (fst (getMufgCompanyId env (ipoName req) s) = inr None -> is_numeric (ipoName req) = false ->
       checkMufgLike name env req s =
         (inr (mkResp false name "error" (Some ("No company found for IPO name: " ++ ipoName req)) None),
          snd (getMufgCompanyId env (ipoName req) s))).
Proof.
  intros name env req s Hmiss.
  destruct (getMufgCompanyId_miss env (ipoName req) s Hmiss) as (v & Hrun).
  unfold checkMufgLike, try_catch, bind, http, http_with, ret.
  rewrite Hrun. mred.
  split; [|split; [|split]].
  - destruct (negb (truthy v) && is_numeric (ipoName req))%bool;
      [|destruct v as [cid|]]; mred;
      try destruct (negb (truthy (Some _))); mred;
      try destruct (mufg_token env); mred;
      try destruct (mufg_search env); cbn;
      repeat rewrite <- app_assoc; eexists; reflexivity.
  - intros cid Hv Hne. injection Hv as ->.
    assert (Ht : truthy (Some cid) = true)
      by (unfold truthy; apply negb_true_iff, String.eqb_neq, Hne).
    rewrite Ht. mred.
    destruct (mufg_token env); mred;
      destruct (mufg_search env); mred; rewrite ?Ht; mred.
    all: eexists _, _; reflexivity.
  - intros Hv Hnum. injection Hv as ->. rewrite Hnum. mred.
    assert (Ht : truthy (Some (ipoName req)) = true).
    { unfold truthy. apply negb_true_iff, String.eqb_neq. intros He.
      unfold is_numeric in Hnum. rewrite He in Hnum. discriminate. }
    assert (Hn : truthy None = false) by reflexivity.
    mred. rewrite ?Hn, ?Ht. mred. rewrite ?Hn, ?Ht. mred.
    destruct (mufg_token env); mred;
      destruct (mufg_search env); mred; rewrite ?Ht; mred; eexists _, _; reflexivity.
  - intros Hv Hnum. injection Hv as ->. rewrite Hnum, andb_false_r. reflexivity.
Qed.

(** The listing maps "Foo 123 Ltd" to 77; the query "123" resolves to it,
    the query "Zeta" to nothing. *)
Lemma mufg_like_resolves_first_witness :
  fresh env_mufg_123 (get [] "123") = None /\
  fst (getMufgCompanyId env_mufg_123 "123" st0) = inr (Some "77") /\
  (exists pre token, requests (snd (checkMufgLike "mufg" env_mufg_123 req_123 st0)) =
    (pre ++ [mkRequest (mufg_base ++ "/Initial_Offer/IPO.aspx/SearchOnPan")
              [("clientid", "77"); ("PAN", "ABCDE1234F"); ("IFSC", ""); ("CHKVAL", "1");
               ("token", token)]])%list) /\
  fst (getMufgCompanyId env_mufg_123 "Zeta" st0) = inr None /\
  checkMufgLike "mufg" env_mufg_123 (mkReq "ABCDE1234F" "Zeta") st0 =
    (inr (mkResp false "mufg" "error" (Some "No company found for IPO name: Zeta") None),
     snd (getMufgCompanyId env_mufg_123 "Zeta" st0)).
Proof.
  split; [reflexivity|]. split; [vm_compute; reflexivity|]. split.
  - apply (proj1 (proj2 (mufg_like_resolves_first "mufg" env_mufg_123 req_123 st0
                           ltac:(reflexivity))) "77");
      [vm_compute; reflexivity | discriminate].
  - split; [vm_compute; reflexivity|].
    apply (proj2 (proj2 (proj2 (mufg_like_resolves_first "mufg" env_mufg_123
                                  (mkReq "ABCDE1234F" "Zeta") st0 ltac:(reflexivity)))));
      vm_compute; reflexivity.
Defined.

(** A numeric identifier triggers the listing lookup and is replaced by
    the id it resolves to. *)
Lemma mufg_numeric_name_looked_up :
  is_numeric (ipoName req_123) = true /\
  requests (snd (checkMufg env_mufg_123 req_123 st0)) =
    [mkRequest mufg_companies_url [];
     mkRequest (mufg_base ++ "/Initial_Offer/IPO.aspx/generateToken") [];
     mkRequest (mufg_base ++ "/Initial_Offer/IPO.aspx/SearchOnPan")
       [("clientid", "77"); ("PAN", "ABCDE1234F"); ("IFSC", ""); ("CHKVAL", "1");
        ("token", "tok")]].
Proof. vm_compute. split; reflexivity. Qed.

(** C7: Purva classification.  A table of at most one row gives
    "No Record Found"; with two or more rows the status is "Allotted"
    exactly when some data row has at least six cells and a positive
    integer in its sixth cell, else "Not Allotted"; [checkPurva] reports
    that status once the form yields a CSRF token; the one-row examples
    "0" and "50" give "Not Allotted" and "Allotted". *)
Theorem purva_table_classification :
  (forall rows, (List.length rows <= 1)%nat -> purva_classify (Some rows) = "No Record Found") /\
  (forall rows, (2 <= List.length rows)%nat ->
     purva_classify (Some rows) =
       if existsb (fun cells => (Nat.leb 6 (List.length cells)
                                 && (0 <? parseInt_or_zero (trim (nth 5 cells ""))))%bool)
                  (tl rows)
       then "Allotted" else "Not Allotted") /\
  (forall env req s token table,
     purva_form env = inr (Some token) -> token <> "" -> purva_post env = inr table ->
     fst (checkPurva env req s) = inr (mkResp true "purva" (purva_classify table) None None)) /\
  purva_classify (Some [purva_header; purva_row "0"]) = "Not Allotted" /\
  purva_classify (Some [purva_header; purva_row "50"]) = "Allotted".
Proof.
  split; [|split; [|split; [|split; reflexivity]]].
  - intros rows H. unfold purva_classify. apply Nat.leb_le in H. rewrite H. reflexivity.
  - intros rows H. unfold purva_classify.
    assert (Hl : Nat.leb (List.length rows) 1 = false) by (apply Nat.leb_gt; lia).
    rewrite Hl.
    match goal with |- context [fold_left ?f _ _] => set (step := f) end.
    assert (Hf : forall data has total, 0 <= total -> has = (0 <? total) ->
              let '(h, t) := fold_left step data (has, total) in
              (h && (0 <? t))%bool =
              (has || existsb (fun cells => (Nat.leb 6 (List.length cells)
                                 && (0 <? parseInt_or_zero (trim (nth 5 cells ""))))%bool) data)%bool).
    { assert (Hstep : forall has total cells, step (has, total) cells =
               if Nat.leb 6 (List.length cells) then
                 (if 0 <? parseInt_or_zero (trim (nth 5 cells ""))
                  then (true, total + parseInt_or_zero (trim (nth 5 cells "")))
                  else (has, total))
               else (has, total)) by reflexivity.
      induction data as [|cells data IH]; intros has total Ht Hh; cbn [fold_left existsb].
      - rewrite Hh, orb_false_r. destruct (0 <? total); reflexivity.
      - rewrite Hstep. destruct (Nat.leb 6 (List.length cells)); cbn [andb orb].
        + destruct (0 <? parseInt_or_zero (trim (nth 5 cells ""))) eqn:Hp; cbn [andb orb].
          * apply Z.ltb_lt in Hp. rewrite orb_true_r.
            specialize (IH true (total + parseInt_or_zero (trim (nth 5 cells "")))).
            destruct (fold_left step data _) as [h t].
            rewrite IH; [reflexivity | lia |]. symmetry. apply Z.ltb_lt. lia.
          * apply IH; assumption.
        + apply IH; assumption. }
    specialize (Hf (tl rows) false 0 (Z.le_refl 0) eq_refl).
    destruct (fold_left step (tl rows) (false, 0)) as [h t].
    simpl in Hf. rewrite Hf. reflexivity.
  - intros env req s token table Hform Hne Hpost.
    assert (Ht : truthy (Some token) = true)
      by (unfold truthy; apply negb_true_iff, String.eqb_neq, Hne).
    unfold checkPurva, try_catch, bind, http, http_with, ret.
    rewrite Hform. mred. rewrite Ht. mred.
    destruct (is_numeric (ipoName req)); mred.
    + rewrite Hpost. reflexivity.
    + match goal with
      | |- context [getPurvaCompanyId ?e ?q ?st] =>
          pose proof (getPurvaCompanyId_safe e q st) as Hs;
          destruct (getPurvaCompanyId e q st) as [[?|?] ?]
      end; [contradiction|].
      mred. rewrite Hpost. reflexivity.
Qed.

Lemma purva_table_classification_witness :
  purva_form (env_purva_table "50") = inr (Some "csrf") /\
  fst (checkPurva (env_purva_table "50") req_purva_78 st0) =
    inr (mkResp true "purva" "Allotted" None None).
Proof.
  split; [reflexivity|].
  rewrite (proj1 (proj2 (proj2 purva_table_classification)) (env_purva_table "50") req_purva_78
             st0 "csrf" (Some [purva_header; purva_row "50"]));
    [reflexivity | reflexivity | discriminate | reflexivity].
Defined.

(** C8: when every Cameo submission answers with the captcha marker, the
    captcha loop ends with [captcha_required_response], whose status is
    "captcha_required" (kind [CaptchaRequired], not [Error]) and whose
    success is false; [checkCameo] returns it from the first endpoint that
    serves a page with a view state and a company. *)
Theorem cameo_captcha_exhausted :
  (forall env req ep page code captchas s,
     (forall form, exists raw dom,
        cameo_post env ep form = inr (CHtml raw dom) /\ includes raw captcha_marker = true) ->
     fst (cameo_submit env req ep page code captchas s) = inr captcha_required_response) /\
  (forall env req s page c,
     (forall ep form, exists raw dom,
        cameo_post env ep form = inr (CHtml raw dom) /\ includes raw captcha_marker = true) ->
     cameo_get env "https://ipostatus1.cameoindia.com/" = inr page ->
     truthy (viewState page) = true ->
     first_company (build_companies (drpCompany page)) = Some c -> c <> "" ->
     fst (checkCameo env req s) = inr captcha_required_response) /\
  status_kind (status captcha_required_response) = Some CaptchaRequired /\
  success captcha_required_response = false.
Proof.
  split; [|split; [|split; reflexivity]].
  - intros env req ep page code captchas s Hpost.
    destruct (cameo_submit_all_captcha env req ep page code captchas s Hpost) as (s' & ->).
    reflexivity.
  - intros env req s page c Hpost Hget Hvs Hfirst Hne.
    assert (Hc : truthy (Some c) = true)
      by (unfold truthy; apply negb_true_iff, String.eqb_neq, Hne).
    unfold checkCameo, cameo_endpoint_urls. cbn [cameo_loop].
    unfold cameo_endpoint, bind at 1 2, try_catch, http, http_with.
    rewrite Hget. mred. rewrite Hvs. mred. rewrite Hfirst, Hc. mred.
    destruct (truthy (Some (cameo_company_code (build_companies (drpCompany page)) (ipoName req)))).
    all: cbn beta iota; unfold bind at 1.
    all: match goal with
    | |- context [cameo_submit ?e ?r ?ep ?p ?code ?cs ?st] =>
        destruct (cameo_submit_all_captcha e r ep p code cs st (Hpost ep)) as (s' & Hs);
        rewrite Hs; reflexivity
    end.
Qed.

(** C10: when no company of the dropdown matches the IPO name, Cameo does
    not fail: it submits the form with the first value of the [companies]
    object (the first request after the page), and a non-captcha answer
    is reported as a success with that company code.  That value is the
    first company of the dropdown only when no company name is an
    array index: JavaScript orders such keys ("2024") first. *)
Theorem cameo_falls_back_to_first_entry :
  forall env req s page c,
    cameo_get env "https://ipostatus1.cameoindia.com/" = inr page ->
    truthy (viewState page) = true ->
    cameo_company_code (build_companies (drpCompany page)) (ipoName req) = "" ->
    first_company (build_companies (drpCompany page)) = Some c -> c <> "" ->
    (exists rest, requests (snd (checkCameo env req s)) =
       (requests s ++ mkRequest "https://ipostatus1.cameoindia.com/" []
          :: mkRequest "https://ipostatus1.cameoindia.com/" (cameo_form page c (panNo req) "596407")
          :: rest)%list) /\
    (forall raw dom,
       cameo_post env "https://ipostatus1.cameoindia.com/" (cameo_form page c (panNo req) "596407")
         = inr (CHtml raw dom) ->
       includes raw captcha_marker = false ->
       fst (checkCameo env req s) =
         inr (mkResp true "cameo" (cameo_status dom) None
                (Some ("Used company code: " ++ c ++ ", captcha: 596407")))).
Proof.
  intros env req s page c Hget Hvs Hcode Hfirst Hne.
  assert (Hc : truthy (Some c) = true)
    by (unfold truthy; apply negb_true_iff, String.eqb_neq, Hne).
  split.
  - unfold checkCameo, cameo_endpoint_urls. cbn [cameo_loop].
    match goal with |- context [bind ?m ?k s] =>
      destruct (bind_prefix m k s) as (r1 & ->);
        [intros [resp|];
           [apply appends_ret
           | exact (cameo_loop_appends env req ["https://ipostatus2.cameoindia.com/";
                                                 "https://ipostatus3.cameoindia.com/"])]|]
    end.
    match goal with |- context [try_catch ?m ?h s] =>
      destruct (try_prefix m h s) as (r2 & ->); [intros; apply appends_ret|]
    end.
    unfold cameo_endpoint at 1, bind at 1, http, http_with at 1.
    rewrite Hget. mred. rewrite Hvs. mred. rewrite Hcode.
    change (truthy (Some "")) with false. rewrite Hfirst, Hc. cbn beta iota.
    match goal with |- context [bind ?m ?k ?st] =>
      destruct (bind_prefix m k st) as (r3 & ->); [intros; apply appends_ret|]
    end.
    cbn [cameo_submit captchaStrategies].
    match goal with |- context [bind (try_catch ?m ?h) ?k ?st] =>
      destruct (bind_prefix (try_catch m h) k st) as (r4 & ->);
        [intros [resp|];
           [apply appends_ret
           | exact (cameo_submit_appends env req "https://ipostatus1.cameoindia.com/" page c
                      (tl (captchaStrategies env "https://ipostatus1.cameoindia.com/")))]|];
      destruct (try_prefix m h st) as (r5 & ->); [intros; apply appends_ret|]
    end.
    match goal with |- context [bind (http_with ?u ?f ?r) ?k ?st] =>
      destruct (bind_prefix (http_with u f r) k st) as (r6 & ->);
        [intros [|raw dom]; [apply appends_throw
                            | cbv beta iota; destruct (includes raw captcha_marker); apply appends_ret]|]
    end.
    unfold http_with. cbn [requests snd].
    eexists. rewrite <- !app_assoc. cbn [app]. reflexivity.
  - intros raw dom Hp Hm.
    unfold checkCameo, cameo_endpoint_urls. cbn [cameo_loop].
    unfold cameo_endpoint, bind at 1 2, try_catch, http, http_with.
    rewrite Hget. mred. rewrite Hvs. mred. rewrite Hcode.
    change (truthy (Some "")) with false. rewrite Hfirst, Hc. cbn beta iota.
    unfold bind at 1. cbn [cameo_submit captchaStrategies].
    unfold bind at 1, try_catch, http_with. rewrite Hp. mred. unfold bind, ret. mred. rewrite Hm. reflexivity.
Qed.

(** All captchas rejected at every endpoint. *)
Lemma cameo_captcha_exhausted_witness :
  fst (checkCameo env_cameo_captcha req_zeta st0) = inr captcha_required_response.
Proof.
  apply (proj1 (proj2 cameo_captcha_exhausted) env_cameo_captcha req_zeta st0
           (cameo_page [mkOption "Alpha Ltd" (Some "11")]) "11");
    [ intros ep form; eexists _, _; split; [reflexivity | vm_compute; reflexivity]
    | reflexivity | reflexivity | vm_compute; reflexivity | discriminate ].
Defined.

(** The dropdown lists "Alpha Ltd" (11) then "2024" (12), the name
    "Zeta Fintech" matches neither. *)
Lemma cameo_falls_back_to_first_entry_witness :
  first_company (build_companies (drpCompany
    (cameo_page [mkOption "Alpha Ltd" (Some "11"); mkOption "2024" (Some "12")]))) = Some "12" /\
  fst (checkCameo env_cameo_2024 req_zeta st0) =
    inr (mkResp true "cameo" "Allotted" None (Some "Used company code: 12, captcha: 596407")).
Proof.
  split; [vm_compute; reflexivity|].
  destruct (cameo_falls_back_to_first_entry env_cameo_2024 req_zeta st0
              (cameo_page [mkOption "Alpha Ltd" (Some "11"); mkOption "2024" (Some "12")]) "12")
    as [_ H]; [reflexivity | reflexivity | vm_compute; reflexivity | vm_compute; reflexivity
              | discriminate |].
  rewrite (H "<div id='lblResult'>Allotted</div>" (mkCameoDom [] "Allotted"));
    [vm_compute; reflexivity | reflexivity | vm_compute; reflexivity].
Defined.

(** The first company of the dropdown is "Alpha Ltd" (11), but the form is
    submitted with 12: the array-index key "2024" comes first among the
    values of the [companies] object. *)
Lemma cameo_fallback_not_first_option :
  opt_value (nth 1 (drpCompany
    (cameo_page [mkOption "Alpha Ltd" (Some "11"); mkOption "2024" (Some "12")])) (mkOption "" None))
    = Some "11" /\
  requests (snd (checkCameo env_cameo_2024 req_zeta st0)) =
    [mkRequest "https://ipostatus1.cameoindia.com/" [];
     mkRequest "https://ipostatus1.cameoindia.com/"
       (cameo_form (cameo_page [mkOption "Alpha Ltd" (Some "11"); mkOption "2024" (Some "12")])
                   "12" "ABCDE1234F" "596407")] /\
  fst (checkCameo env_cameo_2024 req_zeta st0) =
    inr (mkResp true "cameo" "Allotted" None (Some "Used company code: 12, captcha: 596407")).
Proof. vm_compute. split; [reflexivity | split; reflexivity]. Qed.

End CheckerClaims.


(* ================================================================== *)
(** * Further properties of the code *)

Section CacheMaintenance.
Import JsString JsNumber IdCache Resolver CacheProps CacheAdmin MoreScenarios.

Lemma expire_stage_none_expired now c :
  none_expired now (fold_left (fun m '(k, v) => if expired now v then delete m k else m) c c) = true.
Proof.
  rewrite expire_fold. unfold none_expired. apply forallb_forall.
  intros p Hp. apply filter_In in Hp as [Hin Hp].
  apply negb_true_iff, not_true_iff_false. intros Hexp.
  apply negb_true_iff in Hp. apply not_true_iff_false in Hp. apply Hp.
  apply existsb_exists. exists p. split; [exact Hin|].
  rewrite String.eqb_refl, Hexp. reflexivity.
Qed.

Lemma cleanup_none_expired now c : none_expired now (cleanup now c) = true.
Proof.
  unfold cleanup.
  pose proof (expire_stage_none_expired now c) as H.
  destruct (Nat.ltb _ _); [|exact H].
  rewrite delete_keys. unfold none_expired in *.
  apply forallb_filter, H.
Qed.

Lemma expire_stage_id now c :
  none_expired now c = true ->
  fold_left (fun m '(k, v) => if expired now v then delete m k else m) c c = c.
Proof.
  intros H. rewrite expire_fold. apply filter_all_true.
  intros p _. apply negb_true_iff, not_true_iff_false. intros Hex.
  apply existsb_exists in Hex as (q & Hq & Hb). apply andb_true_iff in Hb as [_ Hexp].
  unfold none_expired in H. rewrite forallb_forall in H. specialize (H q Hq).
  rewrite Hexp in H. discriminate.
Qed.

Lemma cleanup_fixed now c :
  none_expired now c = true -> (List.length c <= MAX_CACHE_SIZE)%nat -> cleanup now c = c.
Proof.
  intros H Hl. unfold cleanup. rewrite (expire_stage_id now c H).
  destruct (Nat.ltb_spec MAX_CACHE_SIZE (List.length c)); [lia | reflexivity].
Qed.

Lemma NoDup_same_key (c : Cache) p q :
  NoDup (map fst c) -> In p c -> In q c -> fst p = fst q -> p = q.
Proof.
  induction c as [|x c IH]; simpl; intros Hnd Hp Hq Hk; [contradiction|].
  inversion Hnd as [|? ? Hnin Hnd']; subst.
  destruct Hp as [<-|Hp], Hq as [<-|Hq]; try reflexivity.
  - exfalso. apply Hnin. rewrite Hk. apply in_map, Hq.
  - exfalso. apply Hnin. rewrite <- Hk. apply in_map, Hp.
  - apply IH; assumption.
Qed.

(** X1: After [cleanupCache] the cache holds no expired entry and at most [MAX_CACHE_SIZE] entries, and it is a sub-list of the cache before (entries are only removed, never changed or reordered). *)
Theorem cleanup_sound now c :
  none_expired now (cleanup now c) = true /\ (List.length (cleanup now c) <= MAX_CACHE_SIZE)%nat /\
  exists keep, cleanup now c = filter keep c.
Proof.
  split; [apply cleanup_none_expired|]. split; [apply cleanup_length | apply cleanup_filter].
Qed.

(** X2: Running [cleanupCache] a second time at the same instant changes nothing. *)
Theorem cleanup_idempotent now c : cleanup now (cleanup now c) = cleanup now c.
Proof. apply cleanup_fixed; [apply cleanup_none_expired | apply cleanup_length]. Qed.

(** X3: On a cache with distinct keys whose unexpired entries number at most [MAX_CACHE_SIZE], [cleanupCache] removes exactly the expired entries and keeps every other one. *)
Theorem cleanup_below_capacity_drops_expired now c :
  keys_distinct c = true ->
  (List.length (filter (fun p => negb (expired now (snd p))) c) <= MAX_CACHE_SIZE)%nat ->
  cleanup now c = filter (fun p => negb (expired now (snd p))) c.
Proof.
  intros Hkd Hl. apply keys_distinct_NoDup in Hkd.
  assert (E : fold_left (fun m '(k, v) => if expired now v then delete m k else m) c c =
              filter (fun p => negb (expired now (snd p))) c).
  { rewrite expire_fold. apply filter_ext_in. intros p Hp. f_equal.
    destruct (expired now (snd p)) eqn:Ep.
    - apply existsb_exists. exists p. split; [exact Hp|]. rewrite String.eqb_refl, Ep. reflexivity.
    - apply not_true_iff_false. intros Hex. apply existsb_exists in Hex as (q & Hq & Hb).
      apply andb_true_iff in Hb as [Hk Hexp]. apply String.eqb_eq in Hk.
      rewrite (NoDup_same_key c p q Hkd Hp Hq Hk), Hexp in Ep. discriminate. }
  unfold cleanup. rewrite E.
  destruct (Nat.ltb_spec MAX_CACHE_SIZE (List.length (filter (fun p => negb (expired now (snd p))) c))); [lia | reflexivity].
Qed.

Lemma cleanup_below_capacity_drops_expired_witness :
  keys_distinct cache_two = true /\
  (List.length (filter (fun p => negb (expired (CACHE_DURATION + 1) (snd p))) cache_two)
     <= MAX_CACHE_SIZE)%nat /\
  cleanup (CACHE_DURATION + 1) cache_two = [("new ipo", mkEntry None 5)].
Proof.
  split; [vm_compute; reflexivity|]. split; [vm_compute; lia|].
  rewrite (cleanup_below_capacity_drops_expired (CACHE_DURATION + 1) cache_two);
    [vm_compute; reflexivity | vm_compute; reflexivity | vm_compute; lia].
Defined.

Lemma cache_stats_ok now1 now2 c :
  none_expired now1 c = true -> (List.length c <= MAX_CACHE_SIZE)%nat ->
  let st := cache_stats now2 c in
  (size st <= MAX_CACHE_SIZE)%nat /\ size st = List.length (entries st) /\
  Forall (fun e => age e <= CACHE_DURATION + (now2 - now1)) (entries st).
Proof.
  intros Hne Hl. cbv zeta. unfold cache_stats. cbn [size entries].
  split; [exact Hl|]. split; [rewrite length_map; reflexivity|].
  apply Forall_forall. intros x Hx. apply in_map_iff in Hx as ([k v] & <- & Hin).
  cbn [age]. unfold none_expired in Hne. rewrite forallb_forall in Hne.
  specialize (Hne _ Hin). cbn in Hne. unfold expired in Hne.
  apply negb_true_iff in Hne. rewrite Z.gtb_ltb in Hne. apply Z.ltb_ge in Hne. lia.
Qed.

(** X4: For each of the three caches, the statistics read after the static cleanup method never fail and report a [size] equal to the number of [entries] and at most [MAX_CACHE_SIZE]. When the cleanup runs at instant t1 and the statistics are read at instant t2, every reported [age] is at most [CACHE_DURATION] + (t2 - t1). *)
Theorem cleanup_then_cache_stats env1 env2 :
  Safe (cleanupBigshareCache env1 ;;; getBigshareCache env2)
    (fun st => (size st <= MAX_CACHE_SIZE)%nat /\ size st = List.length (entries st) /\
               Forall (fun e => age e <= CACHE_DURATION + (now env2 - now env1)) (entries st)) /\
  Safe (cleanupMufgCache env1 ;;; getMufgCache env2)
    (fun st => (size st <= MAX_CACHE_SIZE)%nat /\ size st = List.length (entries st) /\
               Forall (fun e => age e <= CACHE_DURATION + (now env2 - now env1)) (entries st)) /\
  Safe (cleanupPurvaCache env1 ;;; getPurvaCache env2)
    (fun st => (size st <= MAX_CACHE_SIZE)%nat /\ size st = List.length (entries st) /\
               Forall (fun e => age e <= CACHE_DURATION + (now env2 - now env1)) (entries st)).
Proof.
  split; [|split]; intros st0;
    unfold cleanupBigshareCache, getBigshareCache, cleanupMufgCache, getMufgCache,
      cleanupPurvaCache, getPurvaCache, upd_big, upd_mufg, upd_purva, get_st, bind, ret;
    cbn beta iota;
    apply (cache_stats_ok (now env1) (now env2));
    first [apply cleanup_none_expired | apply cleanup_length].
Qed.

Lemma cleanup_single now k v : cleanup now [(k, mkEntry v now)] = [(k, mkEntry v now)].
Proof. unfold cleanup. cbn. rewrite not_expired_now. reflexivity. Qed.

(** X5: For each of the three caches, clearing it, resolving a name at instant t1 and reading the statistics at instant t2 yields exactly one entry: the normalised name, with the resolved id (or null) and age t2 - t1. The other caches are unchanged. The requests made are the one or two Bigshare pages, or the single MUFG or Purva listing request. *)
Theorem clear_resolve_stats env env2 ipoName :
  (forall s, exists v rs,
     (clearBigshareCache ;;; v <- getBigshareCompanyId env ipoName ;;
      st <- getBigshareCache env2 ;; ret (v, st)) s =
     (inr (v, mkStats 1 [mkStat (trim (toLowerCase ipoName)) v (now env2 - now env)]),
      mkSt [(trim (toLowerCase ipoName), mkEntry v (now env))] (mufgCompanyIdCache s)
           (purvaCompanyIdCache s) (requests s ++ rs)%list) /\
     (1 <= List.length rs <= 2)%nat) /\
  (forall s, exists v,
     (clearMufgCache ;;; v <- getMufgCompanyId env ipoName ;;
      st <- getMufgCache env2 ;; ret (v, st)) s =
     (inr (v, mkStats 1 [mkStat (trim (toLowerCase ipoName)) v (now env2 - now env)]),
      mkSt (bigshareCompanyIdCache s) [(trim (toLowerCase ipoName), mkEntry v (now env))]
           (purvaCompanyIdCache s) (requests s ++ [mkRequest mufg_companies_url []])%list)) /\
  (forall s, exists v,
     (clearPurvaCache ;;; v <- getPurvaCompanyId env ipoName ;;
      st <- getPurvaCache env2 ;; ret (v, st)) s =
     (inr (v, mkStats 1 [mkStat (trim (toLowerCase ipoName)) v (now env2 - now env)]),
      mkSt (bigshareCompanyIdCache s) (mufgCompanyIdCache s)
           [(trim (toLowerCase ipoName), mkEntry v (now env))]
           (requests s ++ [mkRequest purva_url []])%list)).
Proof.
  split; [|split]; intros s.
  - set (s1 := mkSt [] (mufgCompanyIdCache s) (purvaCompanyIdCache s) (requests s)).
    destruct (getBigshareCompanyId_miss env ipoName s1 eq_refl) as (v & rs & Hrun & Hlen).
    exists v, rs. split; [|exact Hlen].
    unfold bind at 1. unfold clearBigshareCache, upd_big. cbn beta iota.
    fold s1. unfold bind at 1. rewrite Hrun. cbn. rewrite cleanup_single.
    unfold ret, cache_stats. cbn. reflexivity.
  - set (s1 := mkSt (bigshareCompanyIdCache s) [] (purvaCompanyIdCache s) (requests s)).
    destruct (getMufgCompanyId_miss env ipoName s1 eq_refl) as (v & Hrun).
    exists v.
    unfold bind at 1. unfold clearMufgCache, upd_mufg. cbn beta iota.
    fold s1. unfold bind at 1. rewrite Hrun. cbn. rewrite cleanup_single.
    unfold ret, cache_stats. cbn. reflexivity.
  - set (s1 := mkSt (bigshareCompanyIdCache s) (mufgCompanyIdCache s) [] (requests s)).
    destruct (getPurvaCompanyId_miss env ipoName s1 eq_refl) as (v & Hrun).
    exists v.
    unfold bind at 1. unfold clearPurvaCache, upd_purva. cbn beta iota.
    fold s1. unfold bind at 1. rewrite Hrun. cbn. rewrite cleanup_single.
    unfold ret, cache_stats. cbn. reflexivity.
Qed.

End CacheMaintenance.

Section CheckerRuns.
Import JsString JsNumber IdCache Resolver CacheProps Checkers Scenarios MoreScenarios.

(** X7: When the IPO name is all digits, [checkBigshare] does not consult the company id resolver or its cache. It sends one POST with the name itself as [Company], and its result has no [details]. *)
Theorem checkBigshare_numeric_direct env req s :
  is_numeric (ipoName req) = true ->
  exists r,
    checkBigshare env req s =
      (inr r, mkSt (bigshareCompanyIdCache s) (mufgCompanyIdCache s) (purvaCompanyIdCache s)
                (requests s ++ [mkRequest bigshare_url
                   [("Company", ipoName req); ("SelectionType", "PN"); ("PanNo", panNo req)]])%list) /\
    details r = None.
Proof.
  intros Hnum. unfold checkBigshare. rewrite Hnum. cbn [negb].
  unfold bind, try_catch, http_with, ret. cbn beta iota.
  destruct (bigshare_post env) as [e|p]; cbn beta iota.
  - eexists. split; reflexivity.
  - rewrite String.eqb_refl. eexists. split; reflexivity.
Qed.

Lemma checkBigshare_numeric_direct_witness :
  is_numeric (ipoName req_123) = true /\
  exists r,
    checkBigshare (env_down 0) req_123 st0 =
      (inr r, mkSt [] [] []
                [mkRequest bigshare_url
                   [("Company", "123"); ("SelectionType", "PN"); ("PanNo", "ABCDE1234F")]]) /\
    details r = None.
Proof.
  split; [vm_compute; reflexivity|].
  apply (checkBigshare_numeric_direct (env_down 0) req_123 st0). vm_compute. reflexivity.
Defined.

(** Substrings *)
Lemma prefixb_app_split p q m :
  prefixb (p ++ q) m = true -> exists m1 m2, m = (m1 ++ m2)%list /\ prefixb q m2 = true.
Proof.
  revert m. induction p as [|a p IH]; intros m H.
  - exists [], m. split; [reflexivity | exact H].
  - destruct m as [|b m]; cbn in H; [discriminate|].
    apply andb_true_iff in H as [_ H]. destruct (IH m H) as (m1 & m2 & -> & Hq).
    exists (b :: m1), m2. split; [reflexivity | exact Hq].
Qed.

Lemma includes_l_split l p :
  includes_l l p = true -> exists x m, l = (x ++ m)%list /\ prefixb p m = true.
Proof.
  induction l as [|a l IH]; cbn; intros H.
  - exists [], []. split; [reflexivity | exact H].
  - apply orb_true_iff in H as [H|H].
    + exists [], (a :: l). split; [reflexivity | exact H].
    + destruct (IH H) as (x & m & -> & Hm). exists (a :: x), m. split; [reflexivity | exact Hm].
Qed.

Lemma includes_l_app x m p : prefixb p m = true -> includes_l (x ++ m) p = true.
Proof.
  intros H. induction x as [|a x IH]; cbn.
  - destruct m; cbn; [exact H | rewrite H; reflexivity].
  - rewrite IH, orb_true_r. reflexivity.
Qed.

(** A string containing [p ++ q] contains [q]. *)
Lemma includes_l_suffix l p q : includes_l l (p ++ q) = true -> includes_l l q = true.
Proof.
  intros H. destruct (includes_l_split l _ H) as (x & m & -> & Hm).
  destruct (prefixb_app_split p q m Hm) as (m1 & m2 & -> & Hq).
  rewrite app_assoc. apply includes_l_app, Hq.
Qed.

(** X8: [checkBigshare] reports "Not Allotted" only when the [ALLOTED] field contains "non". Conversely, for an application found (a non-empty [APPLICATION_NO] and a [DPID] other than "No data found"), the value "Not Allotted" contains "allot" and no "non", so it is classified as "Allotted". *)
Theorem bigshare_not_allotted_needs_non :
  (forall d, bigshare_status (Some d) = "Not Allotted" ->
     exists a, ALLOTED d = Some a /\ includes (toLowerCase a) "non" = true) /\
  (forall d, truthy (APPLICATION_NO d) = true -> DPID d <> Some "No data found" ->
     ALLOTED d = Some "Not Allotted" -> bigshare_status (Some d) = "Allotted").
Proof.
  split.
  - intros d. unfold bigshare_status.
    destruct (_ && _)%bool; [|discriminate].
    destruct (ALLOTED d) as [a|]; cbn; [|discriminate].
    destruct (includes (toLowerCase a) "non") eqn:En.
    + intros _. exists a. split; [reflexivity | exact En].
    + rewrite andb_true_r.
      destruct (includes (toLowerCase a) "allot") eqn:Ea; [discriminate|].
      unfold includes in *.
      destruct (includes_l _ (list_ascii_of_string "non-allot")) eqn:E1.
      { change (list_ascii_of_string "non-allot")
          with (["n"; "o"; "n"; "-"]%char ++ list_ascii_of_string "allot")%list in E1.
        apply includes_l_suffix in E1. congruence. }
      destruct (includes_l _ (list_ascii_of_string "not allot")) eqn:E2.
      { change (list_ascii_of_string "not allot")
          with (["n"; "o"; "t"; " "]%char ++ list_ascii_of_string "allot")%list in E2.
        apply includes_l_suffix in E2. congruence. }
      discriminate.
  - intros d Happ Hdp Hal. unfold bigshare_status. rewrite Happ, Hal.
    destruct (DPID d) as [x|]; [|reflexivity].
    assert (Hx : String.eqb x "No data found" = false)
      by (apply String.eqb_neq; intros ->; apply Hdp; reflexivity).
    rewrite Hx. reflexivity.
Qed.

Lemma bigshare_not_allotted_needs_non_witness :
  bigshare_status (Some (mkBigshareD (Some "1") None (Some "Non-Allotted"))) = "Not Allotted" /\
  (exists a, Some "Non-Allotted" = Some a /\ includes (toLowerCase a) "non" = true) /\
  bigshare_status (Some (mkBigshareD (Some "1") None (Some "Not Allotted"))) = "Allotted".
Proof.
  split; [vm_compute; reflexivity|]. split.
  - exact (proj1 bigshare_not_allotted_needs_non (mkBigshareD (Some "1") None (Some "Non-Allotted"))
             ltac:(vm_compute; reflexivity)).
  - apply (proj2 bigshare_not_allotted_needs_non); [reflexivity | discriminate | reflexivity].
Defined.

(** X9: When the KFintech request fails, [checkKfintech] sends exactly that one request and returns a response. The response is a success with status "No Record Found" exactly when the failure carries HTTP status 404; otherwise it is status "Error" with the exception's message. *)
Theorem checkKfintech_rejected env req s e :
  kfintech_get env = inl e ->
  exists r,
    checkKfintech env req s =
      (inr r, mkSt (bigshareCompanyIdCache s) (mufgCompanyIdCache s) (purvaCompanyIdCache s)
                (requests s ++ [mkRequest kfintech_url [("type", "pan"); ("reqparam", panNo req)]])%list) /\
    (success r = true <-> response_status e = Some 404) /\
    (response_status e = Some 404 -> status r = "No Record Found" /\ error r = None) /\
    (response_status e <> Some 404 -> status r = "Error" /\ error r = Some (message e)).
Proof.
  intros He. unfold checkKfintech, try_catch, bind, http_with. rewrite He. cbn beta iota.
  destruct (response_status e) as [[|p|p]|] eqn:Es; cbn.
  all: try (eexists; split; [reflexivity|]; cbn; split; [split; [discriminate | intros H; discriminate H] |
                                                          split; [intros H; discriminate H | split; reflexivity]]).
  destruct p; try destruct p; try destruct p; try destruct p; try destruct p; try destruct p;
    try destruct p; try destruct p; try destruct p; try destruct p;
    (eexists; split; [reflexivity|]; cbn);
    first [ split; [split; [intros _; reflexivity | reflexivity] | split; [intros _; split; reflexivity | intros H; contradiction H; reflexivity]]
          | split; [split; [discriminate | intros H; discriminate H] | split; [intros H; discriminate H | split; reflexivity]]].
Qed.

Lemma checkKfintech_rejected_witness :
  kfintech_get (env_down 0) = inl refused /\
  exists r,
    checkKfintech (env_down 0) req0 st0 =
      (inr r, mkSt [] [] [] [mkRequest kfintech_url [("type", "pan"); ("reqparam", "ABCDE1234F")]]) /\
    (success r = true <-> response_status refused = Some 404) /\
    (response_status refused = Some 404 -> status r = "No Record Found" /\ error r = None) /\
    (response_status refused <> Some 404 -> status r = "Error" /\ error r = Some (message refused)).
Proof.
  split; [reflexivity|].
  apply (checkKfintech_rejected (env_down 0) req0 st0 refused). reflexivity.
Defined.

(** X10: With a fresh non-empty cached client id, a failing token request does not stop the MUFG check: it still posts the search with that client id and an empty [token]. It makes no other request and leaves the caches alone. *)
Theorem mufg_token_failure_sends_empty_token name env req s e cid err :
  fresh env (get (mufgCompanyIdCache s) (trim (toLowerCase (ipoName req)))) = Some e ->
  id e = Some cid -> cid <> "" ->
  mufg_token env = inl err ->
  exists r,
    checkMufgLike name env req s =
      (inr r, mkSt (bigshareCompanyIdCache s) (mufgCompanyIdCache s) (purvaCompanyIdCache s)
         (requests s ++
          [mkRequest (mufg_base ++ "/Initial_Offer/IPO.aspx/generateToken") [];
           mkRequest (mufg_base ++ "/Initial_Offer/IPO.aspx/SearchOnPan")
             [("clientid", cid); ("PAN", panNo req); ("IFSC", ""); ("CHKVAL", "1"); ("token", "")]])%list).
Proof.
  intros Hf Hid Hne Ht.
  unfold checkMufgLike, try_catch at 1. unfold bind at 1.
  rewrite (getMufgCompanyId_hit env (ipoName req) s e Hf), Hid. cbn beta iota zeta.
  assert (Hc : String.eqb cid "" = false) by (apply String.eqb_neq, Hne).
  unfold truthy. rewrite Hc. cbn [negb andb].
  unfold bind, try_catch, http, http_with, ret. rewrite Ht. cbn beta iota.
  destruct (mufg_search env); cbn; rewrite ?Hc; cbn; rewrite <- ?app_assoc; eexists; reflexivity.
Qed.

Lemma mufg_token_failure_sends_empty_token_witness :
  fresh (env_down 0) (get (mufgCompanyIdCache st_mufg_77) "123") = Some (mkEntry (Some "77") 0) /\
  exists r,
    checkMufgLike "mufg" (env_down 0) req_123 st_mufg_77 =
      (inr r, mkSt [] [("123", mkEntry (Some "77") 0)] []
         [mkRequest (mufg_base ++ "/Initial_Offer/IPO.aspx/generateToken") [];
          mkRequest (mufg_base ++ "/Initial_Offer/IPO.aspx/SearchOnPan")
            [("clientid", "77"); ("PAN", "ABCDE1234F"); ("IFSC", ""); ("CHKVAL", "1"); ("token", "")]]).
Proof.
  split; [vm_compute; reflexivity|].
  apply (mufg_token_failure_sends_empty_token "mufg" (env_down 0) req_123 st_mufg_77
           (mkEntry (Some "77") 0) "77" refused);
    [vm_compute; reflexivity | reflexivity | discriminate | reflexivity].
Defined.

(** X11: When the Purva form page yields no CSRF token, [checkPurva] stops after that one request with the error "Could not extract CSRF token from Purva website" and leaves the caches unchanged. *)
Theorem checkPurva_no_csrf env req s t :
  purva_form env = inr t -> truthy t = false ->
  checkPurva env req s =
    (inr (mkResp false "purva" "error" (Some "Could not extract CSRF token from Purva website") None),
     mkSt (bigshareCompanyIdCache s) (mufgCompanyIdCache s) (purvaCompanyIdCache s)
          (requests s ++ [mkRequest purva_url []])%list).
Proof.
  intros Hf Ht. unfold checkPurva, try_catch, bind, http, http_with. rewrite Hf.
  cbn beta iota. rewrite Ht. reflexivity.
Qed.

Lemma checkPurva_no_csrf_witness :
  purva_form env_purva_no_csrf = inr None /\
  checkPurva env_purva_no_csrf req0 st0 =
    (inr (mkResp false "purva" "error" (Some "Could not extract CSRF token from Purva website") None),
     mkSt [] [] [] [mkRequest purva_url []]).
Proof.
  split; [reflexivity|].
  apply (checkPurva_no_csrf env_purva_no_csrf req0 st0 None); reflexivity.
Defined.

(** X12: When a non-numeric IPO name is not found by the Purva resolver, [checkPurva] caches a negative entry and posts the search with the default [company_id] "78". *)
Theorem checkPurva_default_company env req s t :
  purva_form env = inr (Some t) -> t <> "" ->
  is_numeric (ipoName req) = false ->
  fresh env (get (purvaCompanyIdCache s) (trim (toLowerCase (ipoName req)))) = None ->
  match purva_listing env with
  | inl _ => True
  | inr opts => find_value (purva_option_matches (ipoName req)) opts = None
  end ->
  exists r,
    checkPurva env req s =
      (inr r, mkSt (bigshareCompanyIdCache s) (mufgCompanyIdCache s)
         (cleanup (now env) (set (purvaCompanyIdCache s) (trim (toLowerCase (ipoName req)))
                                 (mkEntry None (now env))))
         (requests s ++
          [mkRequest purva_url []; mkRequest purva_url [];
           mkRequest purva_url
             [("csrfmiddlewaretoken", t); ("company_id", "78"); ("applicationNumber", "");
              ("panNumber", panNo req); ("submit", "Search")]])%list).
Proof.
  intros Hf Ht Hnum Hmiss Hlist.
  assert (Hc : String.eqb t "" = false) by (apply String.eqb_neq, Ht).
  unfold checkPurva, try_catch at 1. unfold bind at 1, http, http_with. rewrite Hf.
  cbn beta iota. unfold truthy. rewrite Hc, Hnum. cbn [negb].
  unfold bind at 1. unfold bind at 1.
  unfold getPurvaCompanyId, bind at 1, get_st. cbn beta iota zeta. mred. rewrite Hmiss.
  unfold bind at 1, try_catch at 1, bind at 1, http, http_with.
  destruct (purva_listing env) as [e|opts]; cbn beta iota.
  - unfold bind, upd_purva, ret, http_with. cbn.
    destruct (purva_post env); cbn; rewrite <- ?app_assoc; eexists; reflexivity.
  - rewrite Hlist. unfold bind, upd_purva, ret, http_with. cbn.
    destruct (purva_post env); cbn; rewrite <- ?app_assoc; eexists; reflexivity.
Qed.

Lemma checkPurva_default_company_witness :
  purva_form (env_purva_table "5") = inr (Some "csrf") /\
  is_numeric (ipoName req0) = false /\
  exists r,
    checkPurva (env_purva_table "5") req0 st0 =
      (inr r, mkSt [] [] [("midwest limited", mkEntry None 0)]
         [mkRequest purva_url []; mkRequest purva_url [];
          mkRequest purva_url
            [("csrfmiddlewaretoken", "csrf"); ("company_id", "78"); ("applicationNumber", "");
             ("panNumber", "ABCDE1234F"); ("submit", "Search")]]).
Proof.
  split; [reflexivity|]. split; [vm_compute; reflexivity|].
  destruct (checkPurva_default_company (env_purva_table "5") req0 st0 "csrf") as [r Hr];
    [reflexivity | discriminate | vm_compute; reflexivity | vm_compute; reflexivity
    | vm_compute; reflexivity |].
  exists r. rewrite Hr. vm_compute. reflexivity.
Defined.

Lemma cameo_loop_all_down env req eps s :
  (forall ep, In ep eps ->
     match cameo_get env ep with inl _ => True | inr page => truthy (viewState page) = false end) ->
  cameo_loop env req eps s =
    (inr (mkResp false "cameo" "error" (Some "All Cameo endpoints are unavailable") None),
     mkSt (bigshareCompanyIdCache s) (mufgCompanyIdCache s) (purvaCompanyIdCache s)
          (requests s ++ map (fun ep => mkRequest ep []) eps)%list).
Proof.
  revert s. induction eps as [|ep eps IH]; intros s Hdown.
  - cbn. rewrite app_nil_r. destruct s; reflexivity.
  - cbn [cameo_loop]. unfold bind at 1, try_catch, cameo_endpoint, bind at 1, http, http_with.
    specialize (Hdown ep (or_introl eq_refl)) as Hep.
    destruct (cameo_get env ep) as [e|page]; cbn beta iota.
    + unfold ret. cbn beta iota. rewrite IH by (intros; apply Hdown; right; assumption). cbn.
      rewrite <- app_assoc. reflexivity.
    + rewrite Hep. mred. unfold ret. cbn beta iota.
      rewrite IH by (intros; apply Hdown; right; assumption). cbn.
      rewrite <- app_assoc. reflexivity.
Qed.

(** X13: When every Cameo endpoint fails or serves a page without a view state, [checkCameo] fetches each of the three endpoints once, in order, and returns the error "All Cameo endpoints are unavailable" without touching the caches. *)
Theorem checkCameo_all_endpoints_down env req s :
  (forall ep, In ep cameo_endpoint_urls ->
     match cameo_get env ep with inl _ => True | inr page => truthy (viewState page) = false end) ->
  checkCameo env req s =
    (inr (mkResp false "cameo" "error" (Some "All Cameo endpoints are unavailable") None),
     mkSt (bigshareCompanyIdCache s) (mufgCompanyIdCache s) (purvaCompanyIdCache s)
          (requests s ++ [mkRequest "https://ipostatus1.cameoindia.com/" [];
                          mkRequest "https://ipostatus2.cameoindia.com/" [];
                          mkRequest "https://ipostatus3.cameoindia.com/" []])%list).
Proof. intros H. unfold checkCameo. rewrite cameo_loop_all_down by exact H. reflexivity. Qed.

Lemma checkCameo_all_endpoints_down_witness :
  (forall ep, In ep cameo_endpoint_urls ->
     match cameo_get (env_down 0) ep with inl _ => True | inr page => truthy (viewState page) = false end) /\
  checkCameo (env_down 0) req0 st0 =
    (inr (mkResp false "cameo" "error" (Some "All Cameo endpoints are unavailable") None),
     mkSt [] [] [] (map (fun ep => mkRequest ep []) cameo_endpoint_urls)).
Proof.
  split; [intros ep _; simpl; exact I|].
  apply (checkCameo_all_endpoints_down (env_down 0) req0 st0). intros ep _; simpl; exact I.
Defined.

End CheckerRuns.

Section ServiceDispatch.
Import JsString JsNumber IdCache Resolver CacheProps Checkers Dispatcher Scenarios MoreScenarios.

Lemma list_ascii_of_string_app a b :
  list_ascii_of_string (a ++ b) = (list_ascii_of_string a ++ list_ascii_of_string b)%list.
Proof. induction a as [|c a IH]; cbn; [reflexivity | rewrite IH; reflexivity]. Qed.


Lemma hex_digit_ok n :
  (n < 16)%nat ->
  forallb (fun c => negb (existsb (Ascii.eqb c) url_delimiters)) (list_ascii_of_string (hex_digit n)) = true.
Proof. intros H. do 16 (destruct n as [|n]; [reflexivity|]). lia. Qed.

Lemma kept_char_ok c :
  ((is_word c && negb (Ascii.eqb c "_"%char))
   || existsb (Ascii.eqb c) ["-"; "_"; "."; "!"; "~"; "*"; "'"; "("; ")"]%char)%bool = true ->
  existsb (Ascii.eqb c) url_delimiters = false.
Proof.
  intros H. apply not_true_iff_false. intros Hb.
  apply existsb_exists in Hb as (x & Hx & Hc). apply Ascii.eqb_eq in Hc. subst x.
  unfold url_delimiters in Hx.
  repeat (destruct Hx as [<-|Hx]; [vm_compute in H; discriminate|]). contradiction.
Qed.

Lemma encode_bytes_no_delimiters s :
  forallb (fun c => negb (existsb (Ascii.eqb c) url_delimiters))
    (list_ascii_of_string (encode_bytes s)) = true.
Proof.
  unfold encode_bytes. induction (list_ascii_of_string s) as [|c l IH]; [reflexivity|].
  cbn [fold_right]. destruct (_ || _)%bool eqn:Hk.
  - cbn [list_ascii_of_string forallb]. rewrite kept_char_ok by exact Hk. exact IH.
  - rewrite !list_ascii_of_string_app, !forallb_app. rewrite IH, !hex_digit_ok.
    + reflexivity.
    + apply Nat.mod_upper_bound. lia.
    + apply Nat.Div0.div_lt_upper_bound. pose proof (nat_ascii_bounded c). lia.
Qed.

(** X14: Whenever [encodeURIComponent] returns, its output contains none of the characters & = ? # space / +, so the IPO name and PAN put in the Maashitla URL cannot add or split query parameters. *)
Theorem encodeURIComponent_no_delimiters s t :
  encodeURIComponent s = inr t ->
  forallb (fun c => negb (existsb (Ascii.eqb c) url_delimiters))
    (list_ascii_of_string t) = true.
Proof.
  unfold encodeURIComponent. destruct (has_lone_surrogate _); [discriminate|].
  intros [= <-]. apply encode_bytes_no_delimiters.
Qed.

Lemma encodeURIComponent_no_delimiters_witness :
  encodeURIComponent "A&B=C D" = inr "A%26B%3DC%20D" /\
  forallb (fun c => negb (existsb (Ascii.eqb c) url_delimiters))
    (list_ascii_of_string "A%26B%3DC%20D") = true.
Proof.
  split; [vm_compute; reflexivity|].
  apply (encodeURIComponent_no_delimiters "A&B=C D"). vm_compute. reflexivity.
Defined.

Lemma registrarCheckers_safe env req r chk :
  In (r, chk) registrarCheckers -> r <> maashitla ->
  Safe (chk env req) (tagged (registrar_name r)).
Proof.
  simpl. intros H Hr.
  repeat destruct H as [H|H]; try injection H as <- <-; try contradiction.
  - apply checkBigshare_tagged.
  - apply checkKfintech_tagged.
  - apply checkMufgLike_tagged.
  - apply checkHtmlRegistrar_tagged. discriminate.
  - apply checkCameo_tagged.
  - apply checkHtmlRegistrar_tagged. discriminate.
  - apply checkHtmlRegistrar_tagged. discriminate.
  - apply checkPurva_tagged.
  - apply checkMufgLike_tagged.
Qed.

Lemma registrar_name_inj r r' : registrar_name r = registrar_name r' -> r = r'.
Proof. destruct r, r'; first [reflexivity | discriminate]. Qed.

Lemma checkRegistrar_found r env req :
  exists chk, In (r, chk) registrarCheckers /\ checkRegistrar r env req = chk env req.
Proof.
  unfold checkRegistrar.
  destruct (find (fun p => registrar_eqb (fst p) r) registrarCheckers) as [[r' chk]|] eqn:E.
  - apply find_some in E as [Hin Heq]. cbn in Heq.
    unfold registrar_eqb in Heq. apply String.eqb_eq, registrar_name_inj in Heq. subst r'.
    exists chk. split; [exact Hin | reflexivity].
  - exfalso. destruct r; discriminate E.
Qed.

(** X15: [IPOAllotmentService.checkRegistrar] answers with a response carrying the name of the registrar it was asked for. It never throws for any registrar but maashitla; for maashitla it throws [URIError: URI malformed], before any request and with the state unchanged, exactly when the IPO name or the PAN holds a lone surrogate. *)
Theorem checkRegistrar_tagged r env req :
  Post (checkRegistrar r env req) (tagged (registrar_name r)) /\
  (r <> maashitla -> Safe (checkRegistrar r env req) (tagged (registrar_name r))) /\
  (forall s,
     if (has_lone_surrogate (list_ascii_of_string (ipoName req))
         || has_lone_surrogate (list_ascii_of_string (panNo req)))%bool
     then checkRegistrar maashitla env req s = (inl uri_malformed, s)
     else exists x s', checkRegistrar maashitla env req s = (inr x, s')).
Proof.
  split; [|split].
  - destruct (checkRegistrar_found r env req) as (chk & Hin & ->).
    exact (registrarCheckers_tagged env req r chk Hin).
  - intros Hr. destruct (checkRegistrar_found r env req) as (chk & Hin & ->).
    exact (registrarCheckers_safe env req r chk Hin Hr).
  - intros s. change (checkRegistrar maashitla env req s)
      with (checkHtmlRegistrar maashitla env req s).
    unfold checkHtmlRegistrar, encodeURIComponent.
    destruct (has_lone_surrogate (list_ascii_of_string (ipoName req))); [reflexivity|].
    destruct (has_lone_surrogate (list_ascii_of_string (panNo req))); [reflexivity|].
    unfold bind, ret, try_catch, http, http_with.
    destruct (html_get env _); eexists _, _; reflexivity.
Qed.

Lemma check_all_loop_forall2 table env req (Q : RegistrarType -> Response -> Prop) :
  (forall r chk, In (r, chk) table -> Post (chk env req) (Q r)) ->
  (forall r e, Q r (mkResp false (registrar_name r) "error" (Some (message e)) None)) ->
  Safe (check_all_loop table env req) (Forall2 (fun p x => Q (fst p) x) table).
Proof.
  intros Htab Herr. induction table as [|[r chk] rest IH]; cbn [check_all_loop].
  - apply safe_ret. constructor.
  - apply safe_bind with (Q := Q r).
    + apply safe_try; [apply Htab; left; reflexivity | intros e; apply safe_ret, Herr].
    + intros x Hx. apply safe_bind with (Q := Forall2 (fun p x => Q (fst p) x) rest).
      * apply IH. intros r' chk' Hin. apply Htab. right. exact Hin.
      * intros xs Hxs. apply safe_ret. constructor; assumption.
Qed.

Lemma legacy_checkKfintech_named env req :
  Safe (LegacyService.checkKfintech env req) (fun x => registrar x = "kfintech").
Proof. unfold LegacyService.checkKfintech. repeat safe_step; reflexivity. Qed.

Lemma service_checkLinkIntime_named env req :
  Safe (ServiceFile.checkLinkIntime env req) (fun x => registrar x = "linkintime").
Proof. unfold ServiceFile.checkLinkIntime. repeat safe_step; reflexivity. Qed.

Lemma post_weaken_to {A} (m : M A) (P Q : A -> Prop) :
  Post m P -> (forall a, P a -> Q a) -> Post m Q.
Proof.
  intros Hm HPQ s. specialize (Hm s). destruct (fst (m s)) as [e|a]; [exact I | apply HPQ, Hm].
Qed.

Lemma service_checkHtmlRegistrar_outcome r env req :
  Post (ServiceFile.checkHtmlRegistrar r env req)
    (fun x => registrar x = registrar_name r /\ (status x = "parse_needed" \/ status x = "error")).
Proof.
  unfold ServiceFile.checkHtmlRegistrar. apply post_bind_any. intros url.
  apply post_of_safe. repeat safe_step; split; try reflexivity; tauto.
Qed.

Lemma service_checkers_post env req r chk :
  In (r, chk) ServiceFile.registrarCheckers ->
  Post (chk env req)
    (fun x => registrar x = registrar_name r /\
              (responseType (ServiceFile.registrarConfigs r) = "html" ->
               status x = "parse_needed" \/ status x = "error")).
Proof.
  cbn. intros H.
  repeat destruct H as [H|H]; try injection H as <- <-; try contradiction.
  all: first
    [ eapply post_weaken_to; [apply service_checkHtmlRegistrar_outcome | intros x [Hx Hs]; split; [exact Hx | intros; exact Hs]]
    | apply post_of_safe; eapply safe_weaken; [apply checkBigshare_tagged | intros x [Hx _]; split; [exact Hx | discriminate]]
    | apply post_of_safe; eapply safe_weaken; [apply legacy_checkKfintech_named | intros x Hx; split; [exact Hx | discriminate]]
    | apply post_of_safe; eapply safe_weaken; [apply service_checkLinkIntime_named | intros x Hx; split; [exact Hx | discriminate]]
    | apply post_of_safe; eapply safe_weaken; [apply checkMufgLike_tagged | intros x [Hx _]; split; [exact Hx | discriminate]] ].
Qed.

Lemma service_checkAllRegistrars_shape env req :
  Safe (ServiceFile.checkAllRegistrars env req)
    (fun results =>
       map registrar results =
         ["bigshare"; "kfintech"; "linkintime"; "skyline"; "cameo"; "mas"; "maashitla";
          "beetal"; "purva"; "mufg"] /\
       Forall (fun x => In (registrar x) ["skyline"; "cameo"; "mas"; "maashitla"; "beetal"; "purva"] ->
                        status x = "parse_needed" \/ status x = "error") results).
Proof.
  eapply safe_weaken.
  - apply (check_all_loop_forall2 ServiceFile.registrarCheckers env req
             (fun r x => registrar x = registrar_name r /\
                         (responseType (ServiceFile.registrarConfigs r) = "html" ->
                          status x = "parse_needed" \/ status x = "error"))).
    + intros r chk Hin. apply service_checkers_post, Hin.
    + intros r e. split; [reflexivity | intros _; right; reflexivity].
  - intros results H. unfold ServiceFile.registrarCheckers in H.
    repeat match goal with
           | H : Forall2 _ (_ :: _) _ |- _ => inversion H as [|? ? ? ? [? ?] ?]; subst; clear H
           | H : Forall2 _ [] _ |- _ => inversion H; subst; clear H
           end.
    cbn in *. split.
    + repeat match goal with H : registrar _ = _ |- _ => rewrite H end. reflexivity.
    + repeat (apply Forall_cons; [|]); [..|apply Forall_nil].
      all: intros Hin;
        repeat match goal with H : registrar _ = _ |- _ => rewrite H in Hin end;
        cbn in Hin; try (repeat destruct Hin as [Hin|Hin]; discriminate Hin || contradiction);
        match goal with H : ?a = "html" -> _ |- _ => apply H; reflexivity end.
Qed.

(** X16: The dispatcher of the services file never throws from [checkAllRegistrars]; it returns one response per registrar, in the table's order, and every HTML registrar's response has status "parse_needed" or "error". *)
Theorem service_checkAllRegistrars_entries env req :
  Safe (ServiceFile.checkAllRegistrars env req)
    (fun results =>
       map registrar results =
         ["bigshare"; "kfintech"; "linkintime"; "skyline"; "cameo"; "mas"; "maashitla";
          "beetal"; "purva"; "mufg"] /\
       Forall (fun x => In (registrar x) ["skyline"; "cameo"; "mas"; "maashitla"; "beetal"; "purva"] ->
                        status x = "parse_needed" \/ status x = "error") results).
Proof. apply service_checkAllRegistrars_shape. Qed.

Ltac exists_q q :=
  eexists _, q; split; [reflexivity|]; split; [reflexivity|]; split;
  [ first [left; reflexivity | right; reflexivity] |]; split;
  [ first [intros H; exfalso; apply H; reflexivity | intros _; reflexivity]
  | first [intros H; discriminate H | intros _; reflexivity] ].

(** X17: For a registrar whose configuration has response type html, [checkRegistrar] of the services file makes one GET to the configured base URL and endpoint and returns "parse_needed" or "error" tagged with the registrar's name, leaving the caches alone. Only Maashitla adds a query string: the percent-encoded IPO name and PAN. When either of them holds a lone surrogate, the Maashitla check instead throws [URIError: URI malformed] before any request. *)
Theorem service_checkRegistrar_html_fetch_only r env req s :
  responseType (ServiceFile.registrarConfigs r) = "html" ->
  (r = maashitla ->
   (has_lone_surrogate (list_ascii_of_string (ipoName req))
    || has_lone_surrogate (list_ascii_of_string (panNo req)))%bool = true ->
   ServiceFile.checkRegistrar r env req s = (inl uri_malformed, s)) /\
  ((r = maashitla ->
    (has_lone_surrogate (list_ascii_of_string (ipoName req))
     || has_lone_surrogate (list_ascii_of_string (panNo req)))%bool = false) ->
   exists x q,
    ServiceFile.checkRegistrar r env req s =
      (inr x, mkSt (bigshareCompanyIdCache s) (mufgCompanyIdCache s) (purvaCompanyIdCache s)
                (requests s ++ [mkRequest (baseUrl (ServiceFile.registrarConfigs r) ++
                                           endpoint (ServiceFile.registrarConfigs r) ++ q) []])%list) /\
    registrar x = registrar_name r /\
    (status x = "parse_needed" \/ status x = "error") /\
    (r <> maashitla -> q = "") /\
    (r = maashitla ->
     q = "?company=" ++ encode_bytes (ipoName req) ++ "&search=" ++ encode_bytes (panNo req))).
Proof.
  intros Hh. destruct r; try discriminate Hh.
  all: unfold ServiceFile.checkRegistrar; cbn [find fst ServiceFile.registrarCheckers].
  all: unfold registrar_eqb; cbn [registrar_name String.eqb Ascii.eqb Bool.eqb andb].
  all: unfold ServiceFile.checkHtmlRegistrar, encodeURIComponent; cbv zeta.
  4: { split.
       - intros _ Hbad.
         destruct (has_lone_surrogate (list_ascii_of_string (ipoName req))); [reflexivity|].
         cbn in Hbad. rewrite Hbad. reflexivity.
       - intros Hok. apply orb_false_iff in Hok as [E1 E2]; [|reflexivity].
         rewrite E1, E2. unfold try_catch, bind, http, http_with, ret. cbn beta iota.
         match goal with |- context [html_get ?e ?u] => destruct (html_get e u) end;
           cbn beta iota;
           exists_q ("?company=" ++ encode_bytes (ipoName req) ++ "&search=" ++ encode_bytes (panNo req)). }
  all: split; [intros Hm; discriminate Hm | intros _].
  all: unfold try_catch, bind, http, http_with, ret.
  all: match goal with |- context [html_get ?e ?u] => destruct (html_get e u) end.
  all: cbn beta iota; exists_q "".
Qed.

Lemma service_checkRegistrar_html_fetch_only_witness :
  responseType (ServiceFile.registrarConfigs maashitla) = "html" /\
  ServiceFile.checkRegistrar maashitla env_html_ok req_surrogate st0 = (inl uri_malformed, st0) /\
  exists x q,
    ServiceFile.checkRegistrar maashitla env_html_ok req0 st0 =
      (inr x, mkSt [] [] []
                [mkRequest ("https://www.maashitla.com" ++ "/PublicIssues/Search" ++ q) []]) /\
    registrar x = "maashitla" /\
    (status x = "parse_needed" \/ status x = "error").
Proof.
  split; [reflexivity|]. split.
  - apply (proj1 (service_checkRegistrar_html_fetch_only maashitla env_html_ok req_surrogate st0
                    ltac:(reflexivity))); [reflexivity | vm_compute; reflexivity].
  - destruct (proj2 (service_checkRegistrar_html_fetch_only maashitla env_html_ok req0 st0
                       ltac:(reflexivity)))
      as (x & q & Hrun & Hreg & Hst & _); [intros _; vm_compute; reflexivity|].
    exists x, q. split; [exact Hrun|]. split; [exact Hreg | exact Hst].
Defined.

End ServiceDispatch.

Section ControllerProofs.
Import JsString JsNumber IdCache Resolver CacheProps Checkers Dispatcher Controller Scenarios MoreScenarios.

Lemma service_checkRegistrar_found r env req :
  exists chk, In (r, chk) ServiceFile.registrarCheckers /\
              ServiceFile.checkRegistrar r env req = chk env req.
Proof.
  unfold ServiceFile.checkRegistrar.
  destruct (find (fun p => registrar_eqb (fst p) r) ServiceFile.registrarCheckers) as [[r' chk]|] eqn:E.
  - apply find_some in E as [Hin Heq]. cbn in Heq.
    unfold registrar_eqb in Heq. apply String.eqb_eq, registrar_name_inj in Heq. subst r'.
    exists chk. split; [exact Hin | reflexivity].
  - exfalso. destruct r; discriminate E.
Qed.

Lemma service_checkRegistrar_named r env req :
  Post (ServiceFile.checkRegistrar r env req) (fun x => registrar x = registrar_name r).
Proof.
  destruct (service_checkRegistrar_found r env req) as (chk & Hin & ->).
  eapply post_weaken_to; [apply (service_checkers_post env req r chk Hin) | intros x [Hx _]; exact Hx].
Qed.

Lemma service_checkers_nothrow env req r chk :
  In (r, chk) ServiceFile.registrarCheckers -> r <> maashitla -> Safe (chk env req) (fun _ => True).
Proof.
  cbn. intros H Hr.
  repeat destruct H as [H|H]; try injection H as <- <-; try contradiction.
  all: first
    [ eapply safe_weaken; [apply checkBigshare_tagged | intros; exact I]
    | eapply safe_weaken; [apply legacy_checkKfintech_named | intros; exact I]
    | eapply safe_weaken; [apply service_checkLinkIntime_named | intros; exact I]
    | eapply safe_weaken; [apply checkMufgLike_tagged | intros; exact I]
    | unfold ServiceFile.checkHtmlRegistrar; repeat safe_step; exact I ].
Qed.

(** What [ServiceFile.checkRegistrar] can throw: only the [URIError] of the
    Maashitla query string, before any request. *)
Lemma service_checkRegistrar_throws r env req s e s' :
  ServiceFile.checkRegistrar r env req s = (inl e, s') ->
  r = maashitla /\ e = uri_malformed /\ s' = s /\
  (has_lone_surrogate (list_ascii_of_string (ipoName req))
   || has_lone_surrogate (list_ascii_of_string (panNo req)))%bool = true.
Proof.
  destruct (service_checkRegistrar_found r env req) as (chk & Hin & ->). intros H.
  assert (Hdec : r = maashitla \/ r <> maashitla)
    by (destruct r; (left; reflexivity) || (right; discriminate)).
  destruct Hdec as [->|Hr].
  - cbn in Hin. repeat destruct Hin as [Hin|Hin]; try discriminate Hin; try contradiction.
    injection Hin as <-. revert H. unfold ServiceFile.checkHtmlRegistrar, encodeURIComponent.
    destruct (has_lone_surrogate (list_ascii_of_string (ipoName req))).
    { intros H. injection H as <- <-. repeat split. }
    destruct (has_lone_surrogate (list_ascii_of_string (panNo req))).
    { intros H. injection H as <- <-. repeat split. }
    unfold try_catch, bind, http, http_with, ret. cbn beta iota.
    match goal with |- context [html_get ?e ?u] => destruct (html_get e u) end;
      discriminate.
  - exfalso. pose proof (service_checkers_nothrow env req r chk Hin Hr s) as Hs.
    rewrite H in Hs. exact Hs.
Qed.

Lemma service_maashitla_throws env req s :
  has_lone_surrogate (list_ascii_of_string (ipoName req)) = true ->
  ServiceFile.checkRegistrar maashitla env req s = (inl uri_malformed, s).
Proof.
  intros H. change (ServiceFile.checkRegistrar maashitla env req s)
    with (ServiceFile.checkHtmlRegistrar maashitla env req s).
  unfold ServiceFile.checkHtmlRegistrar, encodeURIComponent. rewrite H. reflexivity.
Qed.

Lemma has_lone_surrogate_237 l :
  has_lone_surrogate l = true -> exists a, In a l /\ nat_of_ascii a = 237%nat.
Proof.
  induction l as [|a [|b r] IH]; cbn; try discriminate.
  intros H. apply orb_true_iff in H as [H|H].
  - apply andb_true_iff in H as [H _]. apply andb_true_iff in H as [H _].
    apply Nat.eqb_eq in H. exists a. split; [left; reflexivity | exact H].
  - destruct (IH H) as (c & Hc & Hn). exists c. split; [right; exact Hc | exact Hn].
Qed.

Lemma pan_no_surrogate p :
  panRegex_test p = true -> has_lone_surrogate (list_ascii_of_string p) = false.
Proof.
  unfold panRegex_test. intros H.
  destruct (has_lone_surrogate (list_ascii_of_string p)) eqn:E; [|reflexivity].
  exfalso. apply has_lone_surrogate_237 in E as (c & Hc & Hn).
  destruct (list_ascii_of_string p)
    as [|a1 [|a2 [|a3 [|a4 [|a5 [|d1 [|d2 [|d3 [|d4 [|z [|]]]]]]]]]]]; try discriminate H.
  cbn in H. unfold is_upper, is_digit in H. rewrite !andb_true_iff, !Nat.leb_le in H.
  cbn in Hc. repeat destruct Hc as [<-|Hc]; try contradiction; lia.
Qed.

Lemma as_registrar_name reg :
  existsb (String.eqb reg) validRegistrars = true -> registrar_name (as_registrar reg) = reg.
Proof.
  intros H. apply existsb_eqb_in in H. unfold validRegistrars in H.
  repeat (destruct H as [<-|H]; [reflexivity|]). contradiction.
Qed.

(** X18: For a PAN accepted by the controller's pattern, the masked PAN keeps the first three and the last two characters and replaces the five characters in between with X. *)
Theorem mask_pan_shape p :
  panRegex_test p = true ->
  exists a1 a2 a3 m4 m5 m6 m7 m8 a9 a10,
    list_ascii_of_string p = [a1; a2; a3; m4; m5; m6; m7; m8; a9; a10] /\
    mask_pan p = string_of_list_ascii [a1; a2; a3; "X"; "X"; "X"; "X"; "X"; a9; a10]%char.
Proof.
  unfold panRegex_test. intros H.
  rewrite <- (string_of_list_ascii_of_string p) in *.
  rewrite list_ascii_of_string_of_list_ascii in *.
  destruct (list_ascii_of_string p)
    as [|a1 [|a2 [|a3 [|m4 [|m5 [|m6 [|m7 [|m8 [|a9 [|a10 [|]]]]]]]]]]]; try discriminate H.
  exists a1, a2, a3, m4, m5, m6, m7, m8, a9, a10. split; reflexivity.
Qed.

Lemma mask_pan_shape_witness :
  panRegex_test "ABCDE1234F" = true /\
  exists a1 a2 a3 m4 m5 m6 m7 m8 a9 a10,
    list_ascii_of_string "ABCDE1234F" = [a1; a2; a3; m4; m5; m6; m7; m8; a9; a10] /\
    mask_pan "ABCDE1234F" = string_of_list_ascii [a1; a2; a3; "X"; "X"; "X"; "X"; "X"; a9; a10]%char.
Proof.
  split; [vm_compute; reflexivity|].
  apply (mask_pan_shape "ABCDE1234F"). vm_compute. reflexivity.
Defined.

Lemma safe_try_handled {A} (m : M A) (h : Exn -> M A) (P : A -> Prop) (E : Exn -> Prop) :
  Post m P -> (forall s e s', m s = (inl e, s') -> E e) -> (forall e, E e -> Safe (h e) P) ->
  Safe (try_catch m h) P.
Proof.
  intros Hm Hth Hh s. unfold try_catch. specialize (Hm s).
  destruct (m s) as [[e|a] s'] eqn:Em; cbn in *; [exact (Hh e (Hth s e s' Em) s') | exact Hm].
Qed.

Lemma safe_try_plain {A} (m : M A) (h : Exn -> M A) (P : A -> Prop) :
  Safe m P -> Safe (try_catch m h) P.
Proof.
  intros Hm. apply safe_try_handled with (E := fun _ => False).
  - apply post_of_safe, Hm.
  - intros s e s' H. specialize (Hm s). rewrite H in Hm. exact Hm.
  - intros e [].
Qed.

(** X19: Taking the fields [panNo], [ipoName] and [registrar] of the request body to be strings or absent, [checkAllotmentStatus] always answers. Every error body has status 400. A single-registrar reply has status 200 and the requested registrar's result. A check-all reply has status 200, the ten registrars' results in order and a total of 10. Both 200 replies carry the PAN masked. The 500 handler is reached only for the registrar "maashitla" with an IPO name holding a lone surrogate, the [URIError: URI malformed] of [encodeURIComponent] in the services file, and it is reached for every such request with a valid PAN. *)
Theorem checkAllotmentStatus_replies env pan_opt ipo_opt reg_opt :
  Safe (checkAllotmentStatus env pan_opt ipo_opt reg_opt)
    (fun rep =>
       match body rep with
       | ErrorBody _ _ => http_status rep = 400
       | OneBody data maskedPan ipo reg =>
           http_status rep = 200 /\ ipo_opt = Some ipo /\ reg_opt = Some reg /\
           registrar data = reg /\
           exists p, pan_opt = Some p /\ panRegex_test p = true /\ maskedPan = mask_pan p
       | AllBody data maskedPan ipo total =>
           http_status rep = 200 /\ ipo_opt = Some ipo /\
           map registrar data = validRegistrars /\ total = 10%nat /\
           exists p, pan_opt = Some p /\ panRegex_test p = true /\ maskedPan = mask_pan p
       | FailureBody _ _ details =>
           http_status rep = 500 /\ reg_opt = Some "maashitla" /\ details = "URI malformed" /\
           exists i, ipo_opt = Some i /\ has_lone_surrogate (list_ascii_of_string i) = true
       end) /\
  (forall p i s,
     panRegex_test p = true -> has_lone_surrogate (list_ascii_of_string i) = true ->
     checkAllotmentStatus env (Some p) (Some i) (Some "maashitla") s =
       (inr (mkReply 500 (FailureBody "Failed to check allotment status"
               "An error occurred while checking IPO allotment status" "URI malformed")), s)).
Proof.
  split.
  2: { intros p i s Hp Hi. unfold checkAllotmentStatus, try_catch.
       assert (Ep : String.eqb p "" = false) by (destruct p; [discriminate Hp | reflexivity]).
       assert (Ei : String.eqb i "" = false) by (destruct i; [discriminate Hi | reflexivity]).
       rewrite Ep, Ei, Hp. cbn [orb negb].
       change (String.eqb "maashitla" "") with false.
       change (existsb (String.eqb "maashitla") validRegistrars) with true.
       change (as_registrar "maashitla") with maashitla. cbn [negb].
       unfold bind. rewrite (service_maashitla_throws env (mkReq p i) s Hi). reflexivity. }
  unfold checkAllotmentStatus.
  destruct pan_opt as [pan|]; [|apply safe_try_plain, safe_ret; reflexivity].
  destruct ipo_opt as [ipo|]; [|apply safe_try_plain, safe_ret; reflexivity].
  destruct (_ || _)%bool; [apply safe_try_plain, safe_ret; reflexivity|].
  destruct (panRegex_test pan) eqn:Hpan; cbn [negb]; [|apply safe_try_plain, safe_ret; reflexivity].
  assert (Hall : Safe
    (results <- ServiceFile.checkAllRegistrars env (mkReq pan ipo) ;;
     ret (mkReply 200 (AllBody results (mask_pan pan) ipo (List.length results))))
    (fun rep =>
       match body rep with
       | ErrorBody _ _ => http_status rep = 400
       | OneBody data maskedPan ipo' reg =>
           http_status rep = 200 /\ Some ipo = Some ipo' /\ reg_opt = Some reg /\
           registrar data = reg /\
           exists p, Some pan = Some p /\ panRegex_test p = true /\ maskedPan = mask_pan p
       | AllBody data maskedPan ipo' total =>
           http_status rep = 200 /\ Some ipo = Some ipo' /\
           map registrar data = validRegistrars /\ total = 10%nat /\
           exists p, Some pan = Some p /\ panRegex_test p = true /\ maskedPan = mask_pan p
       | FailureBody _ _ details =>
           http_status rep = 500 /\ reg_opt = Some "maashitla" /\ details = "URI malformed" /\
           exists i, Some ipo = Some i /\ has_lone_surrogate (list_ascii_of_string i) = true
       end)).
  { eapply safe_bind; [apply service_checkAllRegistrars_shape|].
    intros results [Hmap _]. apply safe_ret. cbn.
    split; [reflexivity|]. split; [reflexivity|]. split; [exact Hmap|].
    split; [rewrite <- (length_map registrar), Hmap; reflexivity|].
    exists pan. split; [reflexivity|]. split; [exact Hpan | reflexivity]. }
  destruct reg_opt as [reg|]; [|apply safe_try_plain, Hall].
  destruct (String.eqb reg "") eqn:Hr; [apply safe_try_plain, Hall|].
  destruct (existsb (String.eqb reg) validRegistrars) eqn:Hv; cbn [negb];
    [|apply safe_try_plain, safe_ret; reflexivity].
  apply safe_try_handled with
    (E := fun e => Some reg = Some "maashitla" /\ message e = "URI malformed" /\
                   exists i, Some ipo = Some i /\ has_lone_surrogate (list_ascii_of_string i) = true).
  - eapply post_bind; [apply service_checkRegistrar_named|].
    intros res Hres. apply post_ret. cbn.
    split; [reflexivity|]. split; [reflexivity|]. split; [reflexivity|].
    split; [rewrite Hres; apply as_registrar_name, Hv|].
    exists pan. split; [reflexivity|]. split; [exact Hpan | reflexivity].
  - intros s e s' H. unfold bind, ret in H.
    destruct (ServiceFile.checkRegistrar (as_registrar reg) env (mkReq pan ipo) s)
      as [[e0|a] s1] eqn:Hc; [|discriminate H].
    injection H as <- <-.
    apply service_checkRegistrar_throws in Hc as (Hm & -> & _ & Hsur).
    cbn [ipoName panNo] in Hsur. rewrite (pan_no_surrogate pan Hpan), orb_false_r in Hsur.
    split; [rewrite <- (as_registrar_name reg Hv), Hm; reflexivity|].
    split; [reflexivity|]. exists ipo. split; [reflexivity | exact Hsur].
  - intros e (Hreg & Hm & Hi). apply safe_ret. cbn.
    split; [reflexivity|]. split; [exact Hreg|]. split; [exact Hm | exact Hi].
Qed.

Lemma checkAllotmentStatus_replies_witness :
  panRegex_test "ABCDE1234F" = true /\
  has_lone_surrogate (list_ascii_of_string (ipoName req_surrogate)) = true /\
  checkAllotmentStatus env_html_ok (Some "ABCDE1234F") (Some (ipoName req_surrogate))
    (Some "maashitla") st0 =
    (inr (mkReply 500 (FailureBody "Failed to check allotment status"
            "An error occurred while checking IPO allotment status" "URI malformed")), st0).
Proof.
  split; [vm_compute; reflexivity|]. split; [vm_compute; reflexivity|].
  apply (proj2 (checkAllotmentStatus_replies env_html_ok None None None)
           "ABCDE1234F" (ipoName req_surrogate) st0); vm_compute; reflexivity.
Defined.

(** X20: A 400 reply of [checkAllotmentStatus] leaves the whole state unchanged: no request is sent and no cache is touched. *)
Theorem checkAllotmentStatus_400_no_effect env pan_opt ipo_opt reg_opt s rep s' :
  checkAllotmentStatus env pan_opt ipo_opt reg_opt s = (inr rep, s') ->
  http_status rep = 400 -> s' = s.
Proof.
  unfold checkAllotmentStatus, try_catch.
  destruct pan_opt as [pan|]; [|intros H _; cbn in H; congruence].
  destruct ipo_opt as [ipo|]; [|intros H _; cbn in H; congruence].
  destruct (_ || _)%bool; [intros H _; cbn in H; congruence|].
  destruct (panRegex_test pan); cbn [negb]; [|intros H _; cbn in H; congruence].
  assert (Hall : forall rep s',
    (let (r, s1) :=
       (results <- ServiceFile.checkAllRegistrars env (mkReq pan ipo) ;;
        ret (mkReply 200 (AllBody results (mask_pan pan) ipo (List.length results)))) s in
     match r with
     | inl e => ret (mkReply 500 (FailureBody "Failed to check allotment status"
                   "An error occurred while checking IPO allotment status" (message e))) s1
     | inr a => (inr a, s1)
     end) = (inr rep, s') -> http_status rep = 400 -> s' = s).
  { intros rep0 s0 H Hst. unfold bind, ret in H.
    destruct (ServiceFile.checkAllRegistrars env (mkReq pan ipo) s) as [[e|a] s1];
      injection H as <- <-; discriminate Hst. }
  destruct reg_opt as [reg|]; [|exact (Hall rep s')].
  destruct (String.eqb reg ""); [exact (Hall rep s')|].
  destruct (existsb (String.eqb reg) validRegistrars); cbn [negb]; [|intros H _; cbn in H; congruence].
  intros H Hst. unfold bind, ret in H.
  destruct (ServiceFile.checkRegistrar (as_registrar reg) env (mkReq pan ipo) s) as [[e|a] s1];
    injection H as <- <-; discriminate Hst.
Qed.

Lemma checkAllotmentStatus_400_no_effect_witness :
  checkAllotmentStatus (env_down 0) (Some "abcde1234f") (Some "Midwest Limited") None st0 =
    (inr (mkReply 400 (ErrorBody "Invalid PAN format" "PAN should be in format: ABCDE1234F")), st0) /\
  st0 = st0.
Proof.
  split; [vm_compute; reflexivity|].
  apply (checkAllotmentStatus_400_no_effect (env_down 0) (Some "abcde1234f") (Some "Midwest Limited")
           None st0 (mkReply 400 (ErrorBody "Invalid PAN format" "PAN should be in format: ABCDE1234F")) st0);
    [vm_compute; reflexivity | reflexivity].
Defined.

(** X21: [checkAllotmentStatus] answers 400 "Missing required fields" when a field is missing or empty, 400 "Invalid PAN format" when the PAN does not match the pattern, and 400 "Invalid registrar" listing the ten names for an unknown registrar. In each case the state is unchanged. An empty registrar name behaves as an absent one. *)
Theorem checkAllotmentStatus_validation env s :
  (forall pan_opt ipo_opt reg_opt,
     match pan_opt, ipo_opt with Some p, Some i => p = "" \/ i = "" | _, _ => True end ->
     checkAllotmentStatus env pan_opt ipo_opt reg_opt s =
       (inr (mkReply 400 (ErrorBody "Missing required fields" "panNo and ipoName are required")), s)) /\
  (forall pan ipo reg_opt, pan <> "" -> ipo <> "" -> panRegex_test pan = false ->
     checkAllotmentStatus env (Some pan) (Some ipo) reg_opt s =
       (inr (mkReply 400 (ErrorBody "Invalid PAN format" "PAN should be in format: ABCDE1234F")), s)) /\
  (forall pan ipo reg, pan <> "" -> ipo <> "" -> panRegex_test pan = true -> reg <> "" ->
     ~ In reg validRegistrars ->
     checkAllotmentStatus env (Some pan) (Some ipo) (Some reg) s =
       (inr (mkReply 400 (ErrorBody "Invalid registrar"
          "Registrar must be one of: bigshare, kfintech, linkintime, skyline, cameo, mas, maashitla, beetal, purva, mufg")), s)) /\
  (forall pan_opt ipo_opt,
     checkAllotmentStatus env pan_opt ipo_opt (Some "") s = checkAllotmentStatus env pan_opt ipo_opt None s).
Proof.
  split; [|split; [|split]].
  - intros [pan|] [ipo|] reg_opt H; try reflexivity.
    unfold checkAllotmentStatus, try_catch.
    destruct H as [->| ->]; [reflexivity|]. rewrite orb_true_r. reflexivity.
  - intros pan ipo reg_opt Hp Hi Hr. unfold checkAllotmentStatus, try_catch.
    apply String.eqb_neq in Hp, Hi. rewrite Hp, Hi, Hr. reflexivity.
  - intros pan ipo reg Hp Hi Hr Hreg Hv. unfold checkAllotmentStatus, try_catch.
    apply String.eqb_neq in Hp, Hi, Hreg. rewrite Hp, Hi, Hr, Hreg. cbn [orb negb].
    destruct (existsb (String.eqb reg) validRegistrars) eqn:E; [|reflexivity].
    apply existsb_eqb_in in E. contradiction.
  - intros [pan|] [ipo|]; reflexivity.
Qed.

End ControllerProofs.

Section ResolverInvariant.
Import JsString JsNumber IdCache Resolver CacheProps CacheAdmin.

Lemma get_In c k e : get c k = Some e -> In (k, e) c.
Proof.
  induction c as [|[k' v'] c IH]; cbn; [discriminate|].
  destruct (String.eqb_spec k k'); [intros [= <-]; subst; left; reflexivity | intros H; right; apply IH, H].
Qed.

Lemma fresh_some env c k e : fresh env (get c k) = Some e -> In (k, e) c.
Proof.
  unfold fresh. destruct (get c k) as [e'|] eqn:E; [|discriminate].
  destruct (_ <? _); [intros [= <-]; apply get_In, E | discriminate].
Qed.

Lemma Forall_cleanup_set now c k v :
  Forall id_nonempty c -> v <> Some "" -> Forall id_nonempty (cleanup now (set c k (mkEntry v now))).
Proof.
  intros Hc Hv. destruct (cleanup_filter now (set c k (mkEntry v now))) as [P ->].
  apply Forall_forall. intros p Hp. apply filter_In in Hp as [Hp _].
  apply set_in in Hp as [->|Hp]; [exact Hv|].
  rewrite Forall_forall in Hc. apply Hc, Hp.
Qed.

Lemma find_mufg_nonempty name tables n cid :
  find (mufg_company_matches name) tables = Some (n, cid) -> cid <> "".
Proof.
  intros H. apply find_some in H as [_ H]. unfold mufg_company_matches in H.
  intros ->. rewrite String.eqb_refl, orb_true_r in H. discriminate.
Qed.

Lemma find_value_nonempty (p : SelectOption -> bool) opts v :
  (forall o, p o = true -> opt_value o <> Some "") ->
  find_value p opts = Some v -> v <> "".
Proof.
  intros Hp. induction opts as [|o opts IH]; cbn; [discriminate|].
  destruct (p o) eqn:E; [|exact IH].
  intros Hv ->. apply (Hp o E Hv).
Qed.

Lemma purva_option_nonempty name o : purva_option_matches name o = true -> opt_value o <> Some "".
Proof.
  unfold purva_option_matches. destruct (opt_value o) as [v|]; [|discriminate].
  intros H [= ->]. rewrite String.eqb_refl in H. discriminate.
Qed.

Lemma bigshare_option_nonempty name o : bigshare_option_matches name o = true -> opt_value o <> Some "".
Proof.
  unfold bigshare_option_matches. destruct (opt_value o) as [v|]; [|discriminate].
  intros H [= ->]. rewrite String.eqb_refl in H. discriminate.
Qed.

Lemma scan_selectors_nonempty name sels v : scan_selectors name sels = Some v -> v <> "".
Proof.
  induction sels as [|opts sels IH]; cbn; [discriminate|].
  destruct opts as [|o os]; [exact IH|].
  destruct (find_value _ (o :: os)) as [w|] eqn:E; [|exact IH].
  intros [= <-]. apply (find_value_nonempty _ _ _ (bigshare_option_nonempty name) E).
Qed.


Lemma bigshare_try_nonempty env ipoName cacheKey urls s r s' :
  Forall id_nonempty (bigshareCompanyIdCache s) ->
  bigshare_try env ipoName cacheKey urls s = (r, s') ->
  r <> inr (Some "") /\ Forall id_nonempty (bigshareCompanyIdCache s').
Proof.
  revert s. induction urls as [|url rest IH]; intros s Hs.
  - cbn. intros [= <- <-]. split; [discriminate|].
    destruct (cleanup_filter (now env) (set (bigshareCompanyIdCache s) cacheKey (mkEntry None (now env)))) as [P ->].
    apply Forall_forall. intros p Hp. apply filter_In in Hp as [Hp _].
    apply set_in in Hp as [->|Hp]; [discriminate|]. rewrite Forall_forall in Hs. apply Hs, Hp.
  - cbn [bigshare_try]. unfold bind, try_catch, http, http_with.
    destruct (bigshare_listing env url) as [e|page]; cbn -[bigshare_try].
    + apply IH. exact Hs.
    + destruct (scan_selectors _ page) as [v|] eqn:E; cbn -[bigshare_try].
      * intros [= <- <-]. split.
        { intros [= Hv]. apply (scan_selectors_nonempty _ _ _ E Hv). }
        apply Forall_cleanup_set; [exact Hs|]. intros [= Hv].
        apply (scan_selectors_nonempty _ _ _ E Hv).
      * apply IH. exact Hs.
Qed.

(** X6: If no entry of a resolver's cache holds the empty string as id, the resolver never returns the empty string as id and keeps that property of its cache. *)
Theorem resolvers_never_yield_empty_id env name :
  (forall s r s', Forall id_nonempty (bigshareCompanyIdCache s) ->
     getBigshareCompanyId env name s = (r, s') ->
     r <> inr (Some "") /\ Forall id_nonempty (bigshareCompanyIdCache s')) /\
  (forall s r s', Forall id_nonempty (mufgCompanyIdCache s) ->
     getMufgCompanyId env name s = (r, s') ->
     r <> inr (Some "") /\ Forall id_nonempty (mufgCompanyIdCache s')) /\
  (forall s r s', Forall id_nonempty (purvaCompanyIdCache s) ->
     getPurvaCompanyId env name s = (r, s') ->
     r <> inr (Some "") /\ Forall id_nonempty (purvaCompanyIdCache s')).
Proof.
  split; [|split]; intros s r s' Hs.
  - unfold getBigshareCompanyId, bind, get_st.
    destruct (fresh env _) as [e|] eqn:F.
    + unfold ret. intros [= <- <-]. split; [|exact Hs].
      intros [= He]. apply fresh_some in F. rewrite Forall_forall in Hs. apply (Hs _ F), He.
    + apply bigshare_try_nonempty, Hs.
  - unfold getMufgCompanyId, bind, get_st.
    destruct (fresh env _) as [e|] eqn:F.
    + unfold ret. intros [= <- <-]. split; [|exact Hs].
      intros [= He]. apply fresh_some in F. rewrite Forall_forall in Hs. apply (Hs _ F), He.
    + unfold try_catch, http, http_with.
      destruct (mufg_listing env) as [e|[| |tables]]; cbn.
      1-3: intros [= <- <-]; split; [discriminate|];
           apply Forall_cleanup_set; [exact Hs|discriminate].
      destruct (find _ tables) as [[n cid]|] eqn:E; cbn.
      * intros [= <- <-]. split.
        { intros [= Hv]. apply (find_mufg_nonempty _ _ _ _ E Hv). }
        apply Forall_cleanup_set; [exact Hs|]. intros [= Hv].
        apply (find_mufg_nonempty _ _ _ _ E Hv).
      * intros [= <- <-]; split; [discriminate|];
           apply Forall_cleanup_set; [exact Hs|discriminate].
  - unfold getPurvaCompanyId, bind, get_st.
    destruct (fresh env _) as [e|] eqn:F.
    + unfold ret. intros [= <- <-]. split; [|exact Hs].
      intros [= He]. apply fresh_some in F. rewrite Forall_forall in Hs. apply (Hs _ F), He.
    + unfold try_catch, http, http_with.
      destruct (purva_listing env) as [e|opts]; cbn.
      * intros [= <- <-]; split; [discriminate|];
           apply Forall_cleanup_set; [exact Hs|discriminate].
      * destruct (find_value _ opts) as [v|] eqn:E; cbn.
        -- intros [= <- <-]. split.
           { intros [= Hv]. apply (find_value_nonempty _ _ _ (purva_option_nonempty name) E Hv). }
           apply Forall_cleanup_set; [exact Hs|]. intros [= Hv].
           apply (find_value_nonempty _ _ _ (purva_option_nonempty name) E Hv).
        -- intros [= <- <-]; split; [discriminate|];
           apply Forall_cleanup_set; [exact Hs|discriminate].
Qed.

End ResolverInvariant.
